(** * netbase: the connection core of a reliable transport over UDP

    A shallow embedding of [core::Connection] (src/core/connection.cpp,
    src/core/connection.h) and of the observer surface
    (src/core/socket_state_observer.h), with the collaborators whose
    sources are not part of the tree (circular sequence arithmetic, the ack
    field, the two ring buffers, datagram framing and the socket's receive
    path) modelled from the design document.

    Conventions.
    - A w-bit unsigned integer is a [Z] reduced with [uint16], [uint32] or
      [uint64] wherever the C++ arithmetic wraps.
    - [PacketPtr] is a [std::shared_ptr<Packet>]: a pointer into a heap of
      packets.  [store] stamps the header of the packet it is given, and
      every later read of [packet->header()] sees the stamp.
    - [system_clock::now()] reads the [clock] field of the environment, in
      milliseconds; a handler runs at one instant, and the clock advances
      only between handlers.
    - The io_service queue, the datagrams handed to the UDP socket, the
      observer notifications, the dispatcher calls and the log lines are
      components of the environment [Env], appended to in program order. *)

From Stdlib Require Import ZArith NArith Lia List Bool String.
From stdpp Require Import base option list sorting gmap fin_maps.

Local Open Scope Z_scope.

(** ** Fixed-width integers *)

Definition uint16 (z : Z) : Z := z mod 2 ^ 16.
Definition uint32 (z : Z) : Z := z mod 2 ^ 32.
Definition uint64 (z : Z) : Z := z mod 2 ^ 64.

(** ** Circular sequence arithmetic *)

(** Modelled from the spec: [moreRecentSeqNum] is declared with the packet
    type (core/packet.h), which is not in the tree.  [moreRecentSeqNum a b]
    is "a is circular-greater than b": [(a - b) mod 2^16 < 2^15] and
    [a <> b]. *)
Definition moreRecentSeqNum (a b : Z) : bool :=
  (uint16 (a - b) <? 2 ^ 15) && negb (a =? b).

(** ** AckField *)

Module AckField.

(** Modelled from the spec: the ack field type ([ack_type] in
    connection.cpp) is not in the tree.  [latest] is a u16, [bits] a u32;
    bit [i] of [bits] stands for seqnum [latest - (i + 1)]. *)
Record t : Type := mk { latest : Z; bits : Z }.

(** Modelled from the spec: "AckField = (latest: u16, bits: u32)".  The
    value a connection starts with is in neither place: the spec speaks of
    an "empty AckField" without giving it, and the constructor of
    [ack_type], which [Connection::Connection] runs for [m_ack], is not in
    the tree.  Both members are taken to be zero here.  With
    [updateForSeqNum] as the spec words it, the first seqnum received then
    sets the bit of seqnum 0 (the old [latest]) when it is within 32 of it;
    none of the properties proved below is about this value. *)
Definition initial : t := {| latest := 0; bits := 0 |}.

(** Modelled from the spec: [peerAck.latestSeqNum()], the [latest]
    component. *)
Definition latestSeqNum (a : t) : Z := latest a.

(** Modelled from the spec: "set bit i", [bits | (1 << i)] in a 32-bit
    word; an index outside 0..31 names no bit of the word. *)
Definition setBit (b i : Z) : Z := uint32 (Z.lor b (Z.shiftl 1 i)).

(** Modelled from the spec: "if s is circular-greater than latest: shift
    bits left by d = (s - latest) mod 2^16; if d <= 32 set bit d - 1 (the
    old latest); then latest <- s.  Else if (latest - s) mod 2^16 <= 32:
    set bit (latest - s) - 1.  Else: ignore." *)
Definition updateForSeqNum (s : Z) (a : t) : t :=
  if moreRecentSeqNum s (latest a) then
    let d := uint16 (s - latest a) in
    let shifted := uint32 (Z.shiftl (bits a) d) in
    {| latest := s;
       bits := if d <=? 32 then setBit shifted (d - 1) else shifted |}
  else
    let d := uint16 (latest a - s) in
    if d <=? 32
    then {| latest := latest a; bits := setBit (bits a) (d - 1) |}
    else a.

(** Modelled from the spec: "invoke f(latest), then for each set bit i
    invoke f(latest - (i + 1))".  The visited seqnums, in visiting
    order. *)
Definition forEachAckedSeqNum (a : t) : list Z :=
  latest a ::
  omap (fun i : Z => if Z.testbit (bits a) i
                     then Some (uint16 (latest a - (i + 1))) else None)
       (seqZ 0 32).

(** Modelled from the spec: [isAcked], "analogous predicate". *)
Definition isAcked (a : t) (s : Z) : bool :=
  bool_decide (s ∈ forEachAckedSeqNum a).

End AckField.

(** ** Packets and the packet heap *)

Definition endpoint : Type := (Z * Z)%type.   (* address, port *)

Definition PacketPtr : Type := positive.

(** Modelled from the spec: the packet type (core/packet.h) is not in the
    tree.  The header carries [protocol : u32], [seqNum : u16] and the
    sender's ack field ([ack : u16] with [ackBits : u32]); connection.cpp
    reads the last two as one [ack_type] value, [header.ack]. *)
Record PacketHeader : Type := mkHeader {
  protocol : Z;
  seqNum : Z;
  ack : AckField.t
}.

(** Modelled from the spec: "Packet = PacketHeader ++ payload". *)
Record Packet : Type := mkPacket {
  header : PacketHeader;
  payload : list Byte.byte
}.

(** What every [PacketPtr] points to. *)
Definition Heap : Type := PacketPtr -> Packet.

Definition stampHeader (s : Z) (a : AckField.t) (pk : Packet) : Packet :=
  {| header := {| protocol := protocol (header pk); seqNum := s; ack := a |};
     payload := payload pk |}.

Definition heapSet (p : PacketPtr) (pk : Packet) (h : Heap) : Heap :=
  fun q => if decide (q = p) then pk else h q.

(** [Connection::PacketExt] (connection.h): an empty slot, whose [packet]
    is null in the source, is an absent key of the buffer. *)
Record PacketExt : Type := mkExt {
  packet : PacketPtr;
  resendLimit : N;        (* how many times to try and resend this packet *)
  timestamp : Z           (* timestamp to measure latency *)
}.

(** The seqnum of a buffered entry is read through its packet:
    [PacketExt::header() { return packet->header(); }]. *)
Definition seqOf (h : Heap) (p : PacketPtr) : Z := seqNum (header (h p)).

(** Modelled from the spec: the search for the occupant "with minimal
    circular-greater position" that both ring buffers need.  The occupied
    slots are scanned, and the candidate replaces the best so far when the
    best is more recent. *)
Definition olderOf {A : Type} (key : A -> Z) (best cand : A) : A :=
  if moreRecentSeqNum (key best) (key cand) then cand else best.

Definition oldestOf {A : Type} (key : A -> Z) (l : list A) : option A :=
  match l with
  | [] => None
  | x :: l' => Some (fold_left (olderOf key) l' x)
  end.

(** ** SentBuffer *)

Module SentBuffer.

(** Modelled from the spec: "design default N = 256". *)
Definition capacity : Z := 256.

(** Modelled from the spec: the sent buffer class is not in the tree.  A
    ring of [capacity] slots, a packet with seqnum [s] living in slot
    [s mod capacity]; [nextSeqNum] is the allocator [store] draws from. *)
Record t : Type := mk {
  slots : gmap Z PacketExt;
  nextSeqNum : Z
}.

(** Modelled from the spec: the buffer of a new connection; the first
    packet is sent with seqnum 0. *)
Definition initial : t := {| slots := ∅; nextSeqNum := 0 |}.

Definition slotOf (s : Z) : Z := s mod capacity.

(** Modelled from the spec: "assigns seqNum = nextSeqNum++, stamps the
    packet's header (seqNum, ack, ackBits), writes to slot seqNum mod N,
    returns any prior occupant".  The entry is time-stamped with the
    current time. *)
Definition store (p : PacketPtr) (resend : N) (currentAck : AckField.t)
    (now : Z) (h : Heap) (b : t) : option PacketExt * Heap * t :=
  let s := nextSeqNum b in
  (slots b !! slotOf s,
   heapSet p (stampHeader s currentAck (h p)) h,
   {| slots := <[slotOf s := mkExt p resend now]> (slots b);
      nextSeqNum := uint16 (s + 1) |}).

(** Modelled from the spec: "slot s mod N occupied and its seqnum equals
    s". *)
Definition contains (h : Heap) (b : t) (s : Z) : bool :=
  match slots b !! slotOf s with
  | Some e => seqOf h (packet e) =? s
  | None => false
  end.

(** Modelled from the spec: "precondition contains(s); clears the slot
    and returns the entry".  [None] when the slot is empty. *)
Definition release (b : t) (s : Z) : option (PacketExt * t) :=
  match slots b !! slotOf s with
  | Some e => Some (e, {| slots := delete (slotOf s) (slots b);
                          nextSeqNum := nextSeqNum b |})
  | None => None
  end.

(** Modelled from the spec: [empty()], no slot is occupied. *)
Definition empty (b : t) : bool := bool_decide (slots b = ∅).

(** The occupants, in the order the scans visit them. *)
Definition entries (b : t) : list PacketExt := (map_to_list (slots b)).*2.

(** Modelled from the spec: the seqnum "with minimal circular-greater
    position" among the occupied slots (0 on an empty buffer, where the
    source must not call it). *)
Definition oldestSeqNum (h : Heap) (b : t) : Z :=
  match oldestOf (fun e => seqOf h (packet e)) (entries b) with
  | Some e => seqOf h (packet e)
  | None => 0
  end.

(** Modelled from the spec: the "smallest timestamp among occupied
    slots". *)
Definition oldestTime (b : t) : Z :=
  match entries b with
  | [] => 0
  | e :: l => fold_left Z.min (timestamp <$> l) (timestamp e)
  end.

End SentBuffer.

(** ** RecvBuffer *)

Module RecvBuffer.

(** Modelled from the spec: "M = 256". *)
Definition capacity : Z := 256.

(** Modelled from the spec: the receive buffer class is not in the tree.
    A ring of [capacity] slots keyed by the incoming seqnum. *)
Record t : Type := mk { slots : gmap Z PacketPtr }.

Definition initial : t := {| slots := ∅ |}.

Definition slotOf (s : Z) : Z := s mod capacity.

(** Modelled from the spec: "writes slot s mod M; returns prior occupant
    if any". *)
Definition insert (s : Z) (p : PacketPtr) (b : t) : option PacketPtr * t :=
  (slots b !! slotOf s, {| slots := <[slotOf s := p]> (slots b) |}).

(** Modelled from the spec: [empty()], no slot is occupied. *)
Definition empty (b : t) : bool := bool_decide (slots b = ∅).

(** Modelled from the spec: "pops the occupant with minimal
    circular-greater seqnum (oldest)". *)
Definition removeLast (h : Heap) (b : t) : option PacketPtr * t :=
  match oldestOf (fun kp : Z * PacketPtr => seqOf h kp.2)
                 (map_to_list (slots b)) with
  | Some kp => (Some kp.2, {| slots := delete kp.1 (slots b) |})
  | None => (None, b)
  end.

End RecvBuffer.

(** ** The environment of a connection *)

Inductive LogLevel : Type := LogTrace | LogDebug | LogWarning | LogError.

(** The methods of [ISocketStateObserver] (socket_state_observer.h); a
    connection argument is identified by its peer. *)
Inductive Notification : Type :=
| onConnect (conn : endpoint)
| onPeerDisconnect (conn : endpoint)
| onBadPacketSize (peer : endpoint) (size : Z)
| onError (conn : endpoint) (error : Z)
| onSocketShutdown.

Inductive Event : Type :=
| EvLog (level : LogLevel) (message : string)
| EvSendTo (peer : endpoint) (p : PacketPtr) (datagram : Packet)
      (* m_socket.rawSocket().async_send_to *)
| EvNotify (n : Notification)          (* m_socket.notifyObservers *)
| EvDispatch (conn : endpoint) (p : PacketPtr)
      (* dispatcher.dispatchPacket *)
| EvResend (p : PacketPtr) (resend : N).
      (* marks a resend: the packet and the budget it is resent with *)

(** A job posted to the io_service by [asyncSend]:
    [[=]{ doSend(packet, resendLimit); }]. *)
Record Task : Type := mkTask {
  t_conn : endpoint;
  t_packet : PacketPtr;
  t_resendLimit : N
}.

Record Env : Type := mkEnv {
  heap : Heap;
  clock : Z;                 (* system_clock::now(), in milliseconds *)
  posted : list Task;        (* the io_service queue, oldest first *)
  trace : list Event         (* effects so far, oldest first *)
}.

Definition setHeap (h : Heap) (e : Env) : Env :=
  {| heap := h; clock := clock e; posted := posted e; trace := trace e |}.

Definition post (t : Task) (e : Env) : Env :=
  {| heap := heap e; clock := clock e; posted := posted e ++ [t];
     trace := trace e |}.

Definition emit (ev : Event) (e : Env) : Env :=
  {| heap := heap e; clock := clock e; posted := posted e;
     trace := trace e ++ [ev] |}.

Definition log (l : LogLevel) (msg : string) : Env -> Env := emit (EvLog l msg).

Definition notifyObservers (n : Notification) : Env -> Env := emit (EvNotify n).

(** ** Connection *)

(** The members the methods of connection.cpp use.  The counters are
    64-bit, the smoothed round trip time 32-bit (see [updateRTT]). *)
Record Connection : Type := mkConnection {
  m_peer : endpoint;
  m_isDead : bool;
  m_averageRTT : Z;
  m_recvCount : Z;
  m_sentCount : Z;
  m_ackdCount : Z;
  m_recvTime : Z;
  m_ack : AckField.t;
  m_sentPackets : SentBuffer.t;
  m_recvPackets : RecvBuffer.t
}.

(** [Connection::Connection]. *)
Definition newConnection (peer : endpoint) : Connection :=
  {| m_peer := peer; m_isDead := false; m_averageRTT := 50;
     m_recvCount := 0; m_sentCount := 0; m_ackdCount := 0;
     m_recvTime := 0; m_ack := AckField.initial;
     m_sentPackets := SentBuffer.initial;
     m_recvPackets := RecvBuffer.initial |}.

Definition isDead (c : Connection) : bool := m_isDead c.

Definition markDead (value : bool) (c : Connection) : Connection :=
  {| m_peer := m_peer c; m_isDead := value; m_averageRTT := m_averageRTT c;
     m_recvCount := m_recvCount c; m_sentCount := m_sentCount c;
     m_ackdCount := m_ackdCount c; m_recvTime := m_recvTime c;
     m_ack := m_ack c; m_sentPackets := m_sentPackets c;
     m_recvPackets := m_recvPackets c |}.

Definition setSentPackets (b : SentBuffer.t) (c : Connection) : Connection :=
  {| m_peer := m_peer c; m_isDead := m_isDead c;
     m_averageRTT := m_averageRTT c;
     m_recvCount := m_recvCount c; m_sentCount := m_sentCount c;
     m_ackdCount := m_ackdCount c; m_recvTime := m_recvTime c;
     m_ack := m_ack c; m_sentPackets := b;
     m_recvPackets := m_recvPackets c |}.

Definition setRecvPackets (b : RecvBuffer.t) (c : Connection) : Connection :=
  {| m_peer := m_peer c; m_isDead := m_isDead c;
     m_averageRTT := m_averageRTT c;
     m_recvCount := m_recvCount c; m_sentCount := m_sentCount c;
     m_ackdCount := m_ackdCount c; m_recvTime := m_recvTime c;
     m_ack := m_ack c; m_sentPackets := m_sentPackets c;
     m_recvPackets := b |}.

Definition incSentCount (c : Connection) : Connection :=
  {| m_peer := m_peer c; m_isDead := m_isDead c;
     m_averageRTT := m_averageRTT c;
     m_recvCount := m_recvCount c; m_sentCount := uint64 (m_sentCount c + 1);
     m_ackdCount := m_ackdCount c; m_recvTime := m_recvTime c;
     m_ack := m_ack c; m_sentPackets := m_sentPackets c;
     m_recvPackets := m_recvPackets c |}.

(** A connection together with the environment it runs in. *)
Definition St : Type := (Connection * Env)%type.

(** [Connection::asyncSend]: posts the job; nothing else. *)
Definition asyncSend (p : PacketPtr) (resend : N) (st : St) : St :=
  let '(c, env) := st in
  (c, post {| t_conn := m_peer c; t_packet := p; t_resendLimit := resend |} env).

(** [Connection::doSend]. *)
Definition doSend (p : PacketPtr) (resend : N) (st : St) : St :=
  let '(c, env) := st in
  (* store packet in the send buffer, get previous value *)
  let '(old, h1, b1) :=
    SentBuffer.store p resend (m_ack c) (clock env) (heap env)
                     (m_sentPackets c) in
  let st1 : St := (setSentPackets b1 c, setHeap h1 env) in
  let '(c2, env2) :=
    match old with
    | Some o =>
        let st1' : St :=
          (st1.1, log LogWarning "send buffer is full on connection with" st1.2) in
        if (0 <? resendLimit o)%N
        then asyncSend (packet o) (resendLimit o - 1)
               (st1'.1, emit (EvResend (packet o) (resendLimit o - 1)) st1'.2)
        else st1'
    | None => st1
    end in
  let env3 := emit (EvSendTo (m_peer c2) p (heap env2 p)) env2 in
  let env4 := log LogDebug "sending packet" env3 in
  (incSentCount c2, env4).

(** [Connection::removeUndeliveredPacket]. *)
Definition removeUndeliveredPacket (s : Z) (st : St) : St :=
  let '(c, env) := st in
  if SentBuffer.contains (heap env) (m_sentPackets c) s then
    match SentBuffer.release (m_sentPackets c) s with
    | Some (pExt, b') =>
        let c1 := setSentPackets b' c in
        if (0 <? resendLimit pExt)%N
        then doSend (packet pExt) (resendLimit pExt - 1)
               (c1, emit (EvResend (packet pExt) (resendLimit pExt - 1)) env)
        else (c1, env)
    | None => st
    end
  else st.

(** [Connection::handleSend]: the completion handler of [async_send_to];
    [error] is the value of the error code, 0 for success.  The seqnum is
    read from the packet when the handler runs. *)
Definition handleSend (p : PacketPtr) (error : Z) (st : St) : St :=
  let '(c, env) := st in
  let env1 := log LogTrace "[+] Connection::handleSend" env in
  let '(c2, env2) :=
    if bool_decide (error <> 0)
    then removeUndeliveredPacket (seqOf (heap env1) p)
           (c, notifyObservers (onError (m_peer c) error) env1)
    else (c, env1) in
  (c2, log LogTrace "[-] Connection::handleSend" env2).

(** The smoothing step of [confirmPacketDelivery]:
    [m_averageRTT = (9 * m_averageRTT + static_cast<size_t>(observedRTT.count())) / 10].
    Modelled from the spec: [m_averageRTT] is not declared in the
    connection.h of the tree; the data model gives "avgRTT: u32 ms".  The
    product is a 32-bit one, the sum and the quotient are [size_t] ones,
    and the assignment truncates. *)
Definition updateRTT (averageRTT observedRTT : Z) : Z :=
  uint32 (uint64 (uint32 (9 * averageRTT) + uint64 observedRTT) / 10).

(** [Connection::confirmPacketDelivery]. *)
Definition confirmPacketDelivery (s : Z) (st : St) : St :=
  let '(c, env) := st in
  if SentBuffer.contains (heap env) (m_sentPackets c) s then
    match SentBuffer.release (m_sentPackets c) s with
    | Some (pExt, b') =>
        let observedRTT := clock env - timestamp pExt in
        ({| m_peer := m_peer c; m_isDead := m_isDead c;
            m_averageRTT := updateRTT (m_averageRTT c) observedRTT;
            m_recvCount := m_recvCount c; m_sentCount := m_sentCount c;
            m_ackdCount := uint64 (m_ackdCount c + 1);
            m_recvTime := m_recvTime c; m_ack := m_ack c;
            m_sentPackets := b'; m_recvPackets := m_recvPackets c |},
         log LogDebug "acknowledged packet" env)
    | None => st
    end
  else st.

(** The loop of [processPeerAcks]; each iteration that removes a packet
    uses one unit of [fuel], and [None] is "out of fuel". *)
Fixpoint lossLoop (fuel : nat) (minSeqNum minTime : Z) (st : St) : option St :=
  if SentBuffer.empty (m_sentPackets st.1) then Some st
  else
    if moreRecentSeqNum minSeqNum
         (SentBuffer.oldestSeqNum (heap st.2) (m_sentPackets st.1))
       || (SentBuffer.oldestTime (m_sentPackets st.1) <? minTime)
    then
      match fuel with
      | O => None
      | S fuel' =>
          lossLoop fuel' minSeqNum minTime
            (removeUndeliveredPacket
               (SentBuffer.oldestSeqNum (heap st.2) (m_sentPackets st.1)) st)
      end
    else Some st.

(** [Connection::processPeerAcks]. *)
Definition processPeerAcks (fuel : nat) (peerAck : AckField.t) (st : St)
    : option St :=
  (* confirm acknowledged packets *)
  let st1 :=
    fold_left (fun st' s => confirmPacketDelivery s st')
              (AckField.forEachAckedSeqNum peerAck) st in
  (* consider oldest packet undelivered if its seqNum is less then
     peerAck - 256, or timestamp is more then two seconds away from
     current time *)
  let minTime := clock st1.2 - 2000 in
  let minSeqNum := uint16 (AckField.latestSeqNum peerAck - 256) in
  lossLoop fuel minSeqNum minTime st1.

(** [Connection::handleReceive].  [header] is a reference into the packet:
    each use reads the packet as it is at that point. *)
Definition handleReceive (fuel : nat) (p : PacketPtr) (st : St) : option St :=
  let '(c, env) := st in
  let env1 := log LogTrace "[+] Connection::handleReceive" env in
  let c1 :=
    {| m_peer := m_peer c; m_isDead := m_isDead c;
       m_averageRTT := m_averageRTT c;
       m_recvCount := uint64 (m_recvCount c + 1);
       m_sentCount := m_sentCount c; m_ackdCount := m_ackdCount c;
       m_recvTime := clock env1;
       (* remember received packet in my ack *)
       m_ack := AckField.updateForSeqNum (seqOf (heap env1) p) (m_ack c);
       m_sentPackets := m_sentPackets c;
       m_recvPackets := m_recvPackets c |} in
  (* confirm sent packets based on peer ack *)
  match processPeerAcks fuel (ack (header (heap env1 p))) (c1, env1) with
  | None => None
  | Some (c2, env2) =>
      let s := seqOf (heap env2) p in
      let '(old, rb) := RecvBuffer.insert s p (m_recvPackets c2) in
      let env3 :=
        match old with
        | Some o =>
            if seqOf (heap env2) o =? s
            then log LogDebug "received packet duplicate from" env2
            else log LogError
                   "recv buffer seems full, discarding old packet from" env2
        | None => env2
        end in
      Some (setRecvPackets rb c2, log LogTrace "[-] Connection::handleReceive" env3)
  end.

(** [Connection::dispatchReceivedPackets]: the loop, one unit of [fuel] per
    iteration. *)
Fixpoint dispatchReceivedPackets (fuel : nat) (st : St) : option St :=
  if RecvBuffer.empty (m_recvPackets st.1) then Some st
  else
    match fuel with
    | O => None
    | S fuel' =>
        let '(p, rb) := RecvBuffer.removeLast (heap st.2) (m_recvPackets st.1) in
        dispatchReceivedPackets fuel'
          (setRecvPackets rb st.1,
           match p with
           | Some q => emit (EvDispatch (m_peer st.1) q) st.2
           | None => st.2
           end)
    end.

(** ** Datagram framing and the socket's receive path *)

(** Modelled from the spec: the header is 12 bytes on the wire, a datagram
    at most 512. *)
Definition sizeofPacketHeader : Z := 12.
Definition maxPacketSize : Z := 512.

Definition byteVal (b : Byte.byte) : Z := Z.of_N (Byte.to_N b).

Definition littleEndian (bs : list Byte.byte) : Z :=
  fold_right (fun b acc => byteVal b + 256 * acc) 0 bs.

(** Modelled from the spec: packet decoding (core/packet.h) is not in the
    tree.  "fails if len(bytes) < sizeof(header) or len(bytes) > 512;
    otherwise copies payload"; the header is laid out as protocol (4
    bytes), seqNum (2), ack (2), ackBits (4), little-endian. *)
Definition decode (bytes : list Byte.byte) : option Packet :=
  let n := Z.of_nat (length bytes) in
  if (n <? sizeofPacketHeader) || (maxPacketSize <? n) then None
  else Some
    {| header :=
         {| protocol := littleEndian (take 4 bytes);
            seqNum := littleEndian (take 2 (drop 4 bytes));
            ack := {| AckField.latest := littleEndian (take 2 (drop 6 bytes));
                      AckField.bits := littleEndian (take 4 (drop 8 bytes)) |} |};
       payload := drop 12 bytes |}.

(** Modelled from the spec: the socket (core/smart_socket.h) is not in the
    tree.  It owns the registry of connections, the environment they share
    and the allocation of packets for inbound datagrams. *)
Record SmartSocket : Type := mkSocket {
  registry : gmap endpoint Connection;
  s_env : Env;
  s_nextPacket : PacketPtr
}.

(** Modelled from the spec: "atomic lookup-or-insert on the registry". *)
Definition getOrCreateConnection (peer : endpoint) (sock : SmartSocket)
    : Connection * SmartSocket :=
  match registry sock !! peer with
  | Some c => (c, sock)
  | None =>
      (newConnection peer,
       {| registry := <[peer := newConnection peer]> (registry sock);
          s_env := s_env sock; s_nextPacket := s_nextPacket sock |})
  end.

(** Modelled from the spec: one completion of the read loop, "either (a)
    frames-invalid -> onBadPacketSize; (b) valid -> registry
    lookup-or-create -> conn.handleReceive(packet)"; [onConnect] is emitted
    for an entry created here. *)
Definition handleReceiveFrom (fuel : nat) (bytes : list Byte.byte)
    (sender : endpoint) (sock : SmartSocket) : option SmartSocket :=
  match decode bytes with
  | None =>
      Some {| registry := registry sock;
              s_env := notifyObservers
                         (onBadPacketSize sender (Z.of_nat (length bytes)))
                         (s_env sock);
              s_nextPacket := s_nextPacket sock |}
  | Some pk =>
      let p := s_nextPacket sock in
      let created := bool_decide (registry sock !! sender = None) in
      let '(c, sock1) := getOrCreateConnection sender sock in
      let env1 := setHeap (heapSet p pk (heap (s_env sock1))) (s_env sock1) in
      let env2 := if created then notifyObservers (onConnect sender) env1
                  else env1 in
      match handleReceive fuel p (c, env2) with
      | None => None
      | Some (c', env') =>
          Some {| registry := <[sender := c']> (registry sock1);
                  s_env := env'; s_nextPacket := Pos.succ p |}
      end
  end.

(** ** A connection at work *)

(** What can happen to a connection: the application posts a send, the
    io_service runs the next posted job, an [async_send_to] completes, the
    socket hands over a received packet, the application drains the
    receive buffer, the socket marks the connection dead or alive, time
    passes. *)
Inductive Action : Type :=
| ActAsyncSend (p : PacketPtr) (resend : N)
| ActRunPosted
| ActSendComplete (p : PacketPtr) (error : Z)
| ActReceive (fuel : nat) (p : PacketPtr)
| ActDispatch (fuel : nat)
| ActMarkDead (value : bool)
| ActTick (dt : Z).

Definition step (a : Action) (st : St) : option St :=
  match a with
  | ActAsyncSend p r => Some (asyncSend p r st)
  | ActRunPosted =>
      match posted st.2 with
      | [] => Some st
      | t :: rest =>
          Some (doSend (t_packet t) (t_resendLimit t)
                  (st.1, {| heap := heap st.2; clock := clock st.2;
                            posted := rest; trace := trace st.2 |}))
      end
  | ActSendComplete p error => Some (handleSend p error st)
  | ActReceive fuel p => handleReceive fuel p st
  | ActDispatch fuel => dispatchReceivedPackets fuel st
  | ActMarkDead v => Some (markDead v st.1, st.2)
  | ActTick dt =>
      Some (st.1, {| heap := heap st.2; clock := clock st.2 + dt;
                     posted := posted st.2; trace := trace st.2 |})
  end.

Fixpoint run (acts : list Action) (st : St) : option St :=
  match acts with
  | [] => Some st
  | a :: acts' =>
      match step a st with
      | Some st' => run acts' st'
      | None => None
      end
  end.

(** ** Measures and invariants used in the statements *)

(** Resends of [p] marked in a trace. *)
Definition isResendOf (p : PacketPtr) (ev : Event) : bool :=
  match ev with
  | EvResend q _ => bool_decide (q = p)
  | _ => false
  end.

Definition resendCount (p : PacketPtr) (tr : list Event) : nat :=
  length (filter (fun ev => isResendOf p ev = true) tr).

(** The resend budget [p] still holds: in the sent buffer and in the jobs
    posted for it. *)
Definition budgetOf (p q : PacketPtr) (resend : N) : nat :=
  if decide (q = p) then N.to_nat resend else 0%nat.

Definition budgetInBuffer (p : PacketPtr) (b : SentBuffer.t) : nat :=
  sum_list_with (fun e => budgetOf p (packet e) (resendLimit e))
                (SentBuffer.entries b).

Definition budgetInQueue (p : PacketPtr) (q : list Task) : nat :=
  sum_list_with (fun t => budgetOf p (t_packet t) (t_resendLimit t)) q.

Definition budget (p : PacketPtr) (st : St) : nat :=
  (budgetInBuffer p (m_sentPackets st.1) + budgetInQueue p (posted st.2))%nat.

(** Resends of [p] so far plus the budget it still holds: no step of the
    connection other than a new [asyncSend] of [p] by the application
    makes this grow. *)
Definition resendPotential (p : PacketPtr) (st : St) : nat :=
  (resendCount p (trace st.2) + budget p st)%nat.

Definition isAsyncSendOf (p : PacketPtr) (a : Action) : bool :=
  match a with
  | ActAsyncSend q _ => bool_decide (q = p)
  | _ => false
  end.

(** What loss detection can still do with a sent buffer: every occupant
    can be removed once and resent [resendLimit] times. *)
Definition attempts (b : SentBuffer.t) : nat :=
  sum_list_with (fun e => S (N.to_nat (resendLimit e))) (SentBuffer.entries b).

(** How often [p] is held by the connection: in the sent buffer and in the
    jobs posted for it. *)
Definition occurrences (p : PacketPtr) (st : St) : nat :=
  (sum_list_with (fun e => if decide (packet e = p) then 1 else 0)%nat
                 (SentBuffer.entries (m_sentPackets st.1))
   + sum_list_with (fun t => if decide (t_packet t = p) then 1 else 0)%nat
                   (posted st.2))%nat.

(** The packets the dispatcher was called with. *)
Definition dispatchedIn (tr : list Event) : list PacketPtr :=
  omap (fun ev => match ev with EvDispatch _ p => Some p | _ => None end) tr.

(** The datagrams handed to the UDP socket. *)
Definition transmittedIn (tr : list Event) : list PacketPtr :=
  omap (fun ev => match ev with EvSendTo _ p _ => Some p | _ => None end) tr.

(** The sent buffer of a connection that allocates seqnums in order: every
    occupant sits in the slot of its seqnum, and its seqnum is one of the
    last [capacity] allocated. *)
Definition wf_sent (h : Heap) (b : SentBuffer.t) : Prop :=
  0 <= SentBuffer.nextSeqNum b < 2 ^ 16 /\
  forall k e, SentBuffer.slots b !! k = Some e ->
    0 <= seqOf h (packet e) < 2 ^ 16 /\
    k = SentBuffer.slotOf (seqOf h (packet e)) /\
    uint16 (SentBuffer.nextSeqNum b - 1 - seqOf h (packet e))
      < SentBuffer.capacity.

(** [wf_sent] as a check that runs. *)
Definition wf_sentb (h : Heap) (b : SentBuffer.t) : bool :=
  (0 <=? SentBuffer.nextSeqNum b) && (SentBuffer.nextSeqNum b <? 2 ^ 16) &&
  forallb
    (fun ke : Z * PacketExt =>
       (0 <=? seqOf h (packet ke.2)) && (seqOf h (packet ke.2) <? 2 ^ 16) &&
       (ke.1 =? SentBuffer.slotOf (seqOf h (packet ke.2))) &&
       (uint16 (SentBuffer.nextSeqNum b - 1 - seqOf h (packet ke.2))
        <? SentBuffer.capacity))
    (map_to_list (SentBuffer.slots b)).

(** The invariant of a connection: the sent buffer is well formed and no
    packet is held twice. *)
Definition connInv (st : St) : Prop :=
  wf_sent (heap st.2) (m_sentPackets st.1) /\
  forall p, (occurrences p st <= 1)%nat.

(** [p] is not one of the packets in the sent buffer: no resend will
    stamp its header. *)
Definition notHeld (p : PacketPtr) (st : St) : Prop :=
  forall k e, SentBuffer.slots (m_sentPackets st.1) !! k = Some e ->
              packet e <> p.

(** The application hands [asyncSend] packets the connection does not
    hold. *)
Definition freshAction (a : Action) (st : St) : Prop :=
  match a with
  | ActAsyncSend p _ => occurrences p st = 0%nat
  | _ => True
  end.

Fixpoint freshRun (acts : list Action) (st : St) : Prop :=
  match acts with
  | [] => True
  | a :: acts' =>
      freshAction a st /\
      match step a st with
      | Some st' => freshRun acts' st'
      | None => True
      end
  end.

(** Every occupant of the receive buffer sits in the slot of its seqnum. *)
Definition wf_recv (h : Heap) (b : RecvBuffer.t) : Prop :=
  forall k p, RecvBuffer.slots b !! k = Some p ->
    0 <= seqOf h p < 2 ^ 16 /\ k = RecvBuffer.slotOf (seqOf h p).

(** All buffered seqnums lie within half the circle from [base]. *)
Definition recvWithin (base : Z) (h : Heap) (b : RecvBuffer.t) : Prop :=
  forall k p, RecvBuffer.slots b !! k = Some p ->
    uint16 (seqOf h p - base) < 2 ^ 15.

(** ** Sample states *)

Definition samplePacket (s : Z) (bytes : list Byte.byte) : Packet :=
  {| header := {| protocol := 1; seqNum := s; ack := AckField.initial |};
     payload := bytes |}.

Definition sampleHeap : Heap := fun _ => samplePacket 0 [].

Definition sampleEnv : Env :=
  {| heap := sampleHeap; clock := 1000; posted := []; trace := [] |}.

Definition samplePeer : endpoint := (2130706433, 13999).

(** A fresh connection. *)
Definition freshSt : St := (newConnection samplePeer, sampleEnv).

(** The connection after sending packets 1 and 2 (seqnums 0 and 1). *)
Definition sentTwoSt : St := doSend 2%positive 0 (doSend 1%positive 0 freshSt).

(** The connection after sending packets 1 to 5 (seqnums 0 to 4). *)
Definition sentFiveSt : St :=
  doSend 5%positive 0 (doSend 4%positive 0 (doSend 3%positive 0 sentTwoSt)).

(** Packet 1 sent with one resend, packet 2 with none, and three seconds
    gone by without an ack. *)
Definition staleSt : St :=
  let st := doSend 2%positive 0 (doSend 1%positive 1 freshSt) in
  (st.1, {| heap := heap st.2; clock := clock st.2 + 3000;
            posted := posted st.2; trace := trace st.2 |}).

(** Packet 1 sent with a resend budget of 2, and what follows: three
    failed sends, three seconds of silence, a packet from the peer. *)
Definition resendActs : list Action :=
  [ActSendComplete 1%positive 5; ActSendComplete 1%positive 5;
   ActSendComplete 1%positive 5; ActTick 3000; ActReceive 4 9%positive].

(** Two datagrams with seqnum 7 and different payloads, packets 1 and 2, on
    a fresh connection. *)
Definition duplicateSt : St :=
  (newConnection samplePeer,
   {| heap := heapSet 1%positive (samplePacket 7 [Byte.x01])
                (heapSet 2%positive (samplePacket 7 [Byte.x02]) sampleHeap);
      clock := 1000; posted := []; trace := [] |}).

(** Three datagrams whose seqnums are a third of the circle apart. *)
Definition spreadSt : St :=
  (newConnection samplePeer,
   {| heap := heapSet 1%positive (samplePacket 0 [])
                (heapSet 2%positive (samplePacket 21846 [])
                   (heapSet 3%positive (samplePacket 43692 []) sampleHeap));
      clock := 1000; posted := []; trace := [] |}).

(** [duplicateSt] after packets 1, 2 and 3 (seqnums 7, 7 and 0) arrived, in
    that order. *)
Definition receivedAllSt : St :=
  default duplicateSt
    (run (ActReceive 0 <$> [1%positive; 2%positive; 3%positive]) duplicateSt).

(** A connection that has received seqnum 100 and nothing else, with the
    peer's packet 1 (seqnum 101) in hand; and the same after
    [handleReceive] of that packet. *)
Definition ackingSt : St :=
  ({| m_peer := samplePeer; m_isDead := false; m_averageRTT := 50;
      m_recvCount := 1; m_sentCount := 0; m_ackdCount := 0;
      m_recvTime := 900;
      m_ack := {| AckField.latest := 100; AckField.bits := 0 |};
      m_sentPackets := SentBuffer.initial;
      m_recvPackets := RecvBuffer.initial |},
   {| heap := heapSet 1%positive (samplePacket 101 []) sampleHeap;
      clock := 1000; posted := []; trace := [] |}).

Definition ackingReceivedSt : St :=
  default ackingSt (handleReceive 0 1%positive ackingSt).

(** [duplicateSt] with a third datagram, packet 3, whose seqnum 263 shares
    slot 7 with seqnum 7. *)
Definition displacedSt : St :=
  (duplicateSt.1,
   {| heap := heapSet 3%positive (samplePacket 263 []) (heap duplicateSt.2);
      clock := clock duplicateSt.2; posted := posted duplicateSt.2;
      trace := trace duplicateSt.2 |}).

(** [wf_recv] as a check that runs. *)
Definition wf_recvb (h : Heap) (b : RecvBuffer.t) : bool :=
  forallb
    (fun kp : Z * PacketPtr =>
       (0 <=? seqOf h kp.2) && (seqOf h kp.2 <? 2 ^ 16) &&
       (kp.1 =? RecvBuffer.slotOf (seqOf h kp.2)))
    (map_to_list (RecvBuffer.slots b)).

(** ** Further observations of a run *)

(** The observer calls made, and the resends marked. *)
Definition notifiedIn (tr : list Event) : list Notification :=
  omap (fun ev => match ev with EvNotify n => Some n | _ => None end) tr.

Definition resendsIn (tr : list Event) : list (PacketPtr * N) :=
  omap (fun ev => match ev with EvResend p r => Some (p, r) | _ => None end) tr.

(** What the methods of the send side ([doSend], [removeUndeliveredPacket],
    [confirmPacketDelivery], the loop of [processPeerAcks]) have in common:
    they leave the receive side, the liveness flag, the peer and the clock
    alone, call neither observers nor dispatcher, and increment
    [m_sentCount] once for each datagram they hand to the socket. *)
Definition sendSide (st st' : St) : Prop :=
  m_peer st'.1 = m_peer st.1 /\
  m_isDead st'.1 = m_isDead st.1 /\
  m_recvCount st'.1 = m_recvCount st.1 /\
  m_recvTime st'.1 = m_recvTime st.1 /\
  m_ack st'.1 = m_ack st.1 /\
  m_recvPackets st'.1 = m_recvPackets st.1 /\
  clock st'.2 = clock st.2 /\
  notifiedIn (trace st'.2) = notifiedIn (trace st.2) /\
  dispatchedIn (trace st'.2) = dispatchedIn (trace st.2) /\
  exists sent : list PacketPtr,
    transmittedIn (trace st'.2) = transmittedIn (trace st.2) ++ sent /\
    m_sentCount st'.1
    = Nat.iter (length sent) (fun n => uint64 (n + 1)) (m_sentCount st.1).

(** The datagrams handed to the socket: peer, packet and the packet as it
    was then. *)
Definition datagramsIn (tr : list Event) : list (endpoint * PacketPtr * Packet) :=
  omap (fun ev => match ev with
                  | EvSendTo peer p pk => Some (peer, p, pk)
                  | _ => None
                  end) tr.

(** The [onError] calls a list of actions leads to: one for each send that
    completes with an error. *)
Definition failedSends (peer : endpoint) (acts : list Action) : list Notification :=
  omap (fun a => match a with
                 | ActSendComplete _ error =>
                     if bool_decide (error <> 0) then Some (onError peer error)
                     else None
                 | _ => None
                 end) acts.

Definition isReceive (a : Action) : bool :=
  match a with ActReceive _ _ => true | _ => false end.

Definition isMarkDead (a : Action) : bool :=
  match a with ActMarkDead _ => true | _ => false end.

Definition isAsyncSend (a : Action) : bool :=
  match a with ActAsyncSend _ _ => true | _ => false end.

(** The books of the send side.  [sendBalance]: datagrams handed to the
    socket plus jobs waiting, less the resends marked.  [books k st st']:
    from [st] to [st'] the balance moved by [k], and [m_ackdCount] went up
    [acked] times, each time for an occupant that left the sent buffer,
    while the buffer gained at most one occupant for each datagram handed
    to the socket. *)
Definition sendBalance (st : St) : Z :=
  Z.of_nat (length (transmittedIn (trace st.2)))
  + Z.of_nat (length (posted st.2))
  - Z.of_nat (length (resendsIn (trace st.2))).

Definition books (k : Z) (st st' : St) : Prop :=
  sendBalance st' = sendBalance st + k /\
  exists acked : nat,
    m_ackdCount st'.1
    = Nat.iter acked (fun n => uint64 (n + 1)) (m_ackdCount st.1) /\
    (size (SentBuffer.slots (m_sentPackets st'.1)) + acked
     + length (transmittedIn (trace st.2))
     <= size (SentBuffer.slots (m_sentPackets st.1))
        + length (transmittedIn (trace st'.2)))%nat.

(** A peer's packet 9, with seqnum 3 and no acks, in hand when the
    connection of [staleSt] receives it. *)
Definition staleReceiveSt : St :=
  (staleSt.1,
   {| heap := heapSet 9%positive (samplePacket 3 []) (heap staleSt.2);
      clock := clock staleSt.2; posted := posted staleSt.2;
      trace := trace staleSt.2 |}).

(** A session of a fresh connection: packet 1 sent with one resend and
    packet 2 with none, the send of packet 1 fails, and the peer's packet 9
    (seqnum 0) acknowledges seqnums 2 and 1. *)
Definition sessionSt : St :=
  (newConnection samplePeer,
   {| heap := heapSet 9%positive
                {| header := {| protocol := 1; seqNum := 0;
                                ack := {| AckField.latest := 2;
                                          AckField.bits := 1 |} |};
                   payload := [] |} sampleHeap;
      clock := 1000; posted := []; trace := [] |}).

Definition sessionActs : list Action :=
  [ActAsyncSend 1%positive 1; ActAsyncSend 2%positive 0;
   ActRunPosted; ActRunPosted;
   ActSendComplete 1%positive 5; ActSendComplete 2%positive 0;
   ActTick 100; ActReceive 4 9%positive; ActDispatch 4; ActMarkDead true].

Definition sessionEnd : St := default sessionSt (run sessionActs sessionSt).

(** [freshRun] as a check that runs. *)
Definition freshActionb (a : Action) (st : St) : bool :=
  match a with
  | ActAsyncSend p _ => Nat.eqb (occurrences p st) 0
  | _ => true
  end.

Fixpoint freshRunb (acts : list Action) (st : St) : bool :=
  match acts with
  | [] => true
  | a :: acts' =>
      freshActionb a st &&
      match step a st with
      | Some st' => freshRunb acts' st'
      | None => true
      end
  end.

(** * Properties *)

(** ** Fixed-width integers and circular comparison *)

Lemma uint32_idem z : uint32 (uint32 z) = uint32 z.
Proof. unfold uint32. apply Z.mod_mod. lia. Qed.

Lemma uint32_testbit z i :
  Z.testbit (uint32 z) i = (i <? 32) && Z.testbit z i.
Proof.
  unfold uint32. destruct (Z.ltb_spec i 32) as [Hlt|Hge]; simpl.
  - destruct (Z.lt_ge_cases i 0) as [Hneg|Hpos].
    + now rewrite !Z.testbit_neg_r.
    + apply Z.mod_pow2_bits_low. lia.
  - apply Z.mod_pow2_bits_high. lia.
Qed.

Lemma moreRecentSeqNum_irrefl s : moreRecentSeqNum s s = false.
Proof.
  unfold moreRecentSeqNum. rewrite Z.eqb_refl. simpl. apply andb_false_r.
Qed.

(** ** AckField *)

Lemma setBit_idem b i :
  AckField.setBit (AckField.setBit b i) i = AckField.setBit b i.
Proof.
  unfold AckField.setBit. apply Z.bits_inj'. intros n _.
  rewrite !uint32_testbit, !Z.lor_spec, !uint32_testbit, !Z.lor_spec.
  destruct (n <? 32), (Z.testbit b n), (Z.testbit (Z.shiftl 1 i) n); reflexivity.
Qed.

Lemma setBit_no_bit b : AckField.setBit (uint32 b) (-1) = uint32 b.
Proof.
  unfold AckField.setBit. change (Z.shiftl 1 (-1)) with 0.
  rewrite Z.lor_0_r. apply uint32_idem.
Qed.

(** C6.  [AckField::updateForSeqNum] is idempotent: feeding the same seqnum
    twice in a row leaves [(latest, bits)] as after the first time, for
    every ack field and every seqnum. *)
Theorem updateForSeqNum_idempotent (s : Z) (a : AckField.t) :
  AckField.updateForSeqNum s (AckField.updateForSeqNum s a)
  = AckField.updateForSeqNum s a.
Proof.
  destruct a as [l b].
  destruct (moreRecentSeqNum s l) eqn:Hrec.
  - (* s became the latest: the second call sees distance 0 *)
    assert (Hfirst : exists b', AckField.updateForSeqNum s (AckField.mk l b)
                                = AckField.mk s (uint32 b')).
    { unfold AckField.updateForSeqNum. simpl. rewrite Hrec.
      destruct (uint16 (s - l) <=? 32); eauto. }
    destruct Hfirst as [b' ->].
    unfold AckField.updateForSeqNum. simpl.
    rewrite moreRecentSeqNum_irrefl, Z.sub_diag.
    change (uint16 0 <=? 32) with true. change (uint16 0 - 1) with (-1).
    cbv iota. f_equal. apply setBit_no_bit.
  - unfold AckField.updateForSeqNum. simpl. rewrite Hrec.
    destruct (uint16 (l - s) <=? 32) eqn:Hd; simpl; rewrite Hrec, Hd.
    + f_equal. apply setBit_idem.
    + reflexivity.
Qed.

(** ** Round trip time smoothing *)

Ltac euclid :=
  unfold uint16, uint32, uint64, SentBuffer.slotOf, SentBuffer.capacity,
    RecvBuffer.slotOf, RecvBuffer.capacity in *;
  change (2 ^ 15) with 32768 in *; change (2 ^ 16) with 65536 in *;
  change (2 ^ 32) with 4294967296 in *;
  change (2 ^ 64) with 18446744073709551616 in *;
  Z.to_euclidean_division_equations; lia.

(** Without wrap-around the update is the plain integer mean. *)
Lemma updateRTT_exact a r :
  0 <= a -> 9 * a < 2 ^ 32 -> 0 <= r -> 9 * r < 2 ^ 32 ->
  updateRTT a r = (9 * a + r) / 10.
Proof. intros. unfold updateRTT. euclid. Qed.

Lemma updateRTT_between lo hi a r :
  0 <= lo -> 9 * hi < 2 ^ 32 ->
  lo <= a <= hi -> lo <= r <= hi ->
  lo <= updateRTT a r <= hi.
Proof.
  intros Hlo Hhi Ha Hr. rewrite updateRTT_exact by lia.
  change (2 ^ 32) with 4294967296 in *.
  Z.to_euclidean_division_equations. lia.
Qed.

Lemma fold_updateRTT_between lo hi observed : forall a,
  0 <= lo -> 9 * hi < 2 ^ 32 ->
  lo <= a <= hi ->
  Forall (fun r => lo <= r <= hi) observed ->
  lo <= fold_left updateRTT observed a <= hi.
Proof.
  induction observed as [|r rs IH]; intros a Hlo Hhi Ha Hall; simpl.
  - exact Ha.
  - inversion Hall as [|? ? Hr Hrs]; subst.
    apply IH; auto. apply updateRTT_between; auto.
Qed.

(** [confirmPacketDelivery] feeds [updateRTT] with the age of the entry it
    releases. *)
Lemma confirmPacketDelivery_averageRTT s c env e b' :
  SentBuffer.contains (heap env) (m_sentPackets c) s = true ->
  SentBuffer.release (m_sentPackets c) s = Some (e, b') ->
  m_averageRTT (confirmPacketDelivery s (c, env)).1
  = updateRTT (m_averageRTT c) (clock env - timestamp e).
Proof.
  intros Hc Hr. unfold confirmPacketDelivery. now rewrite Hc, Hr.
Qed.

(** C7 as stated fails: with every observation equal to 100 ms the first
    update takes the estimate from its initial 50 ms to 55 ms, outside
    [100, 100] by far more than a rounding step. *)
Lemma averageRTT_not_within_observed :
  Forall (fun r => 100 <= r <= 100) [100] /\
  fold_left updateRTT [100] (m_averageRTT (newConnection (0, 0))) = 55 /\
  ~ (100 - 1 <= fold_left updateRTT [100] (m_averageRTT (newConnection (0, 0)))
     <= 100 + 1).
Proof.
  split; [|split].
  - repeat constructor; lia.
  - reflexivity.
  - vm_compute. intros [H _]. apply H. reflexivity.
Qed.

(** The estimate does not even reach the observed interval later: fed 100 ms
    forever, it stops at 91 ms. *)
Lemma averageRTT_stalls_below n :
  fold_left updateRTT (repeat 100 n) (m_averageRTT (newConnection (0, 0))) <= 91.
Proof.
  assert (H : forall a, 0 <= a <= 91 -> fold_left updateRTT (repeat 100 n) a <= 91).
  { induction n as [|n IH]; intros a Ha; simpl; [lia|].
    apply IH. rewrite updateRTT_exact by lia.
    Z.to_euclidean_division_equations. lia. }
  apply H. simpl. lia.
Qed.

(** C7 (amended).  If every observed round trip time lies in [lo, hi], with
    [0 <= lo] and [hi] small enough for the 32-bit product not to wrap, then
    after any number of updates the estimate lies between [min lo 50] and
    [max hi 50]: the initial 50 ms counts as one more bound. *)
Theorem averageRTT_bounded (peer : endpoint) (lo hi : Z) (observed : list Z) :
  0 <= lo -> 9 * hi < 2 ^ 32 ->
  Forall (fun r => lo <= r <= hi) observed ->
  Z.min lo 50 <= fold_left updateRTT observed (m_averageRTT (newConnection peer))
              <= Z.max hi 50.
Proof.
  intros Hlo Hhi Hall. simpl.
  apply fold_updateRTT_between.
  - lia.
  - change (2 ^ 32) with 4294967296 in *. lia.
  - lia.
  - eapply Forall_impl; [exact Hall|]. simpl. intros r Hr. lia.
Qed.

Lemma averageRTT_bounded_witness :
  Z.min 20 50 <= fold_left updateRTT [20; 80; 35] (m_averageRTT (newConnection (0, 0)))
              <= Z.max 80 50.
Proof.
  apply (averageRTT_bounded (0, 0) 20 80 [20; 80; 35]).
  - lia.
  - reflexivity.
  - repeat constructor; lia.
Defined.

(** ** Framing *)

Lemma decode_bad_size bytes :
  Z.of_nat (length bytes) < sizeofPacketHeader \/
  maxPacketSize < Z.of_nat (length bytes) ->
  decode bytes = None.
Proof.
  intros Hlen. unfold decode.
  destruct (Z.ltb_spec (Z.of_nat (length bytes)) sizeofPacketHeader);
    destruct (Z.ltb_spec maxPacketSize (Z.of_nat (length bytes)));
    simpl; try reflexivity; lia.
Qed.

Lemma decode_good_size bytes :
  sizeofPacketHeader <= Z.of_nat (length bytes) <= maxPacketSize ->
  exists pk, decode bytes = Some pk /\ payload pk = drop 12 bytes.
Proof.
  intros Hlen. unfold decode.
  destruct (Z.ltb_spec (Z.of_nat (length bytes)) sizeofPacketHeader);
    destruct (Z.ltb_spec maxPacketSize (Z.of_nat (length bytes)));
    simpl; try lia.
  eexists. split; reflexivity.
Qed.

(** C8.  A datagram shorter than the 12-byte header or longer than 512
    bytes is rejected: the observers get [onBadPacketSize] with the sender
    and the length, and the registry, the packets, the job queue and the
    clock stay as they were.  A datagram of 12 to 512 bytes passes framing
    validation: it decodes to a packet whose payload is what follows the
    header, and goes on to [handleReceive]. *)
Theorem framing_validation (fuel : nat) (bytes : list Byte.byte)
    (sender : endpoint) (sock : SmartSocket) :
  (Z.of_nat (length bytes) < 12 \/ 512 < Z.of_nat (length bytes) ->
   exists sock',
     handleReceiveFrom fuel bytes sender sock = Some sock' /\
     registry sock' = registry sock /\
     heap (s_env sock') = heap (s_env sock) /\
     posted (s_env sock') = posted (s_env sock) /\
     clock (s_env sock') = clock (s_env sock) /\
     trace (s_env sock')
     = trace (s_env sock)
       ++ [EvNotify (onBadPacketSize sender (Z.of_nat (length bytes)))]) /\
  (12 <= Z.of_nat (length bytes) <= 512 ->
   exists pk,
     decode bytes = Some pk /\ payload pk = drop 12 bytes /\
     handleReceiveFrom fuel bytes sender sock
     = let p := s_nextPacket sock in
       let created := bool_decide (registry sock !! sender = None) in
       let '(c, sock1) := getOrCreateConnection sender sock in
       let env1 := setHeap (heapSet p pk (heap (s_env sock1))) (s_env sock1) in
       let env2 := if created then notifyObservers (onConnect sender) env1
                   else env1 in
       match handleReceive fuel p (c, env2) with
       | None => None
       | Some (c', env') =>
           Some {| registry := <[sender := c']> (registry sock1);
                   s_env := env'; s_nextPacket := Pos.succ p |}
       end).
Proof.
  split.
  - intros Hlen. unfold handleReceiveFrom.
    rewrite (decode_bad_size bytes Hlen).
    eexists. split; [reflexivity|]. simpl. repeat split; reflexivity.
  - intros Hlen. destruct (decode_good_size bytes Hlen) as (pk & Hdec & Hpay).
    exists pk. repeat split; auto.
    unfold handleReceiveFrom. rewrite Hdec. reflexivity.
Qed.

Lemma framing_validation_witness :
  (exists sock',
     handleReceiveFrom 0 (repeat Byte.x00 11) samplePeer
       (mkSocket ∅ sampleEnv 1%positive)
     = Some sock' /\
     trace (s_env sock') = [EvNotify (onBadPacketSize samplePeer 11)]) /\
  (exists pk, decode (repeat Byte.x00 12) = Some pk /\ payload pk = []).
Proof.
  pose proof (framing_validation 0 (repeat Byte.x00 11) samplePeer
    (mkSocket ∅ sampleEnv 1%positive)) as [Hbad _].
  pose proof (framing_validation 0 (repeat Byte.x00 12) samplePeer
    (mkSocket ∅ sampleEnv 1%positive)) as [_ Hgood].
  split.
  - destruct Hbad as (sock' & Hrun & _ & _ & _ & _ & Htr); [left; simpl; lia|].
    exists sock'. split; [exact Hrun | exact Htr].
  - destruct Hgood as (pk & Hdec & Hpay & _); [simpl; lia|].
    exists pk. split; [exact Hdec | exact Hpay].
Defined.

(** ** Guards around [release] *)

Lemma contains_release h b s :
  SentBuffer.contains h b s = true ->
  exists e, SentBuffer.slots b !! SentBuffer.slotOf s = Some e /\
            seqOf h (packet e) = s /\
            SentBuffer.release b s
            = Some (e, {| SentBuffer.slots :=
                            delete (SentBuffer.slotOf s) (SentBuffer.slots b);
                          SentBuffer.nextSeqNum := SentBuffer.nextSeqNum b |}).
Proof.
  unfold SentBuffer.contains, SentBuffer.release.
  destruct (SentBuffer.slots b !! SentBuffer.slotOf s) as [e|]; [|discriminate].
  intros Heq. apply Z.eqb_eq in Heq. eauto.
Qed.

(** C9.  For a seqnum that the sent buffer does not hold,
    [removeUndeliveredPacket] and [confirmPacketDelivery] return the state
    they were given: buffers, [m_averageRTT], [m_ackdCount], packets, queue
    and trace.  Both call [release] only where [contains] holds, and there
    [release] finds its entry. *)
Theorem absent_seqnum_is_noop (s : Z) (st : St) :
  SentBuffer.contains (heap st.2) (m_sentPackets st.1) s = false ->
  removeUndeliveredPacket s st = st /\
  confirmPacketDelivery s st = st /\
  forall s', SentBuffer.contains (heap st.2) (m_sentPackets st.1) s' = true ->
             is_Some (SentBuffer.release (m_sentPackets st.1) s').
Proof.
  destruct st as [c env]. simpl. intros Habsent. split; [|split].
  - unfold removeUndeliveredPacket. now rewrite Habsent.
  - unfold confirmPacketDelivery. now rewrite Habsent.
  - intros s' Hc. destruct (contains_release _ _ _ Hc) as (e & _ & _ & ->).
    eauto.
Qed.

Lemma absent_seqnum_is_noop_witness :
  removeUndeliveredPacket 5 sentTwoSt = sentTwoSt /\
  confirmPacketDelivery 5 sentTwoSt = sentTwoSt /\
  forall s', SentBuffer.contains (heap sentTwoSt.2) (m_sentPackets sentTwoSt.1) s'
             = true ->
             is_Some (SentBuffer.release (m_sentPackets sentTwoSt.1) s').
Proof. apply (absent_seqnum_is_noop 5 sentTwoSt). vm_compute. reflexivity. Defined.

(** ** Sending on a dead connection *)

(** C4 as stated fails: [asyncSend] on a connection marked dead posts its
    job like on any other, and once the io_service runs the job the packet
    is in the sent buffer, a seqnum is used up, [m_sentCount] is 1 and the
    datagram has gone to the socket. *)
Lemma asyncSend_on_dead_connection_sends :
  exists c env,
    run [ActMarkDead true; ActAsyncSend 1%positive 0; ActRunPosted] freshSt
    = Some (c, env) /\
    isDead c = true /\
    m_sentCount c = 1 /\
    SentBuffer.nextSeqNum (m_sentPackets c) = 1 /\
    SentBuffer.contains (heap env) (m_sentPackets c) 0 = true /\
    transmittedIn (trace env) = [1%positive].
Proof. eexists _, _. split; [reflexivity|]. vm_compute. repeat split. Qed.

Lemma doSend_markDead p resend v c env :
  doSend p resend (markDead v c, env)
  = (markDead v (doSend p resend (c, env)).1, (doSend p resend (c, env)).2).
Proof.
  unfold doSend. simpl.
  destruct (SentBuffer.slots (m_sentPackets c)
            !! SentBuffer.slotOf (SentBuffer.nextSeqNum (m_sentPackets c)))
    as [o|]; simpl; [|reflexivity].
  destruct (0 <? resendLimit o)%N; reflexivity.
Qed.

Lemma doSend_transmits p resend c env :
  m_sentCount (doSend p resend (c, env)).1 = uint64 (m_sentCount c + 1) /\
  transmittedIn (trace (doSend p resend (c, env)).2)
  = transmittedIn (trace env) ++ [p].
Proof.
  unfold doSend. simpl.
  destruct (SentBuffer.slots (m_sentPackets c)
            !! SentBuffer.slotOf (SentBuffer.nextSeqNum (m_sentPackets c)))
    as [o|]; simpl.
  - destruct (0 <? resendLimit o)%N; simpl; split; try reflexivity;
      unfold transmittedIn; rewrite !omap_app; simpl;
      now rewrite ?app_nil_r, <- ?app_assoc.
  - split; [reflexivity|].
    unfold transmittedIn; rewrite !omap_app; simpl.
    now rewrite ?app_nil_r, <- ?app_assoc.
Qed.

(** C4 (amended).  [asyncSend] does not look at [m_isDead].  For every
    packet and resend limit, on a dead connection as on a live one, the
    call itself transmits nothing and leaves the connection as it is: it
    only appends the [doSend] job to the io_service queue.  The job, when
    run, does on a dead connection what it does on a live one: it stores
    and transmits the packet and counts it in [m_sentCount]. *)
Theorem asyncSend_ignores_isDead (p : PacketPtr) (resend : N) (v : bool)
    (c : Connection) (env : Env) :
  asyncSend p resend (markDead v c, env)
  = (markDead v c,
     {| heap := heap env; clock := clock env;
        posted := posted env ++ [mkTask (m_peer c) p resend];
        trace := trace env |}) /\
  doSend p resend (markDead v c, env)
  = (markDead v (doSend p resend (c, env)).1, (doSend p resend (c, env)).2) /\
  m_sentCount (doSend p resend (markDead v c, env)).1
  = uint64 (m_sentCount c + 1) /\
  transmittedIn (trace (doSend p resend (markDead v c, env)).2)
  = transmittedIn (trace env) ++ [p].
Proof.
  split; [reflexivity|]. split; [apply doSend_markDead|].
  rewrite doSend_markDead. simpl. apply doSend_transmits.
Qed.

(** ** Scanning for the oldest seqnum *)

Lemma fold_olderOf_elem {A} (key : A -> Z) l : forall x,
  fold_left (olderOf key) l x ∈ x :: l.
Proof.
  induction l as [|y l IH]; intros x; simpl.
  - apply list_elem_of_here.
  - specialize (IH (olderOf key x y)). unfold olderOf in *.
    destruct (moreRecentSeqNum (key x) (key y));
      rewrite !elem_of_cons in *; tauto.
Qed.

Lemma oldestOf_elem {A} (key : A -> Z) l x :
  oldestOf key l = Some x -> x ∈ l.
Proof.
  destruct l as [|y l]; simpl; [discriminate|].
  intros [= <-]. apply fold_olderOf_elem.
Qed.

Lemma oldestOf_nonempty {A} (key : A -> Z) l :
  l <> [] -> is_Some (oldestOf key l).
Proof. destruct l; [congruence|]. simpl. eauto. Qed.

(** Where circular comparison agrees with a linear [rank] of the keys, the
    scan returns an element of least rank. *)
Lemma fold_olderOf_least {A} (key : A -> Z) (rank : Z -> Z) l : forall x,
  (forall a b, a ∈ x :: l -> b ∈ x :: l ->
     (moreRecentSeqNum (key a) (key b) = true <-> rank (key b) < rank (key a))) ->
  forall y, y ∈ x :: l ->
    rank (key (fold_left (olderOf key) l x)) <= rank (key y).
Proof.
  induction l as [|z l IH]; intros x Hlin y Hy; simpl.
  - apply list_elem_of_singleton in Hy. subst. lia.
  - assert (Hxz : olderOf key x z ∈ x :: z :: l
                  /\ rank (key (olderOf key x z)) <= rank (key x)
                  /\ rank (key (olderOf key x z)) <= rank (key z)).
    { assert (Hx : x ∈ x :: z :: l) by (rewrite !elem_of_cons; auto).
      assert (Hz : z ∈ x :: z :: l) by (rewrite !elem_of_cons; auto).
      pose proof (Hlin x z Hx Hz) as Hxz.
      unfold olderOf.
      destruct (moreRecentSeqNum (key x) (key z)) eqn:Hm.
      - split; [exact Hz|]. assert (rank (key z) < rank (key x)) by tauto. lia.
      - split; [exact Hx|].
        assert (~ rank (key z) < rank (key x)) by (intros Hlt; apply Hxz in Hlt; congruence).
        lia. }
    destruct Hxz as (Hin & Hx & Hz).
    assert (Hsub : forall a, a ∈ olderOf key x z :: l -> a ∈ x :: z :: l).
    { intros a. rewrite !elem_of_cons. intros [->|?]; [|auto].
      now rewrite !elem_of_cons in Hin. }
    rewrite !elem_of_cons in Hy. destruct Hy as [->|[->|Hy]].
    + etransitivity; [|exact Hx].
      apply IH; [|apply list_elem_of_here].
      intros a b Ha Hb. apply Hlin; auto.
    + etransitivity; [|exact Hz].
      apply IH; [|apply list_elem_of_here].
      intros a b Ha Hb. apply Hlin; auto.
    + apply IH; [|apply list_elem_of_further; exact Hy].
      intros a b Ha Hb. apply Hlin; auto.
Qed.

Lemma oldestOf_least {A} (key : A -> Z) (rank : Z -> Z) l x :
  (forall a b, a ∈ l -> b ∈ l ->
     (moreRecentSeqNum (key a) (key b) = true <-> rank (key b) < rank (key a))) ->
  oldestOf key l = Some x ->
  forall y, y ∈ l -> rank (key x) <= rank (key y).
Proof.
  destruct l as [|z l]; simpl; [discriminate|].
  intros Hlin [= <-] y Hy. now apply fold_olderOf_least.
Qed.

(** Among the last 256 seqnums allocated before [n], "more recent" is
    "closer to [n]". *)
Lemma moreRecentSeqNum_recent n a b :
  0 <= a < 2 ^ 16 -> 0 <= b < 2 ^ 16 ->
  uint16 (n - 1 - a) < 256 -> uint16 (n - 1 - b) < 256 ->
  (moreRecentSeqNum a b = true <-> uint16 (n - 1 - a) < uint16 (n - 1 - b)).
Proof.
  intros Ha Hb Hwa Hwb. unfold moreRecentSeqNum.
  rewrite andb_true_iff, negb_true_iff, Z.ltb_lt, Z.eqb_neq.
  split; [intros [H1 H2]|intros H; split]; euclid.
Qed.

(** Within half the circle from [base], "more recent" is "further from
    [base]". *)
Lemma moreRecentSeqNum_within base a b :
  0 <= a < 2 ^ 16 -> 0 <= b < 2 ^ 16 ->
  uint16 (a - base) < 2 ^ 15 -> uint16 (b - base) < 2 ^ 15 ->
  (moreRecentSeqNum a b = true <-> uint16 (b - base) < uint16 (a - base)).
Proof.
  intros Ha Hb Hwa Hwb. unfold moreRecentSeqNum.
  rewrite andb_true_iff, negb_true_iff, Z.ltb_lt, Z.eqb_neq.
  split; [intros [H1 H2]|intros H; split]; euclid.
Qed.

(** ** The sent buffer *)

Lemma elem_of_entries b e :
  e ∈ SentBuffer.entries b <-> exists k, SentBuffer.slots b !! k = Some e.
Proof.
  unfold SentBuffer.entries. rewrite list_elem_of_fmap. split.
  - intros ([k e'] & -> & Hin). apply elem_of_map_to_list in Hin. eauto.
  - intros (k & Hk). exists (k, e). split; [reflexivity|].
    now apply elem_of_map_to_list.
Qed.

Lemma empty_true b : SentBuffer.empty b = true <-> SentBuffer.slots b = ∅.
Proof. unfold SentBuffer.empty. apply bool_decide_eq_true. Qed.

Lemma empty_false b :
  SentBuffer.empty b = false <-> SentBuffer.entries b <> [].
Proof.
  unfold SentBuffer.empty, SentBuffer.entries.
  rewrite bool_decide_eq_false. split.
  - intros Hne Hnil. apply Hne. apply fmap_nil_inv in Hnil.
    now apply map_to_list_empty_iff.
  - intros Hne Hnil. apply Hne. rewrite Hnil. now rewrite map_to_list_empty.
Qed.

Lemma contains_lookup h b s :
  SentBuffer.contains h b s = true <->
  exists e, SentBuffer.slots b !! SentBuffer.slotOf s = Some e /\
            seqOf h (packet e) = s.
Proof.
  unfold SentBuffer.contains. split.
  - destruct (SentBuffer.slots b !! SentBuffer.slotOf s) as [e|]; [|discriminate].
    intros Heq. apply Z.eqb_eq in Heq. eauto.
  - intros (e & -> & <-). apply Z.eqb_refl.
Qed.

Lemma wf_contains h b k e :
  wf_sent h b -> SentBuffer.slots b !! k = Some e ->
  SentBuffer.contains h b (seqOf h (packet e)) = true.
Proof.
  intros [_ Hwf] Hk. apply contains_lookup. exists e. split; [|reflexivity].
  destruct (Hwf k e Hk) as (_ & <- & _). exact Hk.
Qed.

(** On a well-formed non-empty buffer [oldestSeqNum] is the seqnum of an
    occupant, the one furthest behind the allocator. *)
Lemma oldestSeqNum_entry h b :
  SentBuffer.empty b = false ->
  exists k e, SentBuffer.slots b !! k = Some e /\
              SentBuffer.oldestSeqNum h b = seqOf h (packet e) /\
              oldestOf (fun e => seqOf h (packet e)) (SentBuffer.entries b)
              = Some e.
Proof.
  intros Hne. apply empty_false in Hne.
  destruct (oldestOf_nonempty (fun e => seqOf h (packet e)) _ Hne) as [e He].
  pose proof (oldestOf_elem _ _ _ He) as Hin.
  apply elem_of_entries in Hin as [k Hk].
  exists k, e. unfold SentBuffer.oldestSeqNum. rewrite He. auto.
Qed.

Lemma oldestSeqNum_furthest h b k e :
  wf_sent h b -> SentBuffer.slots b !! k = Some e ->
  uint16 (SentBuffer.nextSeqNum b - 1 - seqOf h (packet e))
  <= uint16 (SentBuffer.nextSeqNum b - 1 - SentBuffer.oldestSeqNum h b).
Proof.
  intros Hwf Hk.
  assert (Hne : SentBuffer.empty b = false).
  { apply empty_false. intros Hnil.
    assert (Hin : e ∈ SentBuffer.entries b) by (apply elem_of_entries; eauto).
    rewrite Hnil in Hin. inversion Hin. }
  destruct (oldestSeqNum_entry h b Hne) as (k0 & e0 & Hk0 & -> & Hold).
  assert (Hin : e ∈ SentBuffer.entries b) by (apply elem_of_entries; eauto).
  assert (Hlin : forall a c, a ∈ SentBuffer.entries b -> c ∈ SentBuffer.entries b ->
            (moreRecentSeqNum (seqOf h (packet a)) (seqOf h (packet c)) = true <->
             - uint16 (SentBuffer.nextSeqNum b - 1 - seqOf h (packet c))
             < - uint16 (SentBuffer.nextSeqNum b - 1 - seqOf h (packet a)))).
  { intros a c [ka Ha]%elem_of_entries [kc Hc]%elem_of_entries.
    destruct Hwf as [_ Hwf].
    destruct (Hwf _ _ Ha) as (? & _ & ?), (Hwf _ _ Hc) as (? & _ & ?).
    rewrite (moreRecentSeqNum_recent (SentBuffer.nextSeqNum b)) by assumption.
    lia. }
  pose proof (oldestOf_least (fun e => seqOf h (packet e))
                (fun s => - uint16 (SentBuffer.nextSeqNum b - 1 - s))
                (SentBuffer.entries b) e0 Hlin Hold e Hin) as Hleast.
  simpl in Hleast. lia.
Qed.

Lemma fold_min_le (l : list PacketExt) : forall x,
  fold_left Z.min (timestamp <$> l) x <= x /\
  forall e, e ∈ l -> fold_left Z.min (timestamp <$> l) x <= timestamp e.
Proof.
  induction l as [|y l IH]; intros x.
  - simpl. split; [lia|]. intros e He. inversion He.
  - rewrite fmap_cons. cbn [fold_left].
    destruct (IH (Z.min x (timestamp y))) as [H1 H2]. split; [lia|].
    intros e. rewrite elem_of_cons. intros [->|He]; [lia|auto].
Qed.

Lemma oldestTime_le b e :
  e ∈ SentBuffer.entries b -> SentBuffer.oldestTime b <= timestamp e.
Proof.
  unfold SentBuffer.oldestTime.
  destruct (SentBuffer.entries b) as [|x l]; [intros He; inversion He|].
  destruct (fold_min_le l (timestamp x)) as [H1 H2].
  rewrite elem_of_cons. intros [->|He]; [exact H1 | exact (H2 e He)].
Qed.

(** *** Stamping and slots *)

Lemma seqOf_heapSet p pk h q :
  seqOf (heapSet p pk h) q
  = if decide (q = p) then seqNum (header pk) else seqOf h q.
Proof. unfold seqOf, heapSet. now destruct (decide (q = p)). Qed.

Lemma entries_delete b k e n :
  SentBuffer.slots b !! k = Some e ->
  e :: SentBuffer.entries (SentBuffer.mk (delete k (SentBuffer.slots b)) n)
  ≡ₚ SentBuffer.entries b.
Proof.
  intros Hk. unfold SentBuffer.entries. simpl.
  rewrite <- (map_to_list_delete _ _ _ Hk). reflexivity.
Qed.

Lemma entries_insert_fresh (m : gmap Z PacketExt) k x n n' :
  m !! k = None ->
  SentBuffer.entries (SentBuffer.mk (<[k := x]> m) n)
  ≡ₚ x :: SentBuffer.entries (SentBuffer.mk m n').
Proof.
  intros Hk. unfold SentBuffer.entries. simpl.
  rewrite (map_to_list_insert _ _ _ Hk). reflexivity.
Qed.

Lemma entries_insert b k x n :
  SentBuffer.entries (SentBuffer.mk (<[k := x]> (SentBuffer.slots b)) n)
  ≡ₚ x :: SentBuffer.entries
            (SentBuffer.mk (delete k (SentBuffer.slots b)) n).
Proof.
  unfold SentBuffer.entries. simpl.
  rewrite <- (insert_delete_eq (SentBuffer.slots b)).
  rewrite map_to_list_insert by apply lookup_delete_eq. reflexivity.
Qed.

Lemma wf_delete h b k :
  wf_sent h b ->
  wf_sent h (SentBuffer.mk (delete k (SentBuffer.slots b)) (SentBuffer.nextSeqNum b)).
Proof.
  intros [Hn Hwf]. split; simpl; [exact Hn|].
  intros k' e Hk'. apply lookup_delete_Some in Hk' as [_ Hk']. eauto.
Qed.

(** Storing a packet that the buffer does not hold keeps it well formed:
    the stamp shows in no other entry, and the occupant of the slot, if
    any, was the one 256 seqnums back. *)
Lemma wf_store h b p resend a now :
  wf_sent h b ->
  (forall k e, SentBuffer.slots b !! k = Some e -> packet e <> p) ->
  wf_sent (heapSet p (stampHeader (SentBuffer.nextSeqNum b) a (h p)) h)
    (SentBuffer.mk
       (<[SentBuffer.slotOf (SentBuffer.nextSeqNum b) := mkExt p resend now]>
          (SentBuffer.slots b))
       (uint16 (SentBuffer.nextSeqNum b + 1))).
Proof.
  intros [Hn Hwf] Hfresh. split; simpl; [euclid|].
  intros k e Hk.
  destruct (decide (SentBuffer.slotOf (SentBuffer.nextSeqNum b) = k)) as [<-|Hne].
  - rewrite lookup_insert_eq in Hk. injection Hk as <-. simpl.
    rewrite seqOf_heapSet. destruct (decide (p = p)); [|congruence]. simpl.
    repeat split; euclid.
  - rewrite lookup_insert_ne in Hk by exact Hne.
    destruct (Hwf k e Hk) as (Hr & Hs & Hw).
    rewrite seqOf_heapSet.
    destruct (decide (packet e = p)) as [Heq|_]; [now apply Hfresh in Hk|].
    repeat split; try assumption; try lia. subst k. euclid.
Qed.

(** Two occupants with the same packet are the same occupant. *)
Lemma wf_packet_slot h b k1 k2 e1 e2 :
  wf_sent h b ->
  SentBuffer.slots b !! k1 = Some e1 -> SentBuffer.slots b !! k2 = Some e2 ->
  packet e1 = packet e2 -> k1 = k2.
Proof.
  intros [_ Hwf] H1 H2 Heq.
  destruct (Hwf _ _ H1) as (_ & -> & _), (Hwf _ _ H2) as (_ & -> & _).
  now rewrite Heq.
Qed.

Lemma attempts_pos b : SentBuffer.empty b = false -> (0 < attempts b)%nat.
Proof.
  intros Hne. apply empty_false in Hne. unfold attempts.
  destruct (SentBuffer.entries b); [congruence|]. simpl. lia.
Qed.

(** *** What the methods do to the sent buffer *)

Ltac doSend_cases c :=
  unfold doSend; simpl;
  destruct (SentBuffer.slots (m_sentPackets c)
            !! SentBuffer.slotOf (SentBuffer.nextSeqNum (m_sentPackets c)))
    as [?o|]; simpl; [destruct (0 <? resendLimit o)%N; simpl|].

Lemma doSend_sentPackets p resend c env :
  m_sentPackets (doSend p resend (c, env)).1
  = SentBuffer.mk
      (<[SentBuffer.slotOf (SentBuffer.nextSeqNum (m_sentPackets c))
         := mkExt p resend (clock env)]> (SentBuffer.slots (m_sentPackets c)))
      (uint16 (SentBuffer.nextSeqNum (m_sentPackets c) + 1)).
Proof. doSend_cases c; reflexivity. Qed.

Lemma doSend_heap p resend c env :
  heap (doSend p resend (c, env)).2
  = heapSet p (stampHeader (SentBuffer.nextSeqNum (m_sentPackets c)) (m_ack c)
                 (heap env p)) (heap env).
Proof. doSend_cases c; reflexivity. Qed.

Lemma doSend_clock p resend c env :
  clock (doSend p resend (c, env)).2 = clock env.
Proof. doSend_cases c; reflexivity. Qed.

Lemma doSend_wf p resend c env :
  wf_sent (heap env) (m_sentPackets c) ->
  (forall k e, SentBuffer.slots (m_sentPackets c) !! k = Some e -> packet e <> p) ->
  wf_sent (heap (doSend p resend (c, env)).2)
          (m_sentPackets (doSend p resend (c, env)).1).
Proof.
  intros Hwf Hfresh. rewrite doSend_sentPackets, doSend_heap.
  now apply wf_store.
Qed.

Arguments doSend : simpl never.

Lemma removeUndeliveredPacket_present s c env :
  SentBuffer.contains (heap env) (m_sentPackets c) s = true ->
  exists e,
    SentBuffer.slots (m_sentPackets c) !! SentBuffer.slotOf s = Some e /\
    seqOf (heap env) (packet e) = s /\
    removeUndeliveredPacket s (c, env)
    = let c1 := setSentPackets
                  (SentBuffer.mk
                     (delete (SentBuffer.slotOf s)
                        (SentBuffer.slots (m_sentPackets c)))
                     (SentBuffer.nextSeqNum (m_sentPackets c))) c in
      if (0 <? resendLimit e)%N
      then doSend (packet e) (resendLimit e - 1)
             (c1, emit (EvResend (packet e) (resendLimit e - 1)) env)
      else (c1, env).
Proof.
  intros Hc. destruct (contains_release _ _ _ Hc) as (e & Hk & Hs & Hrel).
  exists e. repeat split; auto.
  unfold removeUndeliveredPacket. now rewrite Hc, Hrel.
Qed.

Lemma confirmPacketDelivery_present s c env :
  SentBuffer.contains (heap env) (m_sentPackets c) s = true ->
  exists e,
    SentBuffer.slots (m_sentPackets c) !! SentBuffer.slotOf s = Some e /\
    seqOf (heap env) (packet e) = s /\
    confirmPacketDelivery s (c, env)
    = ({| m_peer := m_peer c; m_isDead := m_isDead c;
          m_averageRTT := updateRTT (m_averageRTT c) (clock env - timestamp e);
          m_recvCount := m_recvCount c; m_sentCount := m_sentCount c;
          m_ackdCount := uint64 (m_ackdCount c + 1);
          m_recvTime := m_recvTime c; m_ack := m_ack c;
          m_sentPackets :=
            SentBuffer.mk
              (delete (SentBuffer.slotOf s) (SentBuffer.slots (m_sentPackets c)))
              (SentBuffer.nextSeqNum (m_sentPackets c));
          m_recvPackets := m_recvPackets c |},
       log LogDebug "acknowledged packet" env).
Proof.
  intros Hc. destruct (contains_release _ _ _ Hc) as (e & Hk & Hs & Hrel).
  exists e. repeat split; auto.
  unfold confirmPacketDelivery. now rewrite Hc, Hrel.
Qed.

(** Releasing a seqnum leaves every other seqnum as it was. *)
Lemma contains_delete h b s s' :
  SentBuffer.contains h b s = true ->
  SentBuffer.contains h
    (SentBuffer.mk (delete (SentBuffer.slotOf s) (SentBuffer.slots b))
                   (SentBuffer.nextSeqNum b)) s'
  = SentBuffer.contains h b s' && negb (s' =? s).
Proof.
  intros (e & Hk & Hs)%contains_lookup.
  unfold SentBuffer.contains. simpl.
  destruct (decide (SentBuffer.slotOf s' = SentBuffer.slotOf s)) as [Heq|Hne].
  - rewrite Heq, lookup_delete_eq, Hk, Hs.
    destruct (Z.eqb_spec s s'), (Z.eqb_spec s' s); simpl; congruence.
  - rewrite lookup_delete_ne by congruence.
    destruct (Z.eqb_spec s' s) as [->|_]; [congruence|].
    now rewrite andb_true_r.
Qed.

Lemma removeUndeliveredPacket_wf s c env :
  wf_sent (heap env) (m_sentPackets c) ->
  wf_sent (heap (removeUndeliveredPacket s (c, env)).2)
          (m_sentPackets (removeUndeliveredPacket s (c, env)).1).
Proof.
  intros Hwf.
  destruct (SentBuffer.contains (heap env) (m_sentPackets c) s) eqn:Hc.
  - destruct (removeUndeliveredPacket_present _ _ _ Hc) as (e & Hk & Hs & ->).
    cbv zeta. destruct (0 <? resendLimit e)%N.
    + apply doSend_wf; simpl.
      * now apply wf_delete.
      * intros k e' Hk' Heq. apply lookup_delete_Some in Hk' as [Hne Hk'].
        apply Hne. symmetry. eapply wf_packet_slot; eauto.
    + simpl. now apply wf_delete.
  - unfold removeUndeliveredPacket. now rewrite Hc.
Qed.

Lemma confirmPacketDelivery_wf s c env :
  wf_sent (heap env) (m_sentPackets c) ->
  wf_sent (heap (confirmPacketDelivery s (c, env)).2)
          (m_sentPackets (confirmPacketDelivery s (c, env)).1).
Proof.
  intros Hwf.
  destruct (SentBuffer.contains (heap env) (m_sentPackets c) s) eqn:Hc.
  - destruct (confirmPacketDelivery_present _ _ _ Hc) as (e & Hk & Hs & ->).
    simpl. now apply wf_delete.
  - unfold confirmPacketDelivery. now rewrite Hc.
Qed.

(** Once the oldest occupant is released, the slot the allocator writes
    next is free: its occupant could only be the one 256 seqnums back,
    which is the oldest. *)
Lemma oldest_release_frees_next_slot h b :
  wf_sent h b -> SentBuffer.empty b = false ->
  delete (SentBuffer.slotOf (SentBuffer.oldestSeqNum h b)) (SentBuffer.slots b)
    !! SentBuffer.slotOf (SentBuffer.nextSeqNum b) = None.
Proof.
  intros Hwf Hne.
  destruct (SentBuffer.slots b !! SentBuffer.slotOf (SentBuffer.nextSeqNum b))
    as [e|] eqn:Hk.
  - pose proof (oldestSeqNum_furthest h b _ e Hwf Hk) as Hfar.
    destruct (oldestSeqNum_entry h b Hne) as (k0 & e0 & Hk0 & Hs0 & _).
    destruct Hwf as [Hn Hwf].
    destruct (Hwf _ _ Hk) as (Hr & Hslot & Hw).
    destruct (Hwf _ _ Hk0) as (Hr0 & Hslot0 & Hw0).
    rewrite <- Hs0 in Hr0, Hw0.
    assert (Heq : SentBuffer.slotOf (SentBuffer.oldestSeqNum h b)
                  = SentBuffer.slotOf (SentBuffer.nextSeqNum b)) by euclid.
    rewrite Heq. apply lookup_delete_eq.
  - apply lookup_delete_None. now right.
Qed.

Lemma attempts_delete b k e n :
  SentBuffer.slots b !! k = Some e ->
  attempts b
  = S (N.to_nat (resendLimit e)
       + attempts (SentBuffer.mk (delete k (SentBuffer.slots b)) n)).
Proof.
  intros Hk. unfold attempts.
  rewrite <- (entries_delete b k e n Hk). reflexivity.
Qed.

(** One iteration of the loss loop on a well-formed buffer: the oldest
    occupant leaves, possibly to come back under a fresh seqnum with one
    resend less; every other occupant stays where it is. *)
Lemma removeOldest_spec c env :
  wf_sent (heap env) (m_sentPackets c) ->
  SentBuffer.empty (m_sentPackets c) = false ->
  let s := SentBuffer.oldestSeqNum (heap env) (m_sentPackets c) in
  let st' := removeUndeliveredPacket s (c, env) in
  SentBuffer.contains (heap env) (m_sentPackets c) s = true /\
  wf_sent (heap st'.2) (m_sentPackets st'.1) /\
  clock st'.2 = clock env /\
  (attempts (m_sentPackets st'.1) < attempts (m_sentPackets c))%nat /\
  (forall k e, SentBuffer.slots (m_sentPackets c) !! k = Some e ->
     seqOf (heap env) (packet e) <> s ->
     SentBuffer.slots (m_sentPackets st'.1) !! k = Some e /\
     seqOf (heap st'.2) (packet e) = seqOf (heap env) (packet e)) /\
  (forall k e, SentBuffer.slots (m_sentPackets st'.1) !! k = Some e ->
     SentBuffer.slots (m_sentPackets c) !! k = Some e \/
     timestamp e = clock env).
Proof.
  intros Hwf Hne s st'.
  destruct (oldestSeqNum_entry (heap env) _ Hne) as (k0 & e0 & Hk0 & Hs0 & _).
  fold s in Hs0.
  assert (Hc : SentBuffer.contains (heap env) (m_sentPackets c) s = true).
  { rewrite Hs0. eapply wf_contains; eauto. }
  split; [exact Hc|]. split; [apply removeUndeliveredPacket_wf; exact Hwf|].
  pose proof (oldest_release_frees_next_slot _ _ Hwf Hne) as Hfree. fold s in Hfree.
  destruct (removeUndeliveredPacket_present _ _ _ Hc) as (e & Hk & Hs & Heq).
  assert (Hkeep : forall k e', SentBuffer.slots (m_sentPackets c) !! k = Some e' ->
            seqOf (heap env) (packet e') <> s -> k <> SentBuffer.slotOf s).
  { intros k e' Hk' Hs' ->. rewrite Hk in Hk'. injection Hk' as <-. auto. }
  subst st'. rewrite Heq. cbv zeta.
  rewrite (attempts_delete _ _ e (SentBuffer.nextSeqNum (m_sentPackets c)) Hk).
  destruct (0 <? resendLimit e)%N eqn:Hr.
  - apply N.ltb_lt in Hr.
    rewrite doSend_clock, doSend_sentPackets, doSend_heap. simpl.
    split; [reflexivity|]. split; [|split].
    + unfold attempts at 1.
      rewrite (entries_insert_fresh _ _ _ _
                 (SentBuffer.nextSeqNum (m_sentPackets c)) Hfree).
      simpl. fold (attempts (SentBuffer.mk
                      (delete (SentBuffer.slotOf s)
                         (SentBuffer.slots (m_sentPackets c)))
                      (SentBuffer.nextSeqNum (m_sentPackets c)))).
      lia.
    + intros k e' Hk' Hs'.
      pose proof (Hkeep _ _ Hk' Hs') as Hne'.
      assert (Hdel : delete (SentBuffer.slotOf s)
                       (SentBuffer.slots (m_sentPackets c)) !! k = Some e')
        by (rewrite lookup_delete_ne by congruence; exact Hk').
      split.
      * rewrite lookup_insert_ne; [exact Hdel|]. intros <-. congruence.
      * rewrite seqOf_heapSet.
        destruct (decide (packet e' = packet e)) as [Hp|_]; [|reflexivity].
        exfalso. apply Hne'. eapply wf_packet_slot; eauto.
    + intros k e' Hk'.
      destruct (decide (SentBuffer.slotOf
                          (SentBuffer.nextSeqNum (m_sentPackets c)) = k))
        as [<-|Hne'].
      * rewrite lookup_insert_eq in Hk'. injection Hk' as <-. now right.
      * rewrite lookup_insert_ne in Hk' by exact Hne'.
        apply lookup_delete_Some in Hk' as [_ Hk']. now left.
  - simpl. split; [reflexivity|]. split; [lia|]. split.
    + intros k e' Hk' Hs'. split; [|reflexivity].
      rewrite lookup_delete_ne; [exact Hk'|].
      intros Heq'. eapply Hkeep; eauto.
    + intros k e' Hk'. apply lookup_delete_Some in Hk' as [_ Hk']. now left.
Qed.

(** *** The two phases of [processPeerAcks] *)

Arguments removeUndeliveredPacket : simpl never.
Arguments confirmPacketDelivery : simpl never.

Lemma confirmPacketDelivery_step s c env :
  let st' := confirmPacketDelivery s (c, env) in
  heap st'.2 = heap env /\ clock st'.2 = clock env /\
  posted st'.2 = posted env /\
  (forall s', SentBuffer.contains (heap env) (m_sentPackets st'.1) s'
              = SentBuffer.contains (heap env) (m_sentPackets c) s'
                && negb (s' =? s)) /\
  m_ackdCount st'.1
  = (if SentBuffer.contains (heap env) (m_sentPackets c) s
     then uint64 (m_ackdCount c + 1) else m_ackdCount c) /\
  (forall k e, SentBuffer.slots (m_sentPackets st'.1) !! k = Some e ->
               SentBuffer.slots (m_sentPackets c) !! k = Some e) /\
  (attempts (m_sentPackets st'.1) <= attempts (m_sentPackets c))%nat.
Proof.
  intros st'. subst st'.
  destruct (SentBuffer.contains (heap env) (m_sentPackets c) s) eqn:Hc.
  - destruct (confirmPacketDelivery_present _ _ _ Hc) as (e & Hk & Hs & ->).
    simpl. repeat split; auto.
    + intros s'. now apply contains_delete.
    + intros k e' Hk'. now apply lookup_delete_Some in Hk' as [_ Hk'].
    + rewrite (attempts_delete _ _ e (SentBuffer.nextSeqNum (m_sentPackets c)) Hk).
      lia.
  - unfold confirmPacketDelivery. rewrite Hc. simpl.
    split; [reflexivity|]. split; [reflexivity|]. split; [reflexivity|].
    split; [|split; [reflexivity|split; [auto|lia]]].
    intros s'. destruct (Z.eqb_spec s' s) as [->|_]; simpl.
    + rewrite Hc. reflexivity.
    + now rewrite andb_true_r.
Qed.

Lemma confirm_phase_spec l : forall c env,
  wf_sent (heap env) (m_sentPackets c) ->
  let st' := fold_left (fun st s => confirmPacketDelivery s st) l (c, env) in
  wf_sent (heap st'.2) (m_sentPackets st'.1) /\
  heap st'.2 = heap env /\ clock st'.2 = clock env /\
  posted st'.2 = posted env /\
  (forall k e, SentBuffer.slots (m_sentPackets st'.1) !! k = Some e ->
               SentBuffer.slots (m_sentPackets c) !! k = Some e) /\
  (attempts (m_sentPackets st'.1) <= attempts (m_sentPackets c))%nat.
Proof.
  induction l as [|s l IH]; intros c env Hwf; simpl.
  - split; [exact Hwf|]. repeat split; auto.
  - pose proof (confirmPacketDelivery_wf s c env Hwf) as Hwf1.
    destruct (confirmPacketDelivery_step s c env)
      as (Hh & Hcl & Hp & _ & _ & Hsub & Hatt).
    destruct (confirmPacketDelivery s (c, env)) as [c1 env1]. simpl in *.
    destruct (IH c1 env1 Hwf1) as (Hwf' & Hh' & Hcl' & Hp' & Hsub' & Hatt').
    split; [exact Hwf'|]. repeat split; try congruence; auto. lia.
Qed.

Lemma lossLoop_unfold fuel minSeqNum minTime st :
  lossLoop fuel minSeqNum minTime st
  = if SentBuffer.empty (m_sentPackets st.1) then Some st
    else
      if moreRecentSeqNum minSeqNum
           (SentBuffer.oldestSeqNum (heap st.2) (m_sentPackets st.1))
         || (SentBuffer.oldestTime (m_sentPackets st.1) <? minTime)
      then
        match fuel with
        | O => None
        | S fuel' =>
            lossLoop fuel' minSeqNum minTime
              (removeUndeliveredPacket
                 (SentBuffer.oldestSeqNum (heap st.2) (m_sentPackets st.1)) st)
        end
      else Some st.
Proof. destruct fuel; reflexivity. Qed.

(** The loss loop on a well-formed buffer returns within [attempts] removals.
    It ends with the buffer empty or with its oldest occupant neither
    behind [minSeqNum] nor older than [minTime]; what it did is a sequence
    of [removeUndeliveredPacket] calls, and an occupant it was not called
    for is still in its slot. *)
Lemma lossLoop_spec minSeqNum minTime n : forall c env fuel,
  wf_sent (heap env) (m_sentPackets c) ->
  (attempts (m_sentPackets c) <= n)%nat -> (n <= fuel)%nat ->
  exists L,
    let st' := fold_left (fun st s => removeUndeliveredPacket s st) L (c, env) in
    lossLoop fuel minSeqNum minTime (c, env) = Some st' /\
    wf_sent (heap st'.2) (m_sentPackets st'.1) /\
    clock st'.2 = clock env /\
    (SentBuffer.empty (m_sentPackets st'.1) = false ->
     moreRecentSeqNum minSeqNum
       (SentBuffer.oldestSeqNum (heap st'.2) (m_sentPackets st'.1)) = false /\
     minTime <= SentBuffer.oldestTime (m_sentPackets st'.1)) /\
    (forall k e, SentBuffer.slots (m_sentPackets c) !! k = Some e ->
       (SentBuffer.slots (m_sentPackets st'.1) !! k = Some e /\
        seqOf (heap st'.2) (packet e) = seqOf (heap env) (packet e)) \/
       seqOf (heap env) (packet e) ∈ L).
Proof.
  induction n as [|n IH]; intros c env fuel Hwf Hatt Hfuel.
  - exists []. simpl. rewrite lossLoop_unfold. simpl.
    destruct (SentBuffer.empty (m_sentPackets c)) eqn:Hem.
    + split; [reflexivity|]. split; [exact Hwf|]. split; [reflexivity|].
      split; [discriminate|]. intros k e Hk. now left.
    + apply attempts_pos in Hem. lia.
  - rewrite lossLoop_unfold. simpl.
    destruct (SentBuffer.empty (m_sentPackets c)) eqn:Hem.
    { exists []. simpl.
      split; [reflexivity|]. split; [exact Hwf|]. split; [reflexivity|].
      split; [rewrite Hem; discriminate|]. intros k e Hk. now left. }
    destruct (moreRecentSeqNum minSeqNum
                (SentBuffer.oldestSeqNum (heap env) (m_sentPackets c))
              || (SentBuffer.oldestTime (m_sentPackets c) <? minTime)) eqn:Hcond.
    + destruct fuel as [|fuel]; [lia|].
      destruct (removeOldest_spec c env Hwf Hem)
        as (Hc & Hwf1 & Hcl1 & Hatt1 & Hkeep & _).
      destruct (removeUndeliveredPacket
                  (SentBuffer.oldestSeqNum (heap env) (m_sentPackets c)) (c, env))
        as [c1 env1] eqn:Hst1.
      simpl in Hwf1, Hcl1, Hatt1, Hkeep.
      destruct (IH c1 env1 fuel Hwf1 ltac:(lia) ltac:(lia))
        as (L & Hrun & Hwf' & Hcl' & Hexit & Hkeep').
      exists (SentBuffer.oldestSeqNum (heap env) (m_sentPackets c) :: L).
      simpl. rewrite Hst1. simpl in *.
      split; [exact Hrun|]. split; [exact Hwf'|]. split; [congruence|].
      split; [exact Hexit|].
      intros k e Hk.
      destruct (decide (seqOf (heap env) (packet e)
                        = SentBuffer.oldestSeqNum (heap env) (m_sentPackets c)))
        as [Heq|Hne].
      * right. rewrite Heq. apply list_elem_of_here.
      * destruct (Hkeep k e Hk Hne) as [Hk1 Hs1].
        destruct (Hkeep' k e Hk1) as [[Hk2 Hs2]|Hin].
        -- left. split; [exact Hk2|congruence].
        -- right. rewrite <- Hs1. now apply list_elem_of_further.
    + exists []. simpl. apply orb_false_iff in Hcond as [Hseq Htime].
      apply Z.ltb_ge in Htime.
      split; [reflexivity|]. split; [exact Hwf|]. split; [reflexivity|].
      split; [auto|]. intros k e Hk. now left.
Qed.

Lemma wf_sentb_sound h b : wf_sentb h b = true -> wf_sent h b.
Proof.
  unfold wf_sentb. rewrite !andb_true_iff, Z.leb_le, Z.ltb_lt.
  intros [[H0 H1] Hall]. split; [lia|].
  intros k e Hk. rewrite forallb_forall in Hall.
  specialize (Hall (k, e)). simpl in Hall.
  rewrite !andb_true_iff, Z.leb_le, !Z.ltb_lt, Z.eqb_eq in Hall.
  assert (Hin : In (k, e) (map_to_list (SentBuffer.slots b)))
    by (apply list_elem_of_In; now apply elem_of_map_to_list).
  apply Hall in Hin. tauto.
Qed.

Lemma oldestTime_entry b :
  SentBuffer.empty b = false ->
  exists e, e ∈ SentBuffer.entries b /\ SentBuffer.oldestTime b = timestamp e.
Proof.
  intros Hne. apply empty_false in Hne. unfold SentBuffer.oldestTime.
  destruct (SentBuffer.entries b) as [|x l]; [congruence|]. clear Hne.
  revert x. induction l as [|y l IH]; intros x.
  - exists x. split; [apply list_elem_of_here|reflexivity].
  - rewrite fmap_cons. cbn [fold_left].
    destruct (Z.min_spec (timestamp x) (timestamp y)) as [[_ ->]|[_ ->]].
    + destruct (IH x) as (e & He & ->). exists e. split; [|reflexivity].
      rewrite !elem_of_cons in *. tauto.
    + destruct (IH y) as (e & He & ->). exists e. split; [|reflexivity].
      rewrite !elem_of_cons in *. tauto.
Qed.

(** ** Loss detection *)

(** C5 as stated fails for the seqnum rule: with seqnums 0 and 1 in the
    sent buffer and a peer ack of 33024, [minSeqNum] is 32768; the oldest
    seqnum 0 is not circularly less than it, so the loop stops at once, and
    seqnum 1, which is circularly less than 32768, stays in the buffer. *)
Lemma stale_seqnum_survives :
  processPeerAcks 0 (AckField.mk 33024 0) sentTwoSt = Some sentTwoSt /\
  SentBuffer.contains (heap sentTwoSt.2) (m_sentPackets sentTwoSt.1) 1 = true /\
  moreRecentSeqNum (uint16 (AckField.latestSeqNum (AckField.mk 33024 0) - 256)) 1
  = true.
Proof. split; [|split]; vm_compute; reflexivity. Qed.

(** C5 (amended).  On a well-formed sent buffer [processPeerAcks] returns
    (given fuel for [attempts] removals), and when it does: no entry of the
    sent buffer has a timestamp more than 2 seconds before the current
    time; the oldest seqnum is not circularly less than [peerAck - 256],
    and no entry is behind [peerAck - 256] by a circular distance of 1 to
    2^15 - 256 (an entry further behind than that can stay, since only the
    oldest one is compared); the loss phase is a sequence of
    [removeUndeliveredPacket] calls, and every entry that was stale in one
    of these two ways after the confirmations was passed to one of them. *)
Theorem processPeerAcks_loss_detection (fuel : nat) (peerAck : AckField.t)
    (st : St) :
  wf_sent (heap st.2) (m_sentPackets st.1) ->
  (attempts (m_sentPackets st.1) <= fuel)%nat ->
  let st1 := fold_left (fun st s => confirmPacketDelivery s st)
                       (AckField.forEachAckedSeqNum peerAck) st in
  let minSeqNum := uint16 (AckField.latestSeqNum peerAck - 256) in
  let minTime := clock st.2 - 2000 in
  exists L,
    let st' := fold_left (fun st s => removeUndeliveredPacket s st) L st1 in
    processPeerAcks fuel peerAck st = Some st' /\
    (forall e, e ∈ SentBuffer.entries (m_sentPackets st'.1) ->
               minTime <= timestamp e) /\
    (SentBuffer.empty (m_sentPackets st'.1) = false ->
     moreRecentSeqNum minSeqNum
       (SentBuffer.oldestSeqNum (heap st'.2) (m_sentPackets st'.1)) = false) /\
    (forall s, SentBuffer.contains (heap st'.2) (m_sentPackets st'.1) s = true ->
               ~ (0 < uint16 (minSeqNum - s) <= 2 ^ 15 - 256)) /\
    (forall k e, SentBuffer.slots (m_sentPackets st1.1) !! k = Some e ->
       timestamp e < minTime \/
       0 < uint16 (minSeqNum - seqOf (heap st1.2) (packet e)) <= 2 ^ 15 - 256 ->
       seqOf (heap st1.2) (packet e) ∈ L).
Proof.
  destruct st as [c env].
  intros Hwf Hfuel st1 minSeqNum minTime. cbn [fst snd] in Hwf, Hfuel, minTime.
  destruct (confirm_phase_spec (AckField.forEachAckedSeqNum peerAck) c env Hwf)
    as (Hwf1 & _ & Hcl1 & _ & _ & Hatt1).
  fold st1 in Hwf1, Hcl1, Hatt1.
  unfold processPeerAcks. fold st1. fold minSeqNum. rewrite Hcl1. fold minTime.
  destruct st1 as [c1 env1] eqn:Hst1. simpl in Hwf1, Hatt1.
  destruct (lossLoop_spec minSeqNum minTime (attempts (m_sentPackets c1))
              c1 env1 fuel Hwf1 ltac:(lia) ltac:(lia))
    as (L & Hrun & Hwf' & Hcl' & Hexit & Hkeep).
  exists L. cbv zeta in *.
  set (st' := fold_left (fun st s => removeUndeliveredPacket s st) L (c1, env1)) in *.
  assert (Htime : forall e, e ∈ SentBuffer.entries (m_sentPackets st'.1) ->
                            minTime <= timestamp e).
  { intros e He.
    assert (Hne : SentBuffer.empty (m_sentPackets st'.1) = false).
    { apply empty_false. intros Hnil. rewrite Hnil in He. inversion He. }
    destruct (Hexit Hne) as [_ Hold].
    pose proof (oldestTime_le _ _ He). lia. }
  assert (Hseq : forall s,
            SentBuffer.contains (heap st'.2) (m_sentPackets st'.1) s = true ->
            ~ (0 < uint16 (minSeqNum - s) <= 2 ^ 15 - 256)).
  { intros s (e & Hk & Hs)%contains_lookup.
    assert (Hne : SentBuffer.empty (m_sentPackets st'.1) = false).
    { apply empty_false. intros Hnil.
      assert (Hin : e ∈ SentBuffer.entries (m_sentPackets st'.1))
        by (apply elem_of_entries; eauto).
      rewrite Hnil in Hin. inversion Hin. }
    destruct (Hexit Hne) as [Hold _].
    pose proof (oldestSeqNum_furthest _ _ _ _ Hwf' Hk) as Hfar.
    destruct (oldestSeqNum_entry (heap st'.2) _ Hne) as (k0 & e0 & Hk0 & Hs0 & _).
    destruct Hwf' as [Hn Hwf'].
    destruct (Hwf' _ _ Hk) as (Hr & _ & Hw).
    destruct (Hwf' _ _ Hk0) as (Hr0 & _ & Hw0).
    rewrite <- Hs0 in Hr0, Hw0. rewrite Hs in Hr, Hw, Hfar.
    unfold moreRecentSeqNum in Hold.
    apply andb_false_iff in Hold.
    rewrite Z.ltb_ge, negb_false_iff, Z.eqb_eq in Hold.
    assert (Hm : 0 <= minSeqNum < 2 ^ 16) by (subst minSeqNum; euclid).
    clearbody minSeqNum. clear - Hold Hfar Hr Hr0 Hw Hw0 Hn Hm.
    intros Hstale. euclid. }
  split; [exact Hrun|]. split; [exact Htime|]. split; [apply Hexit|].
  split; [exact Hseq|].
  intros k e Hk Hstale. simpl in Hk, Hstale |- *.
  destruct (Hkeep k e Hk) as [[Hk' Hs']|Hin]; [exfalso|exact Hin].
  destruct Hstale as [Hold|Hbehind].
  - assert (Hin : e ∈ SentBuffer.entries (m_sentPackets st'.1))
      by (apply elem_of_entries; eauto).
    apply Htime in Hin. lia.
  - apply (Hseq (seqOf (heap env1) (packet e))); [|exact Hbehind].
    rewrite <- Hs'. eapply wf_contains; eauto.
Qed.

Lemma processPeerAcks_loss_detection_witness :
  exists st',
    processPeerAcks 3 (AckField.mk 7 0) staleSt = Some st' /\
    (forall e, e ∈ SentBuffer.entries (m_sentPackets st'.1) ->
               clock staleSt.2 - 2000 <= timestamp e) /\
    SentBuffer.contains (heap st'.2) (m_sentPackets st'.1) 0 = false /\
    SentBuffer.contains (heap st'.2) (m_sentPackets st'.1) 1 = false /\
    SentBuffer.contains (heap st'.2) (m_sentPackets st'.1) 2 = true.
Proof.
  assert (Hev : processPeerAcks 3 (AckField.mk 7 0) staleSt
                = Some (removeUndeliveredPacket 1
                          (removeUndeliveredPacket 0 staleSt)))
    by (vm_compute; reflexivity).
  destruct (processPeerAcks_loss_detection 3 (AckField.mk 7 0) staleSt)
    as (L & Hrun & Htime & _).
  - apply wf_sentb_sound. vm_compute. reflexivity.
  - vm_compute. lia.
  - exists (removeUndeliveredPacket 1 (removeUndeliveredPacket 0 staleSt)).
    split; [exact Hev|]. split.
    + rewrite Hev in Hrun. injection Hrun as Heq. rewrite Heq. exact Htime.
    + vm_compute. repeat split.
Defined.

(** ** Scenario: acks with gaps *)

Lemma uint64_succ3 a : uint64 (uint64 (uint64 (a + 1) + 1) + 1) = uint64 (a + 3).
Proof. euclid. Qed.

(** C1 as stated fails: after seqnums 0 to 4 were sent, the ack
    [(latest = 4, bits = 0b0101)] covers 4, 3 (bit 0) and 1 (bit 2); the
    sent buffer is left with seqnums 0 and 2, not with 1 and 3. *)
Lemma ack_0b0101_releases_1_and_3 :
  AckField.forEachAckedSeqNum (AckField.mk 4 5) = [4; 3; 1] /\
  processPeerAcks 0 (AckField.mk 4 5) sentFiveSt
  = Some (confirmPacketDelivery 1
            (confirmPacketDelivery 3 (confirmPacketDelivery 4 sentFiveSt))) /\
  map (SentBuffer.contains
         (heap (confirmPacketDelivery 1
                  (confirmPacketDelivery 3
                     (confirmPacketDelivery 4 sentFiveSt))).2)
         (m_sentPackets
            (confirmPacketDelivery 1
               (confirmPacketDelivery 3
                  (confirmPacketDelivery 4 sentFiveSt))).1))
      [0; 1; 2; 3; 4]
  = [true; false; true; false; false] /\
  m_ackdCount (confirmPacketDelivery 1
                 (confirmPacketDelivery 3
                    (confirmPacketDelivery 4 sentFiveSt))).1
  = m_ackdCount sentFiveSt.1 + 3.
Proof. split; [|split; [|split]]; vm_compute; reflexivity. Qed.

(** C1 (amended).  For a connection whose sent buffer holds exactly the
    seqnums 0 to 4, none older than 2 seconds, processing the peer ack
    [(latest = 4, bits = 0b0101)] leaves the sent buffer holding exactly
    the seqnums 0 and 2 and increases [m_ackdCount] by 3; the ack covers
    [latest] and [latest - k] for each [k] in 1..32 whose bit [k - 1] is
    set, here 4, 3 and 1. *)
Theorem ack_0b0101_leaves_0_and_2 (fuel : nat) (st : St) :
  wf_sent (heap st.2) (m_sentPackets st.1) ->
  (forall s, SentBuffer.contains (heap st.2) (m_sentPackets st.1) s = true
             <-> 0 <= s <= 4) ->
  (forall e, e ∈ SentBuffer.entries (m_sentPackets st.1) ->
             clock st.2 - 2000 <= timestamp e) ->
  AckField.forEachAckedSeqNum (AckField.mk 4 5) = [4; 3; 1] /\
  exists c' env',
    processPeerAcks fuel (AckField.mk 4 5) st = Some (c', env') /\
    (forall s, SentBuffer.contains (heap env') (m_sentPackets c') s = true
               <-> s = 0 \/ s = 2) /\
    m_ackdCount c' = uint64 (m_ackdCount st.1 + 3).
Proof.
  destruct st as [c env]. cbn [fst snd].
  intros Hwf Hheld Hfresh. split; [reflexivity|].
  unfold processPeerAcks.
  change (AckField.forEachAckedSeqNum (AckField.mk 4 5)) with [4; 3; 1].
  cbn [fold_left].
  (* the three confirmations *)
  pose proof (confirmPacketDelivery_wf 4 c env Hwf) as Hwf1.
  destruct (confirmPacketDelivery_step 4 c env)
    as (Hh1 & Hcl1 & _ & Hc1 & Ha1 & Hs1 & _).
  destruct (confirmPacketDelivery 4 (c, env)) as [c1 env1]. simpl in *.
  pose proof (confirmPacketDelivery_wf 3 c1 env1 Hwf1) as Hwf2.
  destruct (confirmPacketDelivery_step 3 c1 env1)
    as (Hh2 & Hcl2 & _ & Hc2 & Ha2 & Hs2 & _).
  destruct (confirmPacketDelivery 3 (c1, env1)) as [c2 env2]. simpl in *.
  pose proof (confirmPacketDelivery_wf 1 c2 env2 Hwf2) as Hwf3.
  destruct (confirmPacketDelivery_step 1 c2 env2)
    as (Hh3 & Hcl3 & _ & Hc3 & Ha3 & Hs3 & _).
  destruct (confirmPacketDelivery 1 (c2, env2)) as [c3 env3]. simpl in *.
  rewrite Hh1 in *. rewrite Hh2 in *. rewrite Hh3 in *.
  assert (Hheld3 : forall s,
            SentBuffer.contains (heap env) (m_sentPackets c3) s = true
            <-> s = 0 \/ s = 2).
  { intros s. rewrite Hc3, Hc2, Hc1, !andb_true_iff, !negb_true_iff, !Z.eqb_neq.
    rewrite Hheld. lia. }
  assert (Hackd : m_ackdCount c3 = uint64 (m_ackdCount c + 3)).
  { assert (H4 : SentBuffer.contains (heap env) (m_sentPackets c) 4 = true)
      by (apply Hheld; lia).
    assert (H3 : SentBuffer.contains (heap env) (m_sentPackets c1) 3 = true).
    { rewrite Hc1, andb_true_iff. split; [apply Hheld; lia|reflexivity]. }
    assert (H1 : SentBuffer.contains (heap env) (m_sentPackets c2) 1 = true).
    { rewrite Hc2, Hc1, !andb_true_iff.
      repeat split; try reflexivity. apply Hheld; lia. }
    rewrite H1 in Ha3. rewrite H3 in Ha2. rewrite H4 in Ha1.
    rewrite Ha3, Ha2, Ha1. apply uint64_succ3. }
  (* the loss loop finds nothing to remove *)
  exists c3, env3. split; [|split; [rewrite Hh3; exact Hheld3|exact Hackd]].
  rewrite lossLoop_unfold. simpl.
  assert (Hne : SentBuffer.empty (m_sentPackets c3) = false).
  { destruct (SentBuffer.empty (m_sentPackets c3)) eqn:Hem; [|reflexivity].
    apply empty_true in Hem.
    assert (H0 : SentBuffer.contains (heap env) (m_sentPackets c3) 0 = true)
      by (apply Hheld3; auto).
    apply contains_lookup in H0 as (e & Hk & _).
    rewrite Hem, lookup_empty in Hk. discriminate. }
  rewrite Hne, Hh3.
  destruct (oldestSeqNum_entry (heap env) _ Hne) as (k & e & Hk & Hold & _).
  pose proof (wf_contains _ _ _ _ Hwf3 Hk) as Hc. rewrite <- Hold in Hc.
  apply Hheld3 in Hc.
  assert (Hseq : moreRecentSeqNum (uint16 (4 - 256))
                   (SentBuffer.oldestSeqNum (heap env) (m_sentPackets c3)) = false)
    by (destruct Hc as [Hc|Hc]; rewrite Hc; reflexivity).
  rewrite Hseq. simpl.
  destruct (oldestTime_entry _ Hne) as (e' & He' & ->).
  apply elem_of_entries in He' as [k' Hk'].
  assert (Hin : e' ∈ SentBuffer.entries (m_sentPackets c))
    by (apply elem_of_entries; eauto).
  apply Hfresh in Hin.
  destruct (Z.ltb_spec (timestamp e') (clock env3 - 2000)); [lia|reflexivity].
Qed.

(** Replaces a closed term in a hypothesis by its value, the evaluation
    being left to the virtual machine. *)
Ltac evaluate_in t H :=
  let v := eval vm_compute in t in
  let E := fresh "E" in
  assert (E : t = v) by (vm_compute; reflexivity);
  rewrite E in H; clear E.

Lemma ack_0b0101_leaves_0_and_2_witness :
  exists c' env',
    processPeerAcks 0 (AckField.mk 4 5) sentFiveSt = Some (c', env') /\
    (forall s, SentBuffer.contains (heap env') (m_sentPackets c') s = true
               <-> s = 0 \/ s = 2) /\
    m_ackdCount c' = uint64 (m_ackdCount sentFiveSt.1 + 3).
Proof.
  destruct (ack_0b0101_leaves_0_and_2 0 sentFiveSt) as [_ H].
  - apply wf_sentb_sound. vm_compute. reflexivity.
  - intros s. split.
    + intros (e & Hk & Hs)%contains_lookup.
      apply elem_of_map_to_list, list_elem_of_In in Hk.
      evaluate_in (map_to_list (SentBuffer.slots (m_sentPackets sentFiveSt.1))) Hk.
      simpl in Hk.
      repeat (destruct Hk as [Hk|Hk];
              [injection Hk as _ <-;
               match type of Hs with
               | ?l = _ => evaluate_in l Hs
               end; lia|]).
      destruct Hk.
    + intros Hs. assert (Hcases : s = 0 \/ s = 1 \/ s = 2 \/ s = 3 \/ s = 4) by lia.
      destruct Hcases as [->|[->|[->|[->| ->]]]]; vm_compute; reflexivity.
  - intros e He. apply list_elem_of_In in He.
    evaluate_in (SentBuffer.entries (m_sentPackets sentFiveSt.1)) He.
    simpl in He.
    repeat (destruct He as [<-|He]; [vm_compute; discriminate|]).
    destruct He.
  - exact H.
Defined.

(** ** Completion of a send *)



(** After [removeUndeliveredPacket s] a well-formed buffer does not hold
    [s]: the slot is cleared, and a resend goes in under a fresh seqnum. *)
Lemma removeUndeliveredPacket_removes s c env :
  wf_sent (heap env) (m_sentPackets c) ->
  SentBuffer.contains (heap (removeUndeliveredPacket s (c, env)).2)
    (m_sentPackets (removeUndeliveredPacket s (c, env)).1) s = false.
Proof.
  intros Hwf.
  destruct (SentBuffer.contains (heap env) (m_sentPackets c) s) eqn:Hc.
  - destruct (removeUndeliveredPacket_present _ _ _ Hc) as (e & Hk & Hs & ->).
    cbv zeta. destruct (0 <? resendLimit e)%N.
    + rewrite doSend_sentPackets, doSend_heap. simpl.
      unfold SentBuffer.contains. simpl.
      destruct (decide (SentBuffer.slotOf (SentBuffer.nextSeqNum (m_sentPackets c))
                        = SentBuffer.slotOf s)) as [Heq|Hne].
      * rewrite Heq, lookup_insert_eq. simpl. rewrite seqOf_heapSet.
        destruct (decide (packet e = packet e)); [|congruence]. simpl.
        apply Z.eqb_neq.
        destruct Hwf as [Hn Hwf]. destruct (Hwf _ _ Hk) as (Hr & _ & Hw).
        rewrite Hs in Hr, Hw. clear - Hn Hr Hw. euclid.
      * rewrite lookup_insert_ne by exact Hne. now rewrite lookup_delete_eq.
    + simpl. rewrite contains_delete by exact Hc.
      rewrite Z.eqb_refl. apply andb_false_r.
  - unfold removeUndeliveredPacket. rewrite Hc. exact Hc.
Qed.



(** ** The resend budget *)

Lemma resendCount_app p tr evs :
  resendCount p (tr ++ evs) = (resendCount p tr + resendCount p evs)%nat.
Proof. unfold resendCount. now rewrite filter_app, length_app. Qed.

Lemma resendCount_resend p q r :
  resendCount p [EvResend q r] = if decide (q = p) then 1%nat else 0%nat.
Proof.
  unfold resendCount. rewrite filter_cons. simpl.
  destruct (decide (q = p)) as [Heq|Hne].
  - rewrite (bool_decide_eq_true_2 _ Heq).
    destruct (decide (true = true)); [reflexivity|congruence].
  - rewrite (bool_decide_eq_false_2 _ Hne).
    destruct (decide (false = true)); [congruence|reflexivity].
Qed.

Lemma budgetInBuffer_delete p b k e n :
  SentBuffer.slots b !! k = Some e ->
  budgetInBuffer p b
  = (budgetOf p (packet e) (resendLimit e)
     + budgetInBuffer p (SentBuffer.mk (delete k (SentBuffer.slots b)) n))%nat.
Proof.
  intros Hk. unfold budgetInBuffer.
  rewrite <- (entries_delete b k e n Hk). reflexivity.
Qed.

Lemma budgetInBuffer_delete_absent p b k n :
  SentBuffer.slots b !! k = None ->
  budgetInBuffer p (SentBuffer.mk (delete k (SentBuffer.slots b)) n)
  = budgetInBuffer p b.
Proof.
  intros Hk. unfold budgetInBuffer, SentBuffer.entries. simpl.
  now rewrite delete_id.
Qed.

Lemma budgetInBuffer_insert p b k x n :
  budgetInBuffer p (SentBuffer.mk (<[k := x]> (SentBuffer.slots b)) n)
  = (budgetOf p (packet x) (resendLimit x)
     + budgetInBuffer p (SentBuffer.mk (delete k (SentBuffer.slots b)) n))%nat.
Proof. unfold budgetInBuffer. rewrite entries_insert. reflexivity. Qed.

Lemma budgetInQueue_app p q t :
  budgetInQueue p (q ++ [t])
  = (budgetInQueue p q + budgetOf p (t_packet t) (t_resendLimit t))%nat.
Proof. unfold budgetInQueue. rewrite sum_list_with_app. simpl. lia. Qed.

Lemma budgetOf_pred p q r :
  (0 < r)%N ->
  budgetOf p q r
  = ((if decide (q = p) then 1 else 0) + budgetOf p q (r - 1))%nat.
Proof. intros Hr. unfold budgetOf. destruct (decide (q = p)); lia. Qed.

Lemma budgetOf_zero p q r : (0 <? r)%N = false -> budgetOf p q r = 0%nat.
Proof.
  intros Hr. apply N.ltb_ge in Hr. unfold budgetOf.
  destruct (decide (q = p)); lia.
Qed.

(** [doSend] adds the budget it is given, and what it takes from an evicted
    packet it either marks as a resend and posts again, one less, or the
    packet had none. *)
Lemma doSend_potential p q r c env :
  resendPotential p (doSend q r (c, env))
  = (resendPotential p (c, env) + budgetOf p q r)%nat.
Proof.
  unfold resendPotential, budget.
  rewrite doSend_sentPackets, budgetInBuffer_insert. simpl.
  destruct (SentBuffer.slots (m_sentPackets c)
            !! SentBuffer.slotOf (SentBuffer.nextSeqNum (m_sentPackets c)))
    as [o|] eqn:Hold.
  - rewrite (budgetInBuffer_delete p (m_sentPackets c) _ o
               (uint16 (SentBuffer.nextSeqNum (m_sentPackets c) + 1)) Hold).
    unfold doSend. simpl. rewrite Hold. simpl.
    destruct (0 <? resendLimit o)%N eqn:Hr; simpl.
    + apply N.ltb_lt in Hr. rewrite (budgetOf_pred p _ _ Hr).
      rewrite !resendCount_app, budgetInQueue_app, resendCount_resend. simpl.
      unfold resendCount at 2 3 4. simpl. lia.
    + rewrite (budgetOf_zero p _ _ Hr).
      rewrite !resendCount_app. unfold resendCount at 2 3 4. simpl. lia.
  - rewrite (budgetInBuffer_delete_absent p (m_sentPackets c) _ _ Hold).
    unfold doSend. simpl. rewrite Hold. simpl.
    rewrite !resendCount_app. unfold resendCount at 2 3. simpl. lia.
Qed.

Lemma resendPotential_emit p c env ev :
  isResendOf p ev = false ->
  resendPotential p (c, emit ev env) = resendPotential p (c, env).
Proof.
  intros Hev. unfold resendPotential, budget. simpl.
  rewrite resendCount_app. unfold resendCount at 2. rewrite filter_cons.
  destruct (decide (isResendOf p ev = true)); [congruence|]. simpl. lia.
Qed.

Lemma removeUndeliveredPacket_potential p s c env :
  resendPotential p (removeUndeliveredPacket s (c, env))
  = resendPotential p (c, env).
Proof.
  destruct (SentBuffer.contains (heap env) (m_sentPackets c) s) eqn:Hc.
  - destruct (removeUndeliveredPacket_present _ _ _ Hc) as (e & Hk & Hs & ->).
    cbv zeta. destruct (0 <? resendLimit e)%N eqn:Hr.
    + rewrite doSend_potential. apply N.ltb_lt in Hr.
      unfold resendPotential, budget. simpl.
      rewrite (budgetInBuffer_delete p (m_sentPackets c) _ e
                 (SentBuffer.nextSeqNum (m_sentPackets c)) Hk).
      rewrite (budgetOf_pred p _ _ Hr), resendCount_app, resendCount_resend.
      lia.
    + unfold resendPotential, budget. simpl.
      rewrite (budgetInBuffer_delete p (m_sentPackets c) _ e
                 (SentBuffer.nextSeqNum (m_sentPackets c)) Hk).
      rewrite (budgetOf_zero p _ _ Hr). lia.
  - unfold removeUndeliveredPacket. now rewrite Hc.
Qed.

Lemma confirmPacketDelivery_potential p s c env :
  (resendPotential p (confirmPacketDelivery s (c, env))
   <= resendPotential p (c, env))%nat.
Proof.
  destruct (SentBuffer.contains (heap env) (m_sentPackets c) s) eqn:Hc.
  - destruct (confirmPacketDelivery_present _ _ _ Hc) as (e & Hk & Hs & ->).
    unfold resendPotential, budget. simpl.
    rewrite (budgetInBuffer_delete p (m_sentPackets c) _ e
               (SentBuffer.nextSeqNum (m_sentPackets c)) Hk).
    rewrite resendCount_app. unfold resendCount at 2. simpl. lia.
  - unfold confirmPacketDelivery. now rewrite Hc.
Qed.

Lemma confirm_phase_potential p l : forall st,
  (resendPotential p (fold_left (fun st' s => confirmPacketDelivery s st') l st)
   <= resendPotential p st)%nat.
Proof.
  induction l as [|s l IH]; intros [c env]; simpl; [lia|].
  etransitivity; [apply IH|]. apply confirmPacketDelivery_potential.
Qed.

Lemma lossLoop_potential p minSeqNum minTime fuel : forall st st',
  lossLoop fuel minSeqNum minTime st = Some st' ->
  resendPotential p st' = resendPotential p st.
Proof.
  induction fuel as [|fuel IH]; intros [c env] st'; rewrite lossLoop_unfold; simpl.
  - destruct (SentBuffer.empty (m_sentPackets c)); [now intros [= <-]|].
    destruct (_ || _); [discriminate|now intros [= <-]].
  - destruct (SentBuffer.empty (m_sentPackets c)); [now intros [= <-]|].
    destruct (_ || _); [|now intros [= <-]].
    intros Hrun. apply IH in Hrun. rewrite Hrun.
    apply removeUndeliveredPacket_potential.
Qed.

Lemma processPeerAcks_potential p fuel peerAck st st' :
  processPeerAcks fuel peerAck st = Some st' ->
  (resendPotential p st' <= resendPotential p st)%nat.
Proof.
  unfold processPeerAcks. intros Hrun.
  apply (lossLoop_potential p) in Hrun. rewrite Hrun.
  apply confirm_phase_potential.
Qed.

Lemma resendPotential_ext p c env c' env' :
  m_sentPackets c' = m_sentPackets c ->
  posted env' = posted env ->
  resendCount p (trace env') = resendCount p (trace env) ->
  resendPotential p (c', env') = resendPotential p (c, env).
Proof.
  intros Hs Hp Ht. unfold resendPotential, budget. simpl.
  now rewrite Hs, Hp, Ht.
Qed.

Lemma resendCount_log p tr l msg :
  resendCount p (tr ++ [EvLog l msg]) = resendCount p tr.
Proof. rewrite resendCount_app. unfold resendCount at 2. simpl. lia. Qed.

Lemma handleReceive_potential p fuel q st st' :
  handleReceive fuel q st = Some st' ->
  (resendPotential p st' <= resendPotential p st)%nat.
Proof.
  destruct st as [c env]. unfold handleReceive.
  destruct (processPeerAcks fuel _ _) as [[c2 env2]|] eqn:Hacks; [|discriminate].
  apply (processPeerAcks_potential p) in Hacks.
  match type of Hacks with
  | (_ <= resendPotential p ?x)%nat =>
      assert (Hstart : resendPotential p x = resendPotential p (c, env))
        by (apply resendPotential_ext;
            [reflexivity|reflexivity|apply resendCount_log]);
      rewrite Hstart in Hacks
  end.
  intros Heq.
  assert (Hsame : resendPotential p st' = resendPotential p (c2, env2)).
  { revert Heq. unfold RecvBuffer.insert.
    destruct (RecvBuffer.slots (m_recvPackets c2)
              !! RecvBuffer.slotOf (seqOf (heap env2) q)) as [o|];
      [destruct (seqOf (heap env2) o =? seqOf (heap env2) q)|];
      intros [= <-]; apply resendPotential_ext; simpl;
      rewrite ?resendCount_log; reflexivity. }
  lia.
Qed.

Lemma handleSend_potential p q error st :
  resendPotential p (handleSend q error st) = resendPotential p st.
Proof.
  destruct st as [c env]. unfold handleSend.
  destruct (bool_decide (error <> 0)).
  - pose proof (removeUndeliveredPacket_potential p
                  (seqOf (heap (log LogTrace "[+] Connection::handleSend" env)) q) c
                  (notifyObservers (onError (m_peer c) error)
                     (log LogTrace "[+] Connection::handleSend" env))) as Hpot.
    destruct (removeUndeliveredPacket _ _) as [c2 env2].
    unfold log. rewrite resendPotential_emit by reflexivity. rewrite Hpot.
    unfold notifyObservers, log. now rewrite !resendPotential_emit by reflexivity.
  - unfold log. now rewrite !resendPotential_emit by reflexivity.
Qed.

Lemma dispatchReceivedPackets_potential p fuel : forall st st',
  dispatchReceivedPackets fuel st = Some st' ->
  resendPotential p st' = resendPotential p st.
Proof.
  induction fuel as [|fuel IH]; intros [c env] st'; simpl.
  - destruct (RecvBuffer.empty (m_recvPackets c)); [now intros [= <-]|discriminate].
  - destruct (RecvBuffer.empty (m_recvPackets c)); [now intros [= <-]|].
    destruct (RecvBuffer.removeLast (heap env) (m_recvPackets c)) as [[q|] rb];
      intros Hrun; apply IH in Hrun; rewrite Hrun.
    + now rewrite resendPotential_emit by reflexivity.
    + reflexivity.
Qed.

Arguments handleSend : simpl never.
Arguments handleReceive : simpl never.

Lemma step_potential p a st st' :
  isAsyncSendOf p a = false ->
  step a st = Some st' ->
  (resendPotential p st' <= resendPotential p st)%nat.
Proof.
  destruct st as [c env]. destruct a as [q r| |q error|fuel q|fuel|v|dt]; simpl.
  - intros Hq%bool_decide_eq_false [= <-].
    unfold resendPotential, budget. simpl. rewrite budgetInQueue_app. simpl.
    unfold budgetOf. destruct (decide (q = p)); [contradiction|]. lia.
  - intros _. destruct (posted env) as [|t rest] eqn:Hq; intros [= <-]; [lia|].
    rewrite doSend_potential.
    unfold resendPotential, budget. simpl. rewrite Hq. simpl. lia.
  - intros _ [= <-]. now rewrite handleSend_potential.
  - intros _ Hrun. now apply (handleReceive_potential p) in Hrun.
  - intros _ Hrun. now rewrite (dispatchReceivedPackets_potential p _ _ _ Hrun).
  - intros _ [= <-]. reflexivity.
  - intros _ [= <-]. reflexivity.
Qed.

Lemma run_potential p acts : forall st st',
  forallb (fun a => negb (isAsyncSendOf p a)) acts = true ->
  run acts st = Some st' ->
  (resendPotential p st' <= resendPotential p st)%nat.
Proof.
  induction acts as [|a acts IH]; intros st st'; simpl.
  - now intros _ [= <-].
  - intros [Ha Hacts]%andb_true_iff. apply negb_true_iff in Ha.
    destruct (step a st) as [st1|] eqn:Hstep; [|discriminate].
    intros Hrun. etransitivity; [eapply IH; eauto|].
    eapply step_potential; eauto.
Qed.

(** C3.  A packet that [doSend] stores with resend budget [k], and for which
    nothing was outstanding before, is resent at most [k] times, whatever
    the connection goes through afterwards (jobs run, sends complete with
    or without error, packets arrive, time passes), as long as the
    application does not send the same packet again: every resend, from
    eviction in [doSend], from a failed send in [handleSend] or from loss
    detection in [removeUndeliveredPacket], passes [resendLimit - 1] and
    happens only when [resendLimit > 0]. *)
Theorem resend_budget_bound (p : PacketPtr) (k : N) (st0 : St)
    (acts : list Action) (st' : St) :
  budget p st0 = 0%nat ->
  forallb (fun a => negb (isAsyncSendOf p a)) acts = true ->
  run acts (doSend p k st0) = Some st' ->
  (resendCount p (trace st'.2) <= resendCount p (trace st0.2) + N.to_nat k)%nat.
Proof.
  intros Hzero Hacts Hrun.
  pose proof (run_potential p acts _ _ Hacts Hrun) as Hpot.
  destruct st0 as [c env]. rewrite doSend_potential in Hpot.
  unfold resendPotential in Hpot at 2. rewrite Hzero in Hpot.
  unfold resendPotential, budgetOf in Hpot.
  destruct (decide (p = p)); [|congruence]. simpl in *. lia.
Qed.

Lemma resend_budget_bound_witness :
  exists st',
    run resendActs (doSend 1%positive 2 freshSt) = Some st' /\
    (resendCount 1%positive (trace st'.2)
     <= resendCount 1%positive (trace freshSt.2) + N.to_nat 2)%nat.
Proof.
  destruct (run resendActs (doSend 1%positive 2 freshSt)) as [st'|] eqn:Hrun.
  - exists st'. split; [reflexivity|].
    apply (resend_budget_bound 1%positive 2 freshSt resendActs st').
    + vm_compute. reflexivity.
    + reflexivity.
    + exact Hrun.
  - assert (Hsome : match run resendActs (doSend 1%positive 2 freshSt) with
                    | Some _ => true
                    | None => false
                    end = true) by (vm_compute; reflexivity).
    rewrite Hrun in Hsome. discriminate.
Defined.

(** ** Draining the receive buffer *)

Lemma wf_recvb_sound h b : wf_recvb h b = true -> wf_recv h b.
Proof.
  unfold wf_recvb. intros Hall k p Hk. rewrite forallb_forall in Hall.
  assert (Hin : In (k, p) (map_to_list (RecvBuffer.slots b)))
    by (apply list_elem_of_In; now apply elem_of_map_to_list).
  apply Hall in Hin. simpl in Hin.
  rewrite !andb_true_iff, Z.leb_le, Z.ltb_lt, Z.eqb_eq in Hin. tauto.
Qed.

Lemma recv_empty_true b : RecvBuffer.empty b = true <-> RecvBuffer.slots b = ∅.
Proof. unfold RecvBuffer.empty. apply bool_decide_eq_true. Qed.

Lemma recv_empty_false b :
  RecvBuffer.empty b = false <-> map_to_list (RecvBuffer.slots b) <> [].
Proof.
  unfold RecvBuffer.empty. rewrite bool_decide_eq_false.
  now rewrite map_to_list_empty_iff.
Qed.

(** On a non-empty buffer [removeLast] takes out one occupant, chosen by
    the scan for the oldest seqnum. *)
Lemma removeLast_nonempty h b :
  RecvBuffer.empty b = false ->
  exists k p,
    RecvBuffer.slots b !! k = Some p /\
    oldestOf (fun kp : Z * PacketPtr => seqOf h kp.2)
             (map_to_list (RecvBuffer.slots b)) = Some (k, p) /\
    RecvBuffer.removeLast h b
    = (Some p, RecvBuffer.mk (delete k (RecvBuffer.slots b))).
Proof.
  intros Hne%recv_empty_false.
  destruct (oldestOf_nonempty (fun kp : Z * PacketPtr => seqOf h kp.2) _ Hne)
    as [[k p] Hold].
  exists k, p. split; [|split; [exact Hold|]].
  - apply oldestOf_elem in Hold. now apply elem_of_map_to_list in Hold.
  - unfold RecvBuffer.removeLast. now rewrite Hold.
Qed.

Lemma dispatchReceivedPackets_unfold fuel st :
  dispatchReceivedPackets fuel st
  = if RecvBuffer.empty (m_recvPackets st.1) then Some st
    else
      match fuel with
      | O => None
      | S fuel' =>
          let '(p, rb) := RecvBuffer.removeLast (heap st.2) (m_recvPackets st.1) in
          dispatchReceivedPackets fuel'
            (setRecvPackets rb st.1,
             match p with
             | Some q => emit (EvDispatch (m_peer st.1) q) st.2
             | None => st.2
             end)
      end.
Proof. destruct fuel; reflexivity. Qed.

Lemma wf_recv_delete h b k :
  wf_recv h b -> wf_recv h (RecvBuffer.mk (delete k (RecvBuffer.slots b))).
Proof.
  intros Hwf k' p Hk'. simpl in Hk'.
  apply lookup_delete_Some in Hk' as [_ Hk']. eauto.
Qed.

Lemma recvWithin_delete base h b k :
  recvWithin base h b ->
  recvWithin base h (RecvBuffer.mk (delete k (RecvBuffer.slots b))).
Proof.
  intros Hwin k' p Hk'. simpl in Hk'.
  apply lookup_delete_Some in Hk' as [_ Hk']. eauto.
Qed.

(** Within half the circle, the occupant [removeLast] picks is circularly
    older than every other occupant. *)
Lemma removeLast_oldest base h b k p k' p' :
  wf_recv h b -> recvWithin base h b ->
  oldestOf (fun kp : Z * PacketPtr => seqOf h kp.2)
           (map_to_list (RecvBuffer.slots b)) = Some (k, p) ->
  RecvBuffer.slots b !! k = Some p ->
  RecvBuffer.slots b !! k' = Some p' -> k' <> k ->
  moreRecentSeqNum (seqOf h p') (seqOf h p) = true.
Proof.
  intros Hwf Hwin Hold Hk Hk' Hne.
  assert (Hlin : forall a c : Z * PacketPtr,
            a ∈ map_to_list (RecvBuffer.slots b) ->
            c ∈ map_to_list (RecvBuffer.slots b) ->
            (moreRecentSeqNum (seqOf h a.2) (seqOf h c.2) = true <->
             uint16 (seqOf h c.2 - base) < uint16 (seqOf h a.2 - base))).
  { intros [ka pa] [kc pc] Ha%elem_of_map_to_list Hc%elem_of_map_to_list. simpl.
    destruct (Hwf _ _ Ha) as [? _], (Hwf _ _ Hc) as [? _].
    apply moreRecentSeqNum_within; eauto. }
  assert (Hin' : (k', p') ∈ map_to_list (RecvBuffer.slots b))
    by now apply elem_of_map_to_list.
  pose proof (oldestOf_least (fun kp : Z * PacketPtr => seqOf h kp.2)
                (fun s => uint16 (s - base)) _ (k, p) Hlin Hold (k', p') Hin')
    as Hleast.
  simpl in Hleast.
  destruct (Hwf _ _ Hk) as [Hr Hs], (Hwf _ _ Hk') as [Hr' Hs'].
  pose proof (Hwin _ _ Hk) as Hw. pose proof (Hwin _ _ Hk') as Hw'.
  apply (moreRecentSeqNum_within base); try assumption.
  assert (Hdiff : seqOf h p' <> seqOf h p) by (intros Heq; congruence).
  clear - Hleast Hdiff Hr Hr'. euclid.
Qed.

(** The drain delivers the occupants of the buffer, each once, and leaves
    the buffer empty; within half the circle it delivers them in circular
    order. *)
Lemma dispatchReceivedPackets_spec n : forall c env fuel,
  (size (RecvBuffer.slots (m_recvPackets c)) <= n)%nat -> (n <= fuel)%nat ->
  exists D,
    dispatchReceivedPackets fuel (c, env)
    = Some (setRecvPackets RecvBuffer.initial c,
            {| heap := heap env; clock := clock env; posted := posted env;
               trace := trace env ++ (EvDispatch (m_peer c) <$> D) |}) /\
    D ≡ₚ (map_to_list (RecvBuffer.slots (m_recvPackets c))).*2 /\
    (forall base,
       wf_recv (heap env) (m_recvPackets c) ->
       recvWithin base (heap env) (m_recvPackets c) ->
       StronglySorted
         (fun a b => moreRecentSeqNum (seqOf (heap env) b) (seqOf (heap env) a)
                     = true) D).
Proof.
  induction n as [|n IH]; intros c env fuel Hsize Hfuel;
    rewrite dispatchReceivedPackets_unfold; cbn [fst snd];
    destruct (RecvBuffer.empty (m_recvPackets c)) eqn:Hem.
  1, 3: (exists []; apply recv_empty_true in Hem;
         split; [|split; [rewrite Hem, map_to_list_empty; reflexivity
                         |intros; constructor]];
         destruct c as [? ? ? ? ? ? ? ? ? [m]], env; simpl in *; subst;
         now rewrite app_nil_r).
  - exfalso. apply recv_empty_false in Hem. apply Hem.
    apply map_to_list_empty_iff, map_size_empty_iff. lia.
  - destruct fuel as [|fuel]; [lia|].
    destruct (removeLast_nonempty (heap env) _ Hem) as (k & p & Hk & Hold & ->).
    assert (Hsize' : (size (delete k (RecvBuffer.slots (m_recvPackets c))) <= n)%nat).
    { rewrite map_size_delete, Hk. lia. }
    destruct (IH (setRecvPackets
                    (RecvBuffer.mk (delete k (RecvBuffer.slots (m_recvPackets c)))) c)
                 (emit (EvDispatch (m_peer c) p) env) fuel Hsize' ltac:(lia))
      as (D & Hrun & Hperm & Hsorted).
    exists (p :: D). split; [|split].
    + rewrite Hrun. simpl. now rewrite <- app_assoc.
    + simpl in Hperm. rewrite Hperm.
      rewrite <- (map_to_list_delete _ _ _ Hk). reflexivity.
    + intros base Hwf Hwin. constructor.
      * apply (Hsorted base); simpl.
        -- now apply wf_recv_delete.
        -- now apply recvWithin_delete.
      * apply Forall_forall. intros p' Hp'.
        rewrite Hperm in Hp'. simpl in Hp'.
        apply list_elem_of_fmap in Hp' as ([k' p''] & -> & Hin).
        apply elem_of_map_to_list, lookup_delete_Some in Hin as [Hne Hk'].
        eapply (removeLast_oldest base); eauto.
Qed.

Lemma handleReceive_buffers fuel p st st' :
  handleReceive fuel p st = Some st' ->
  RecvBuffer.slots (m_recvPackets st'.1)
    !! RecvBuffer.slotOf (seqOf (heap st'.2) p) = Some p.
Proof.
  destruct st as [c env]. unfold handleReceive.
  destruct (processPeerAcks fuel _ _) as [[c2 env2]|]; [|discriminate].
  unfold RecvBuffer.insert.
  destruct (RecvBuffer.slots (m_recvPackets c2)
            !! RecvBuffer.slotOf (seqOf (heap env2) p)) as [o|];
    [destruct (seqOf (heap env2) o =? seqOf (heap env2) p)|];
    intros [= <-]; simpl; apply lookup_insert_eq.
Qed.

Lemma NoDup_buffered_seqnums h b :
  wf_recv h b ->
  NoDup (seqOf h <$> (map_to_list (RecvBuffer.slots b)).*2).
Proof.
  intros Hwf. apply (NoDup_fmap_1 RecvBuffer.slotOf).
  assert (Heq : RecvBuffer.slotOf <$> (seqOf h <$> (map_to_list (RecvBuffer.slots b)).*2)
                = (map_to_list (RecvBuffer.slots b)).*1).
  { assert (Hall : forall kp, kp ∈ map_to_list (RecvBuffer.slots b) ->
                              kp.1 = RecvBuffer.slotOf (seqOf h kp.2)).
    { intros [k p] Hin%elem_of_map_to_list. now apply Hwf in Hin. }
    induction (map_to_list (RecvBuffer.slots b)) as [|kp l IH]; [reflexivity|].
    rewrite !fmap_cons. f_equal.
    - symmetry. apply Hall, list_elem_of_here.
    - apply IH. intros kp' Hin. apply Hall. now apply list_elem_of_further. }
  rewrite Heq. apply NoDup_fst_map_to_list.
Qed.

Lemma NoDup_fmap_eq {A B} (f : A -> B) (l : list A) x y :
  NoDup (f <$> l) -> x ∈ l -> y ∈ l -> f x = f y -> x = y.
Proof.
  induction l as [|z l IH]; intros Hnd Hx Hy Hf; [inversion Hx|].
  rewrite fmap_cons in Hnd. apply NoDup_cons in Hnd as [Hz Hnd].
  apply elem_of_cons in Hx as [->|Hx]; apply elem_of_cons in Hy as [->|Hy].
  - reflexivity.
  - exfalso. apply Hz. rewrite Hf. apply list_elem_of_fmap. eauto.
  - exfalso. apply Hz. rewrite <- Hf. apply list_elem_of_fmap. eauto.
  - now apply IH.
Qed.

(** C2 as stated fails twice.  Of two datagrams with seqnum 7 the drain
    delivers the second, packet 2, since [insert] overwrites the first.
    And seqnums a third of the circle apart (0, 21846, 43692) have no
    circular order: the drain delivers 43692 last, which is not
    circular-greater than 0 delivered first. *)
Lemma dispatch_duplicate_and_order :
  seqOf (heap duplicateSt.2) 1%positive = 7 /\
  seqOf (heap duplicateSt.2) 2%positive = 7 /\
  (fun st : St => dispatchedIn (trace st.2))
    <$> run [ActReceive 0 1%positive; ActReceive 0 2%positive; ActDispatch 1]
            duplicateSt
  = Some [2%positive] /\
  (fun st : St => seqOf (heap st.2) <$> dispatchedIn (trace st.2))
    <$> run [ActReceive 0 1%positive; ActReceive 0 2%positive;
             ActReceive 0 3%positive; ActDispatch 3] spreadSt
  = Some [0; 21846; 43692] /\
  moreRecentSeqNum 43692 0 = false.
Proof. split; [|split; [|split; [|split]]]; vm_compute; reflexivity. Qed.

(** ** The invariant of a connection *)

Lemma sum_entries_delete (f : PacketExt -> nat) b k e n :
  SentBuffer.slots b !! k = Some e ->
  sum_list_with f (SentBuffer.entries b)
  = (f e + sum_list_with f
             (SentBuffer.entries
                (SentBuffer.mk (delete k (SentBuffer.slots b)) n)))%nat.
Proof. intros Hk. rewrite <- (entries_delete b k e n Hk). reflexivity. Qed.

Lemma sum_entries_delete_le (f : PacketExt -> nat) b k n :
  (sum_list_with f
     (SentBuffer.entries (SentBuffer.mk (delete k (SentBuffer.slots b)) n))
   <= sum_list_with f (SentBuffer.entries b))%nat.
Proof.
  destruct (SentBuffer.slots b !! k) as [e|] eqn:Hk.
  - rewrite (sum_entries_delete f b k e n Hk). lia.
  - unfold SentBuffer.entries. simpl. now rewrite delete_id.
Qed.

Lemma sum_entries_insert (f : PacketExt -> nat) b k x n :
  sum_list_with f
    (SentBuffer.entries (SentBuffer.mk (<[k := x]> (SentBuffer.slots b)) n))
  = (f x + sum_list_with f
             (SentBuffer.entries
                (SentBuffer.mk (delete k (SentBuffer.slots b)) n)))%nat.
Proof. rewrite entries_insert. reflexivity. Qed.

Lemma sum_entries_zero (f : PacketExt -> nat) b k e :
  sum_list_with f (SentBuffer.entries b) = 0%nat ->
  SentBuffer.slots b !! k = Some e -> f e = 0%nat.
Proof.
  intros Hsum Hk.
  rewrite (sum_entries_delete f b k e (SentBuffer.nextSeqNum b) Hk) in Hsum. lia.
Qed.

(** [doSend] holds one more packet, the one it is given; an evicted packet
    moves to the job queue or is dropped. *)
Lemma doSend_occurrences p q r c env :
  (occurrences p (doSend q r (c, env))
   <= occurrences p (c, env) + (if decide (q = p) then 1 else 0))%nat.
Proof.
  unfold occurrences. rewrite doSend_sentPackets, sum_entries_insert. simpl.
  destruct (SentBuffer.slots (m_sentPackets c)
            !! SentBuffer.slotOf (SentBuffer.nextSeqNum (m_sentPackets c)))
    as [o|] eqn:Hold.
  - rewrite (sum_entries_delete _ (m_sentPackets c) _ o
               (uint16 (SentBuffer.nextSeqNum (m_sentPackets c) + 1)) Hold).
    unfold doSend. simpl. rewrite Hold. simpl.
    destruct (0 <? resendLimit o)%N; simpl.
    + rewrite sum_list_with_app. simpl. lia.
    + lia.
  - pose proof (sum_entries_delete_le
                  (fun e => if decide (packet e = p) then 1 else 0)%nat
                  (m_sentPackets c)
                  (SentBuffer.slotOf (SentBuffer.nextSeqNum (m_sentPackets c)))
                  (uint16 (SentBuffer.nextSeqNum (m_sentPackets c) + 1))).
    unfold doSend. simpl. rewrite Hold. simpl. lia.
Qed.

Lemma removeUndeliveredPacket_occurrences p s c env :
  (occurrences p (removeUndeliveredPacket s (c, env)) <= occurrences p (c, env))%nat.
Proof.
  destruct (SentBuffer.contains (heap env) (m_sentPackets c) s) eqn:Hc.
  - destruct (removeUndeliveredPacket_present _ _ _ Hc) as (e & Hk & Hs & ->).
    cbv zeta. destruct (0 <? resendLimit e)%N.
    + etransitivity; [apply doSend_occurrences|].
      unfold occurrences. simpl.
      rewrite (sum_entries_delete _ (m_sentPackets c) _ e
                 (SentBuffer.nextSeqNum (m_sentPackets c)) Hk). lia.
    + unfold occurrences. simpl.
      rewrite (sum_entries_delete _ (m_sentPackets c) _ e
                 (SentBuffer.nextSeqNum (m_sentPackets c)) Hk). lia.
  - unfold removeUndeliveredPacket. rewrite Hc. lia.
Qed.

Lemma confirmPacketDelivery_occurrences p s c env :
  (occurrences p (confirmPacketDelivery s (c, env)) <= occurrences p (c, env))%nat.
Proof.
  destruct (SentBuffer.contains (heap env) (m_sentPackets c) s) eqn:Hc.
  - destruct (confirmPacketDelivery_present _ _ _ Hc) as (e & Hk & Hs & ->).
    unfold occurrences. simpl.
    rewrite (sum_entries_delete _ (m_sentPackets c) _ e
               (SentBuffer.nextSeqNum (m_sentPackets c)) Hk). lia.
  - unfold confirmPacketDelivery. rewrite Hc. lia.
Qed.

Lemma removeUndeliveredPacket_inv s st :
  connInv st -> connInv (removeUndeliveredPacket s st).
Proof.
  destruct st as [c env]. intros [Hwf Hocc]. split.
  - now apply removeUndeliveredPacket_wf.
  - intros p. etransitivity; [apply removeUndeliveredPacket_occurrences|apply Hocc].
Qed.

Lemma confirmPacketDelivery_inv s st :
  connInv st -> connInv (confirmPacketDelivery s st).
Proof.
  destruct st as [c env]. intros [Hwf Hocc]. split.
  - now apply confirmPacketDelivery_wf.
  - intros p. etransitivity; [apply confirmPacketDelivery_occurrences|apply Hocc].
Qed.

Lemma lossLoop_inv minSeqNum minTime fuel : forall st st',
  connInv st -> lossLoop fuel minSeqNum minTime st = Some st' -> connInv st'.
Proof.
  induction fuel as [|fuel IH]; intros st st' Hinv; rewrite lossLoop_unfold.
  - destruct (SentBuffer.empty _); [now intros [= <-]|].
    destruct (_ || _); [discriminate|now intros [= <-]].
  - destruct (SentBuffer.empty _); [now intros [= <-]|].
    destruct (_ || _); [|now intros [= <-]].
    apply IH. now apply removeUndeliveredPacket_inv.
Qed.

Lemma processPeerAcks_inv fuel peerAck st st' :
  connInv st -> processPeerAcks fuel peerAck st = Some st' -> connInv st'.
Proof.
  unfold processPeerAcks. intros Hinv. apply lossLoop_inv.
  generalize (AckField.forEachAckedSeqNum peerAck). intros l.
  revert st Hinv. induction l as [|s l IH]; intros st Hinv; simpl; [exact Hinv|].
  apply IH. now apply confirmPacketDelivery_inv.
Qed.

(** The invariant looks at the packets, the sent buffer and the job queue
    only. *)
Lemma connInv_ext c env c' env' :
  heap env' = heap env -> posted env' = posted env ->
  m_sentPackets c' = m_sentPackets c ->
  connInv (c, env) -> connInv (c', env').
Proof.
  intros Hh Hp Hs [Hwf Hocc]. unfold connInv, occurrences in *. simpl in *.
  rewrite Hh, Hp, Hs. auto.
Qed.

Lemma handleReceive_inv fuel q st st' :
  connInv st -> handleReceive fuel q st = Some st' -> connInv st'.
Proof.
  destruct st as [c env]. intros Hinv. unfold handleReceive.
  destruct (processPeerAcks fuel _ _) as [[c2 env2]|] eqn:Hacks; [|discriminate].
  apply processPeerAcks_inv in Hacks;
    [|eapply connInv_ext; [| | |exact Hinv]; reflexivity].
  unfold RecvBuffer.insert.
  destruct (RecvBuffer.slots (m_recvPackets c2)
            !! RecvBuffer.slotOf (seqOf (heap env2) q)) as [o|];
    [destruct (seqOf (heap env2) o =? seqOf (heap env2) q)|];
    intros [= <-]; (eapply connInv_ext; [| | |exact Hacks]; reflexivity).
Qed.

Lemma handleSend_inv q error st : connInv st -> connInv (handleSend q error st).
Proof.
  destruct st as [c env]. intros Hinv. unfold handleSend.
  destruct (bool_decide (error <> 0)).
  - set (env1 := notifyObservers (onError (m_peer c) error)
                   (log LogTrace "[+] Connection::handleSend" env)).
    assert (Hinv1 : connInv (c, env1))
      by (eapply connInv_ext; [| | |exact Hinv]; reflexivity).
    apply (removeUndeliveredPacket_inv
             (seqOf (heap (log LogTrace "[+] Connection::handleSend" env)) q))
      in Hinv1.
    destruct (removeUndeliveredPacket _ _) as [c2 env2].
    eapply connInv_ext; [| | |exact Hinv1]; reflexivity.
  - eapply connInv_ext; [| | |exact Hinv]; reflexivity.
Qed.

Lemma dispatchReceivedPackets_inv fuel : forall st st',
  connInv st -> dispatchReceivedPackets fuel st = Some st' -> connInv st'.
Proof.
  induction fuel as [|fuel IH]; intros [c env] st' Hinv;
    rewrite dispatchReceivedPackets_unfold; cbn [fst snd]; cbv iota;
    destruct (RecvBuffer.empty (m_recvPackets c)); try (now intros [= <-]).
  destruct (RecvBuffer.removeLast (heap env) (m_recvPackets c)) as [[q|] rb];
    apply IH; (eapply connInv_ext; [| | |exact Hinv]; reflexivity).
Qed.

Lemma doSend_inv q r c env :
  wf_sent (heap env) (m_sentPackets c) ->
  (forall p, (occurrences p (c, env) + (if decide (q = p) then 1 else 0) <= 1)%nat) ->
  connInv (doSend q r (c, env)).
Proof.
  intros Hwf Hocc. split.
  - apply doSend_wf; [exact Hwf|].
    intros k e Hk Heq. specialize (Hocc q).
    destruct (decide (q = q)); [|congruence].
    assert (Hzero : sum_list_with
                      (fun e => if decide (packet e = q) then 1 else 0)%nat
                      (SentBuffer.entries (m_sentPackets c)) = 0%nat)
      by (unfold occurrences in Hocc; simpl in Hocc; lia).
    pose proof (sum_entries_zero _ _ _ _ Hzero Hk) as He. simpl in He.
    destruct (decide (packet e = q)); [discriminate|contradiction].
  - intros p. etransitivity; [apply doSend_occurrences|apply Hocc].
Qed.

Lemma step_inv a st st' :
  connInv st -> freshAction a st -> step a st = Some st' -> connInv st'.
Proof.
  destruct st as [c env]. intros Hinv.
  destruct a as [q r| |q error|fuel q|fuel|v|dt]; simpl.
  - intros Hfresh [= <-]. destruct Hinv as [Hwf Hocc]. split; [exact Hwf|].
    intros p. unfold occurrences in *. simpl in *.
    rewrite sum_list_with_app. simpl.
    destruct (decide (q = p)) as [->|_]; [lia|].
    specialize (Hocc p). lia.
  - intros _. destruct (posted env) as [|t rest] eqn:Hq; intros [= <-];
      [exact Hinv|].
    destruct Hinv as [Hwf Hocc]. apply doSend_inv; [exact Hwf|].
    intros p. specialize (Hocc p). unfold occurrences in *. simpl in *.
    rewrite Hq in Hocc. simpl in Hocc.
    destruct (decide (t_packet t = p)); lia.
  - intros _ [= <-]. now apply handleSend_inv.
  - intros _. now apply handleReceive_inv.
  - intros _. now apply dispatchReceivedPackets_inv.
  - intros _ [= <-]. eapply connInv_ext; [| | |exact Hinv]; reflexivity.
  - intros _ [= <-]. eapply connInv_ext; [| | |exact Hinv]; reflexivity.
Qed.

(** A connection that starts with an empty sent buffer and no jobs
    satisfies the invariant, and keeps it whatever happens to it, as long
    as the application sends packets the connection does not hold
    already. *)
Lemma newConnection_inv peer env :
  posted env = [] -> connInv (newConnection peer, env).
Proof.
  intros Hq. split.
  - split; simpl; [lia|]. intros k e Hk. now rewrite lookup_empty in Hk.
  - intros p. unfold occurrences. simpl. rewrite Hq. simpl.
    unfold SentBuffer.entries. simpl. rewrite map_to_list_empty. simpl. lia.
Qed.

Lemma run_inv acts : forall st st',
  connInv st -> freshRun acts st -> run acts st = Some st' -> connInv st'.
Proof.
  induction acts as [|a acts IH]; intros st st' Hinv; simpl.
  - now intros _ [= <-].
  - intros [Hfresh Hrest].
    destruct (step a st) as [st1|] eqn:Hstep; [|discriminate].
    apply IH; [|exact Hrest]. eapply step_inv; eauto.
Qed.

(** In particular the sent buffer is well formed in every state a fresh
    connection reaches. *)
Lemma reachable_wf_sent peer env acts st :
  posted env = [] ->
  freshRun acts (newConnection peer, env) ->
  run acts (newConnection peer, env) = Some st ->
  wf_sent (heap st.2) (m_sentPackets st.1).
Proof.
  intros Hq Hfresh Hrun.
  apply (run_inv acts (newConnection peer, env) st); auto.
  now apply newConnection_inv.
Qed.


(** * Further properties of the connection *)

(** ** What the send side leaves alone *)

Lemma transmittedIn_app tr1 tr2 :
  transmittedIn (tr1 ++ tr2) = transmittedIn tr1 ++ transmittedIn tr2.
Proof. apply omap_app. Qed.

Lemma notifiedIn_app tr1 tr2 :
  notifiedIn (tr1 ++ tr2) = notifiedIn tr1 ++ notifiedIn tr2.
Proof. apply omap_app. Qed.

Lemma dispatchedIn_app tr1 tr2 :
  dispatchedIn (tr1 ++ tr2) = dispatchedIn tr1 ++ dispatchedIn tr2.
Proof. apply omap_app. Qed.

Lemma resendsIn_app tr1 tr2 :
  resendsIn (tr1 ++ tr2) = resendsIn tr1 ++ resendsIn tr2.
Proof. apply omap_app. Qed.

Lemma sendSide_refl st : sendSide st st.
Proof.
  unfold sendSide. repeat (split; [reflexivity|]).
  exists []. split; [now rewrite app_nil_r|reflexivity].
Qed.

Lemma sendSide_trans st1 st2 st3 :
  sendSide st1 st2 -> sendSide st2 st3 -> sendSide st1 st3.
Proof.
  intros (H1 & H2 & H3 & H4 & H5 & H6 & H7 & H8 & H9 & l1 & Ht1 & Hc1)
         (K1 & K2 & K3 & K4 & K5 & K6 & K7 & K8 & K9 & l2 & Ht2 & Hc2).
  unfold sendSide. repeat (split; [congruence|]).
  exists (l1 ++ l2). split.
  - rewrite Ht2, Ht1. now rewrite app_assoc.
  - rewrite Hc2, Hc1, length_app, Nat.add_comm. symmetry. apply Nat.iter_add.
Qed.

(** A trace grown by log lines and resend marks only. *)
Lemma sendSide_quiet c env c' env' evs :
  m_peer c' = m_peer c -> m_isDead c' = m_isDead c ->
  m_recvCount c' = m_recvCount c -> m_recvTime c' = m_recvTime c ->
  m_ack c' = m_ack c -> m_recvPackets c' = m_recvPackets c ->
  m_sentCount c' = m_sentCount c ->
  clock env' = clock env ->
  trace env' = trace env ++ evs ->
  transmittedIn evs = [] -> notifiedIn evs = [] -> dispatchedIn evs = [] ->
  sendSide (c, env) (c', env').
Proof.
  intros H1 H2 H3 H4 H5 H6 H7 H8 Htr Ht Hn Hd. unfold sendSide. simpl.
  repeat (split; [assumption|]).
  rewrite Htr, transmittedIn_app, notifiedIn_app, dispatchedIn_app, Ht, Hn, Hd.
  rewrite !app_nil_r. repeat (split; [reflexivity|]).
  exists []. split; [now rewrite app_nil_r|exact H7].
Qed.

Lemma doSend_sendSide q r st : sendSide st (doSend q r st).
Proof.
  destruct st as [c env]. unfold sendSide.
  doSend_cases c;
    repeat (split; [first [reflexivity
                          | unfold notifiedIn, dispatchedIn;
                            rewrite !omap_app; simpl;
                            now rewrite ?app_nil_r]|]);
    (exists [q]; split; [|reflexivity]);
    unfold transmittedIn; rewrite !omap_app; simpl;
    now rewrite ?app_nil_r, <- ?app_assoc.
Qed.

Lemma removeUndeliveredPacket_sendSide s st :
  sendSide st (removeUndeliveredPacket s st).
Proof.
  destruct st as [c env].
  destruct (SentBuffer.contains (heap env) (m_sentPackets c) s) eqn:Hc.
  - destruct (removeUndeliveredPacket_present _ _ _ Hc) as (e & _ & _ & ->).
    cbv zeta. destruct (0 <? resendLimit e)%N.
    + eapply sendSide_trans; [|apply doSend_sendSide].
      apply (sendSide_quiet c env _ _ [EvResend (packet e) (resendLimit e - 1)]);
        reflexivity.
    + apply (sendSide_quiet c env _ _ []); try reflexivity.
      simpl. now rewrite app_nil_r.
  - unfold removeUndeliveredPacket. rewrite Hc. apply sendSide_refl.
Qed.

Lemma confirmPacketDelivery_sendSide s st :
  sendSide st (confirmPacketDelivery s st).
Proof.
  destruct st as [c env].
  destruct (SentBuffer.contains (heap env) (m_sentPackets c) s) eqn:Hc.
  - destruct (confirmPacketDelivery_present _ _ _ Hc) as (e & _ & _ & ->).
    apply (sendSide_quiet c env _ _ [EvLog LogDebug "acknowledged packet"]);
      reflexivity.
  - unfold confirmPacketDelivery. rewrite Hc. apply sendSide_refl.
Qed.

Lemma lossLoop_sendSide minSeqNum minTime fuel : forall st st',
  lossLoop fuel minSeqNum minTime st = Some st' -> sendSide st st'.
Proof.
  induction fuel as [|fuel IH]; intros st st'; rewrite lossLoop_unfold.
  - destruct (SentBuffer.empty _); [intros [= <-]; apply sendSide_refl|].
    destruct (_ || _); [discriminate|intros [= <-]; apply sendSide_refl].
  - destruct (SentBuffer.empty _); [intros [= <-]; apply sendSide_refl|].
    destruct (_ || _); [|intros [= <-]; apply sendSide_refl].
    intros Hrun. eapply sendSide_trans; [|apply IH; exact Hrun].
    apply removeUndeliveredPacket_sendSide.
Qed.

Lemma confirm_phase_sendSide l : forall st,
  sendSide st (fold_left (fun st' s => confirmPacketDelivery s st') l st).
Proof.
  induction l as [|s l IH]; intros st; simpl; [apply sendSide_refl|].
  eapply sendSide_trans; [apply confirmPacketDelivery_sendSide|apply IH].
Qed.

Lemma processPeerAcks_sendSide fuel peerAck st st' :
  processPeerAcks fuel peerAck st = Some st' -> sendSide st st'.
Proof.
  unfold processPeerAcks. intros Hrun.
  eapply sendSide_trans; [apply confirm_phase_sendSide|].
  eapply lossLoop_sendSide; eauto.
Qed.

(** ** Sending *)

Lemma doSend_trace q r c env :
  exists evs,
    trace (doSend q r (c, env)).2
    = trace env ++ evs
      ++ [EvSendTo (m_peer c) q
            (stampHeader (SentBuffer.nextSeqNum (m_sentPackets c)) (m_ack c)
               (heap env q));
          EvLog LogDebug "sending packet"] /\
    datagramsIn evs = [].
Proof.
  assert (Hstamp : heapSet q (stampHeader (SentBuffer.nextSeqNum (m_sentPackets c))
                                (m_ack c) (heap env q)) (heap env) q
                   = stampHeader (SentBuffer.nextSeqNum (m_sentPackets c))
                       (m_ack c) (heap env q)).
  { unfold heapSet. destruct (decide (q = q)); [reflexivity|congruence]. }
  doSend_cases c; rewrite Hstamp.
  - exists [EvLog LogWarning "send buffer is full on connection with";
            EvResend (packet o) (resendLimit o - 1)].
    split; [|reflexivity]. now rewrite <- !app_assoc.
  - exists [EvLog LogWarning "send buffer is full on connection with"].
    split; [|reflexivity]. now rewrite <- !app_assoc.
  - exists []. split; [|reflexivity]. now rewrite <- !app_assoc.
Qed.

(** X1.  [doSend] puts the packet into the sent buffer under the seqnum the
    allocator was at: on a well-formed buffer that does not hold the packet
    yet, the seqnums held afterwards are that one and the ones held before,
    except the one 256 back, whose slot the packet takes.  The packet
    carries the seqnum, the allocator moves on by one (mod 2^16), and
    [m_sentCount] goes up by one. *)
Theorem doSend_holds (q : PacketPtr) (r : N) (st : St) :
  wf_sent (heap st.2) (m_sentPackets st.1) ->
  (forall k e, SentBuffer.slots (m_sentPackets st.1) !! k = Some e ->
               packet e <> q) ->
  let n := SentBuffer.nextSeqNum (m_sentPackets st.1) in
  let st' := doSend q r st in
  (forall s, SentBuffer.contains (heap st'.2) (m_sentPackets st'.1) s = true <->
             s = n \/
             (SentBuffer.contains (heap st.2) (m_sentPackets st.1) s = true /\
              s <> uint16 (n - 256))) /\
  seqOf (heap st'.2) q = n /\
  SentBuffer.nextSeqNum (m_sentPackets st'.1) = uint16 (n + 1) /\
  m_sentCount st'.1 = uint64 (m_sentCount st.1 + 1).
Proof.
  destruct st as [c env]. intros Hwf Hfresh n st'. subst n st'.
  cbn [fst snd] in *. rewrite doSend_sentPackets, doSend_heap.
  set (n := SentBuffer.nextSeqNum (m_sentPackets c)) in *.
  split; [|split; [|split]].
  - intros s. unfold SentBuffer.contains at 1. simpl.
    destruct (decide (SentBuffer.slotOf n = SentBuffer.slotOf s)) as [Heq|Hne].
    + rewrite Heq, lookup_insert_eq. simpl. rewrite seqOf_heapSet.
      destruct (decide (q = q)) as [_|Hqq]; [|congruence]. simpl. rewrite Z.eqb_eq.
      split; [auto|]. intros [->|[Hc Hs]]; [reflexivity|]. exfalso.
      apply contains_lookup in Hc as (e & Hk & Hse).
      destruct Hwf as [Hn Hwf]. destruct (Hwf _ _ Hk) as (Hr & _ & Hw).
      rewrite Hse in Hr, Hw. fold n in Hn, Hw. clear - Heq Hs Hn Hr Hw. euclid.
    + rewrite lookup_insert_ne by exact Hne.
      split.
      * destruct (SentBuffer.slots (m_sentPackets c) !! SentBuffer.slotOf s)
          as [e|] eqn:Hk; [|discriminate].
        rewrite seqOf_heapSet.
        destruct (decide (packet e = q)) as [Hq|_]; [now apply Hfresh in Hk|].
        intros Hs. right. split.
        -- unfold SentBuffer.contains. now rewrite Hk.
        -- destruct Hwf as [Hn _]. fold n in Hn.
           apply Z.eqb_eq in Hs. intros ->. apply Hne. clear - Hn. euclid.
      * intros [->|[Hc _]]; [congruence|].
        apply contains_lookup in Hc as (e & Hk & Hse). rewrite Hk.
        rewrite seqOf_heapSet.
        destruct (decide (packet e = q)) as [Hq|_]; [now apply Hfresh in Hk|].
        now apply Z.eqb_eq.
  - rewrite seqOf_heapSet. destruct (decide (q = q)); [reflexivity|congruence].
  - reflexivity.
  - apply doSend_transmits.
Qed.

Lemma doSend_holds_witness :
  (forall s, SentBuffer.contains (heap (doSend 3%positive 1 sentTwoSt).2)
               (m_sentPackets (doSend 3%positive 1 sentTwoSt).1) s = true <->
             s = 2 \/
             (SentBuffer.contains (heap sentTwoSt.2) (m_sentPackets sentTwoSt.1) s
              = true /\ s <> uint16 (2 - 256))) /\
  seqOf (heap (doSend 3%positive 1 sentTwoSt).2) 3%positive = 2.
Proof.
  destruct (doSend_holds 3%positive 1 sentTwoSt) as (H1 & H2 & _).
  - apply wf_sentb_sound. vm_compute. reflexivity.
  - intros k e Hk.
    apply elem_of_map_to_list, list_elem_of_In in Hk.
    evaluate_in (map_to_list (SentBuffer.slots (m_sentPackets sentTwoSt.1))) Hk.
    simpl in Hk.
    repeat (destruct Hk as [Hk|Hk]; [injection Hk as _ <-; discriminate|]).
    destruct Hk.
  - split; [exact H1|exact H2].
Defined.

Lemma datagramsIn_app tr1 tr2 :
  datagramsIn (tr1 ++ tr2) = datagramsIn tr1 ++ datagramsIn tr2.
Proof. apply omap_app. Qed.

Lemma doSend_datagram q r c env :
  datagramsIn (trace (doSend q r (c, env)).2)
  = datagramsIn (trace env)
    ++ [(m_peer c, q,
         stampHeader (SentBuffer.nextSeqNum (m_sentPackets c)) (m_ack c)
           (heap env q))].
Proof.
  destruct (doSend_trace q r c env) as (evs & -> & Hevs).
  rewrite !datagramsIn_app, Hevs. reflexivity.
Qed.

(** X2.  Packets sent one after the other go to the socket in that order,
    each to the peer of the connection, with consecutive seqnums (mod 2^16)
    starting at the allocator's, whatever their resend limits are. *)
Theorem doSend_consecutive (ps : list (PacketPtr * N)) (st : St) :
  0 <= SentBuffer.nextSeqNum (m_sentPackets st.1) < 2 ^ 16 ->
  let st' := fold_left (fun st' pr => doSend pr.1 pr.2 st') ps st in
  exists sent,
    datagramsIn (trace st'.2) = datagramsIn (trace st.2) ++ sent /\
    (fun d : endpoint * PacketPtr * Packet => (d.1.1, d.1.2, seqNum (header d.2)))
      <$> sent
    = imap (fun i pr =>
              (m_peer st.1, pr.1,
               uint16 (SentBuffer.nextSeqNum (m_sentPackets st.1) + Z.of_nat i)))
           ps /\
    SentBuffer.nextSeqNum (m_sentPackets st'.1)
    = uint16 (SentBuffer.nextSeqNum (m_sentPackets st.1) + Z.of_nat (length ps)).
Proof.
  revert st. induction ps as [|[q r] ps IH]; intros [c env] Hn; cbn [fst snd] in *.
  - exists []. cbn [fold_left fst snd length]. rewrite app_nil_r.
    split; [reflexivity|]. split; [reflexivity|]. euclid.
  - cbn [fold_left fst snd].
    pose proof (doSend_datagram q r c env) as Hd.
    pose proof (doSend_sentPackets q r c env) as Hb.
    destruct (doSend_sendSide q r (c, env)) as (Hpeer & _).
    destruct (doSend q r (c, env)) as [c1 env1]. cbn [fst snd] in *.
    assert (Hn1 : SentBuffer.nextSeqNum (m_sentPackets c1)
                  = uint16 (SentBuffer.nextSeqNum (m_sentPackets c) + 1))
      by now rewrite Hb.
    destruct (IH (c1, env1)) as (sent & Htr & Hseq & Hnext);
      [cbn [fst snd]; rewrite Hn1; euclid|].
    cbn [fst snd] in *.
    exists ((m_peer c, q,
             stampHeader (SentBuffer.nextSeqNum (m_sentPackets c)) (m_ack c)
               (heap env q)) :: sent).
    split; [|split].
    + rewrite Htr, Hd. now rewrite <- app_assoc.
    + rewrite fmap_cons, imap_cons. cbn [fst snd]. f_equal.
      * simpl. f_equal. euclid.
      * rewrite Hseq. apply imap_ext. intros i [q' r'] _. cbn [fst snd].
        rewrite Hpeer, Hn1. unfold compose. cbn [fst snd].
        rewrite Nat2Z.inj_succ. f_equal. clear. euclid.
    + rewrite Hnext, Hn1. cbn [length]. rewrite Nat2Z.inj_succ. clear. euclid.
Qed.

Lemma doSend_consecutive_witness :
  exists sent,
    datagramsIn (trace (fold_left (fun st' pr => doSend pr.1 pr.2 st')
                          [(3%positive, 0%N); (4%positive, 2%N)] sentTwoSt).2)
    = datagramsIn (trace sentTwoSt.2) ++ sent /\
    (fun d : endpoint * PacketPtr * Packet => (d.1.1, d.1.2, seqNum (header d.2)))
      <$> sent
    = [(samplePeer, 3%positive, 2); (samplePeer, 4%positive, 3)].
Proof.
  destruct (doSend_consecutive [(3%positive, 0%N); (4%positive, 2%N)] sentTwoSt)
    as (sent & Htr & Hseq & _).
  - vm_compute. split; [discriminate|reflexivity].
  - exists sent. split; [exact Htr|]. rewrite Hseq. vm_compute. reflexivity.
Defined.

(** ** Confirming and removing *)

(** X3.  [confirmPacketDelivery] is idempotent: confirming a seqnum a
    second time changes nothing, so an ack that arrives twice is counted
    once in [m_ackdCount] and smooths [m_averageRTT] once. *)
Theorem confirmPacketDelivery_idempotent (s : Z) (st : St) :
  confirmPacketDelivery s (confirmPacketDelivery s st)
  = confirmPacketDelivery s st.
Proof.
  destruct st as [c env].
  destruct (confirmPacketDelivery_step s c env) as (Hh & _ & _ & Hc & _).
  destruct (confirmPacketDelivery s (c, env)) as [c1 env1] eqn:Hst.
  cbn [fst snd] in *.
  unfold confirmPacketDelivery at 1. rewrite Hh, Hc, Z.eqb_refl, andb_false_r.
  reflexivity.
Qed.

(** X4.  [removeUndeliveredPacket] on a seqnum the (well-formed) sent buffer
    holds: with no resend left the entry is dropped and nothing else
    happens, no datagram, no job, no observer call, no log line; with a
    resend left the same packet is sent again at once, under the
    allocator's seqnum, with one resend less and the current time, and the
    old seqnum is no longer held. *)
Theorem removeUndeliveredPacket_resends_or_drops (s : Z) (e : PacketExt) (st : St) :
  wf_sent (heap st.2) (m_sentPackets st.1) ->
  SentBuffer.slots (m_sentPackets st.1) !! SentBuffer.slotOf s = Some e ->
  seqOf (heap st.2) (packet e) = s ->
  let n := SentBuffer.nextSeqNum (m_sentPackets st.1) in
  let st' := removeUndeliveredPacket s st in
  (resendLimit e = 0%N ->
   st' = (setSentPackets
            (SentBuffer.mk
               (delete (SentBuffer.slotOf s) (SentBuffer.slots (m_sentPackets st.1)))
               n) st.1,
          st.2)) /\
  ((0 < resendLimit e)%N ->
   SentBuffer.slots (m_sentPackets st'.1) !! SentBuffer.slotOf n
   = Some (mkExt (packet e) (resendLimit e - 1) (clock st.2)) /\
   seqOf (heap st'.2) (packet e) = n /\
   SentBuffer.contains (heap st'.2) (m_sentPackets st'.1) n = true /\
   SentBuffer.contains (heap st'.2) (m_sentPackets st'.1) s = false /\
   transmittedIn (trace st'.2) = transmittedIn (trace st.2) ++ [packet e] /\
   m_sentCount st'.1 = uint64 (m_sentCount st.1 + 1)).
Proof.
  destruct st as [c env]. intros Hwf Hk Hs n st'. subst n st'.
  cbn [fst snd] in *.
  assert (Hc : SentBuffer.contains (heap env) (m_sentPackets c) s = true)
    by (apply contains_lookup; eauto).
  pose proof (removeUndeliveredPacket_removes s c env Hwf) as Hgone.
  destruct (removeUndeliveredPacket_present _ _ _ Hc) as (e' & Hk' & _ & Heq).
  rewrite Hk in Hk'. injection Hk' as <-. rewrite Heq in *. cbv zeta in *.
  split.
  - intros Hr. now rewrite Hr.
  - intros Hr. apply N.ltb_lt in Hr. rewrite Hr in *.
    rewrite doSend_sentPackets, doSend_heap in *. cbn [fst snd] in *.
    assert (Hseq : seqOf
                     (heapSet (packet e)
                        (stampHeader (SentBuffer.nextSeqNum (m_sentPackets c))
                           (m_ack c) (heap env (packet e))) (heap env))
                     (packet e)
                   = SentBuffer.nextSeqNum (m_sentPackets c)).
    { rewrite seqOf_heapSet.
      destruct (decide (packet e = packet e)); [reflexivity|congruence]. }
    split; [simpl; apply lookup_insert_eq|]. split; [exact Hseq|].
    split; [|split; [exact Hgone|]].
    + apply contains_lookup. eexists. split; [simpl; apply lookup_insert_eq|].
      exact Hseq.
    + destruct (doSend_transmits (packet e) (resendLimit e - 1)
                  (setSentPackets
                     (SentBuffer.mk
                        (delete (SentBuffer.slotOf s)
                           (SentBuffer.slots (m_sentPackets c)))
                        (SentBuffer.nextSeqNum (m_sentPackets c))) c)
                  (emit (EvResend (packet e) (resendLimit e - 1)) env))
        as [Hcount Htr].
      split; [|exact Hcount].
      rewrite Htr. simpl. unfold transmittedIn. rewrite omap_app. simpl.
      now rewrite app_nil_r.
Qed.

Lemma removeUndeliveredPacket_resends_or_drops_witness :
  SentBuffer.contains (heap (removeUndeliveredPacket 0 staleSt).2)
    (m_sentPackets (removeUndeliveredPacket 0 staleSt).1) 2 = true /\
  SentBuffer.contains (heap (removeUndeliveredPacket 0 staleSt).2)
    (m_sentPackets (removeUndeliveredPacket 0 staleSt).1) 0 = false /\
  removeUndeliveredPacket 1 staleSt
  = (setSentPackets
       (SentBuffer.mk
          (delete (SentBuffer.slotOf 1) (SentBuffer.slots (m_sentPackets staleSt.1)))
          (SentBuffer.nextSeqNum (m_sentPackets staleSt.1))) staleSt.1,
     staleSt.2).
Proof.
  assert (Hwf : wf_sent (heap staleSt.2) (m_sentPackets staleSt.1))
    by (apply wf_sentb_sound; vm_compute; reflexivity).
  destruct (removeUndeliveredPacket_resends_or_drops 0 (mkExt 1%positive 1 1000)
              staleSt Hwf) as [_ Hresend];
    [vm_compute; reflexivity | vm_compute; reflexivity |].
  destruct (removeUndeliveredPacket_resends_or_drops 1 (mkExt 2%positive 0 1000)
              staleSt Hwf) as [Hdrop _];
    [vm_compute; reflexivity | vm_compute; reflexivity |].
  destruct Hresend as (_ & _ & Hnew & Hold & _); [reflexivity|].
  split; [exact Hnew|]. split; [exact Hold|]. apply Hdrop. reflexivity.
Defined.

(** ** Receiving *)

Lemma processPeerAcks_returns fuel peerAck c env :
  wf_sent (heap env) (m_sentPackets c) ->
  (attempts (m_sentPackets c) <= fuel)%nat ->
  is_Some (processPeerAcks fuel peerAck (c, env)).
Proof.
  intros Hwf Hfuel. unfold processPeerAcks.
  pose proof (confirm_phase_spec (AckField.forEachAckedSeqNum peerAck) c env Hwf)
    as Hspec.
  cbv zeta in *.
  match type of Hspec with
  | context [fold_left ?f ?l ?a] => destruct (fold_left f l a) as [c1 env1]
  end.
  destruct Hspec as (Hwf1 & _ & _ & _ & _ & Hatt). cbn [fst snd] in *.
  destruct (lossLoop_spec (uint16 (AckField.latestSeqNum peerAck - 256))
              (clock env1 - 2000) (attempts (m_sentPackets c1)) c1 env1 fuel
              Hwf1 ltac:(lia) ltac:(lia)) as (L & Hrun & _).
  rewrite Hrun. eauto.
Qed.

Lemma handleReceive_effects fuel p st st' :
  handleReceive fuel p st = Some st' ->
  m_recvCount st'.1 = uint64 (m_recvCount st.1 + 1) /\
  m_recvTime st'.1 = clock st.2 /\
  m_ack st'.1 = AckField.updateForSeqNum (seqOf (heap st.2) p) (m_ack st.1) /\
  m_peer st'.1 = m_peer st.1 /\
  m_isDead st'.1 = m_isDead st.1 /\
  clock st'.2 = clock st.2 /\
  notifiedIn (trace st'.2) = notifiedIn (trace st.2) /\
  dispatchedIn (trace st'.2) = dispatchedIn (trace st.2) /\
  (exists s, RecvBuffer.slots (m_recvPackets st'.1)
             = <[RecvBuffer.slotOf s := p]> (RecvBuffer.slots (m_recvPackets st.1))
             /\ s = seqOf (heap st'.2) p) /\
  exists sent : list PacketPtr,
    transmittedIn (trace st'.2) = transmittedIn (trace st.2) ++ sent /\
    m_sentCount st'.1
    = Nat.iter (length sent) (fun n => uint64 (n + 1)) (m_sentCount st.1).
Proof.
  destruct st as [c env]. unfold handleReceive.
  destruct (processPeerAcks fuel _ _) as [[c2 env2]|] eqn:Hacks; [|discriminate].
  apply processPeerAcks_sendSide in Hacks.
  destruct Hacks as (H1 & H2 & H3 & H4 & H5 & H6 & H7 & H8 & H9 & sent & Ht & Hc).
  cbn [fst snd m_peer m_isDead m_recvCount m_recvTime m_ack m_recvPackets
       m_sentCount clock trace heap log emit] in *.
  rewrite notifiedIn_app in H8. rewrite dispatchedIn_app in H9.
  rewrite transmittedIn_app in Ht.
  assert (H8' : notifiedIn (trace env2) = notifiedIn (trace env))
    by (rewrite H8; apply app_nil_r).
  assert (H9' : dispatchedIn (trace env2) = dispatchedIn (trace env))
    by (rewrite H9; apply app_nil_r).
  assert (Ht' : transmittedIn (trace env2) = transmittedIn (trace env) ++ sent)
    by (rewrite Ht; f_equal; apply app_nil_r).
  clear H8 H9 Ht.
  unfold RecvBuffer.insert.
  assert (Hlog : forall env3 : Env,
            heap env3 = heap env2 -> clock env3 = clock env2 ->
            (exists evs, trace env3 = trace env2 ++ evs /\
                         notifiedIn evs = [] /\ dispatchedIn evs = [] /\
                         transmittedIn evs = []) ->
            forall rb s,
              rb = <[RecvBuffer.slotOf s := p]> (RecvBuffer.slots (m_recvPackets c2)) ->
              s = seqOf (heap env2) p ->
              Some (setRecvPackets (RecvBuffer.mk rb) c2, env3) = Some st' ->
              m_recvCount st'.1 = uint64 (m_recvCount c + 1) /\
              m_recvTime st'.1 = clock env /\
              m_ack st'.1 = AckField.updateForSeqNum (seqOf (heap env) p) (m_ack c) /\
              m_peer st'.1 = m_peer c /\
              m_isDead st'.1 = m_isDead c /\
              clock st'.2 = clock env /\
              notifiedIn (trace st'.2) = notifiedIn (trace env) /\
              dispatchedIn (trace st'.2) = dispatchedIn (trace env) /\
              (exists s, RecvBuffer.slots (m_recvPackets st'.1)
                         = <[RecvBuffer.slotOf s := p]>
                             (RecvBuffer.slots (m_recvPackets c))
                         /\ s = seqOf (heap st'.2) p) /\
              exists sent : list PacketPtr,
                transmittedIn (trace st'.2) = transmittedIn (trace env) ++ sent /\
                m_sentCount st'.1
                = Nat.iter (length sent) (fun n => uint64 (n + 1)) (m_sentCount c)).
  { intros env3 Hh Hcl (evs & Htr & Hn & Hd & Htx) rb s -> -> [= <-].
    cbn [fst snd m_peer m_isDead m_recvCount m_recvTime m_ack m_recvPackets
         m_sentCount setRecvPackets RecvBuffer.slots].
    rewrite Htr, notifiedIn_app, dispatchedIn_app, transmittedIn_app,
      Hn, Hd, Htx, !app_nil_r.
    repeat (split; [congruence|]).
    split; [|exists sent; split; assumption].
    eexists. split; [rewrite H6; reflexivity|]. now rewrite Hh. }
  destruct (RecvBuffer.slots (m_recvPackets c2)
            !! RecvBuffer.slotOf (seqOf (heap env2) p)) as [o|];
    [destruct (seqOf (heap env2) o =? seqOf (heap env2) p)|];
    (eapply Hlog; [reflexivity|reflexivity| |reflexivity|reflexivity]).
  - exists [EvLog LogDebug "received packet duplicate from";
            EvLog LogTrace "[-] Connection::handleReceive"].
    split; [simpl; now rewrite <- app_assoc|]. repeat split.
  - exists [EvLog LogError "recv buffer seems full, discarding old packet from";
            EvLog LogTrace "[-] Connection::handleReceive"].
    split; [simpl; now rewrite <- app_assoc|]. repeat split.
  - exists [EvLog LogTrace "[-] Connection::handleReceive"].
    split; [reflexivity|]. repeat split.
Qed.

(** ** Receiving in sequence, then draining *)

Lemma run_app acts1 acts2 : forall st,
  run (acts1 ++ acts2) st
  = match run acts1 st with
    | Some st1 => run acts2 st1
    | None => None
    end.
Proof.
  induction acts1 as [|a acts1 IH]; intros st; simpl; [reflexivity|].
  destruct (step a st); [apply IH|reflexivity].
Qed.

(** What is not in the sent buffer does not get there by a resend, and its
    header is left alone. *)
Lemma doSend_frame q r st p :
  p <> q -> notHeld p st ->
  heap (doSend q r st).2 p = heap st.2 p /\ notHeld p (doSend q r st).
Proof.
  destruct st as [c env]. intros Hne Hp. split.
  - rewrite doSend_heap. unfold heapSet.
    destruct (decide (p = q)); [contradiction|reflexivity].
  - unfold notHeld. cbn [fst]. rewrite doSend_sentPackets. cbn [SentBuffer.slots].
    intros k e Hk. apply lookup_insert_Some in Hk as [[_ <-]|[_ Hk]].
    + cbn [packet]. congruence.
    + exact (Hp k e Hk).
Qed.

Lemma removeUndeliveredPacket_frame s st p :
  notHeld p st ->
  heap (removeUndeliveredPacket s st).2 p = heap st.2 p /\
  notHeld p (removeUndeliveredPacket s st).
Proof.
  destruct st as [c env]. intros Hp.
  destruct (SentBuffer.contains (heap env) (m_sentPackets c) s) eqn:Hc.
  - destruct (removeUndeliveredPacket_present _ _ _ Hc) as (e & Hk & _ & ->).
    cbv zeta.
    assert (Hp1 : forall env1,
              notHeld p
                (setSentPackets
                   (SentBuffer.mk
                      (delete (SentBuffer.slotOf s)
                         (SentBuffer.slots (m_sentPackets c)))
                      (SentBuffer.nextSeqNum (m_sentPackets c))) c, env1)).
    { intros env1 k' e' Hk'. cbn in Hk'.
      apply lookup_delete_Some in Hk' as [_ Hk']. exact (Hp k' e' Hk'). }
    destruct (0 <? resendLimit e)%N.
    + match goal with
      | |- context [doSend ?q ?r ?st1] =>
          destruct (doSend_frame q r st1 p) as [Hh Hn];
            [intros ->; exact (Hp _ _ Hk eq_refl)|apply Hp1|]
      end.
      split; [exact Hh|exact Hn].
    + split; [reflexivity|apply Hp1].
  - unfold removeUndeliveredPacket. rewrite Hc. now split.
Qed.

Lemma confirmPacketDelivery_frame s st p :
  notHeld p st ->
  heap (confirmPacketDelivery s st).2 p = heap st.2 p /\
  notHeld p (confirmPacketDelivery s st).
Proof.
  destruct st as [c env]. intros Hp.
  destruct (SentBuffer.contains (heap env) (m_sentPackets c) s) eqn:Hc.
  - destruct (confirmPacketDelivery_present _ _ _ Hc) as (e & Hk & _ & ->).
    split; [reflexivity|].
    intros k' e' Hk'. cbn in Hk'.
    apply lookup_delete_Some in Hk' as [_ Hk']. exact (Hp k' e' Hk').
  - unfold confirmPacketDelivery. rewrite Hc. now split.
Qed.

Lemma lossLoop_frame minSeqNum minTime p fuel : forall st st',
  lossLoop fuel minSeqNum minTime st = Some st' ->
  notHeld p st ->
  heap st'.2 p = heap st.2 p /\ notHeld p st'.
Proof.
  induction fuel as [|fuel IH]; intros st st'; rewrite lossLoop_unfold.
  - destruct (SentBuffer.empty _); [intros [= <-]; now split|].
    destruct (_ || _); [discriminate|intros [= <-]; now split].
  - destruct (SentBuffer.empty _); [intros [= <-]; now split|].
    destruct (_ || _); [|intros [= <-]; now split].
    intros Hrun Hp.
    destruct (removeUndeliveredPacket_frame
                (SentBuffer.oldestSeqNum (heap st.2) (m_sentPackets st.1)) st p Hp)
      as [Hh1 Hp1].
    destruct (IH _ _ Hrun Hp1) as [Hh2 Hp2].
    split; [congruence|exact Hp2].
Qed.

Lemma confirm_phase_frame p l : forall st,
  notHeld p st ->
  heap (fold_left (fun st' s => confirmPacketDelivery s st') l st).2 p
  = heap st.2 p /\
  notHeld p (fold_left (fun st' s => confirmPacketDelivery s st') l st).
Proof.
  induction l as [|s l IH]; intros st Hp; simpl; [now split|].
  destruct (confirmPacketDelivery_frame s st p Hp) as [Hh1 Hp1].
  destruct (IH _ Hp1) as [Hh2 Hp2]. split; [congruence|exact Hp2].
Qed.

Lemma processPeerAcks_frame fuel peerAck p st st' :
  processPeerAcks fuel peerAck st = Some st' ->
  notHeld p st ->
  heap st'.2 p = heap st.2 p /\ notHeld p st'.
Proof.
  unfold processPeerAcks. intros Hrun Hp.
  destruct (confirm_phase_frame p (AckField.forEachAckedSeqNum peerAck) st Hp)
    as [Hh1 Hp1].
  destruct (lossLoop_frame _ _ p _ _ _ Hrun Hp1) as [Hh2 Hp2].
  split; [congruence|exact Hp2].
Qed.

Lemma handleReceive_frame fuel q p st st' :
  handleReceive fuel q st = Some st' ->
  notHeld p st ->
  heap st'.2 p = heap st.2 p /\ notHeld p st'.
Proof.
  destruct st as [c env]. unfold handleReceive.
  destruct (processPeerAcks fuel _ _) as [[c2 env2]|] eqn:Hacks; [|discriminate].
  intros Hst' Hp.
  destruct (processPeerAcks_frame _ _ p _ _ Hacks) as [Hh Hp2]; [exact Hp|].
  cbn [fst snd heap log emit] in Hh. revert Hst'. unfold RecvBuffer.insert.
  destruct (RecvBuffer.slots (m_recvPackets c2)
            !! RecvBuffer.slotOf (seqOf (heap env2) q)) as [o|];
    [destruct (seqOf (heap env2) o =? seqOf (heap env2) q)|];
    intros [= <-]; (split; [exact Hh|exact Hp2]).
Qed.

Lemma receives_frame fuel p ps : forall st st',
  run (ActReceive fuel <$> ps) st = Some st' ->
  notHeld p st ->
  heap st'.2 p = heap st.2 p /\ notHeld p st'.
Proof.
  induction ps as [|q ps IH]; intros st st'; simpl.
  - intros [= <-]. now split.
  - destruct (handleReceive fuel q st) as [st1|] eqn:Hrecv; [|discriminate].
    intros Hrun Hp.
    destruct (handleReceive_frame _ _ p _ _ Hrecv Hp) as [Hh1 Hp1].
    destruct (IH _ _ Hrun Hp1) as [Hh2 Hp2]. split; [congruence|exact Hp2].
Qed.

(** A buffered packet stays in its slot as long as the packets received
    after it go into other slots. *)
Lemma receives_keep fuel k p after : forall st st',
  run (ActReceive fuel <$> after) st = Some st' ->
  RecvBuffer.slots (m_recvPackets st.1) !! k = Some p ->
  (forall q, q ∈ after ->
     notHeld q st /\ RecvBuffer.slotOf (seqOf (heap st'.2) q) <> k) ->
  RecvBuffer.slots (m_recvPackets st'.1) !! k = Some p.
Proof.
  induction after as [|q after IH]; intros st st'; simpl.
  - now intros [= <-].
  - destruct (handleReceive fuel q st) as [st1|] eqn:Hrecv; [|discriminate].
    intros Hrun Hk Hafter.
    destruct (Hafter q ltac:(left)) as [Hq Hslot].
    destruct (handleReceive_frame _ _ q _ _ Hrecv Hq) as [_ Hq1].
    destruct (receives_frame _ q _ _ _ Hrun Hq1) as [Hh _].
    destruct (handleReceive_effects _ _ _ _ Hrecv)
      as (_ & _ & _ & _ & _ & _ & _ & _ & (s & Hslots & ->) & _).
    apply (IH st1 st' Hrun).
    + rewrite Hslots. rewrite lookup_insert_ne; [exact Hk|].
      unfold seqOf in *. rewrite <- Hh. exact Hslot.
    + intros q' Hq'. destruct (Hafter q' ltac:(now right)) as [Hn Hs].
      split; [|exact Hs].
      now destruct (handleReceive_frame _ _ q' _ _ Hrecv Hn).
Qed.

(** A packet that arrives later in the slot of a buffered one takes its
    place: after seqnums 7, 7 and 263 the drain delivers packet 3 only, and
    seqnum 7 is not delivered. *)
Lemma displaced_seqnum_is_not_delivered :
  (fun st : St => dispatchedIn (trace st.2))
    <$> run [ActReceive 0 1%positive; ActReceive 0 2%positive;
             ActReceive 0 3%positive; ActDispatch 1] displacedSt
  = Some [3%positive].
Proof. vm_compute. reflexivity. Qed.

(** C2 (amended).  After the packets [ps] were received, in that order, one
    call to [dispatchReceivedPackets] (with fuel for every occupant)
    delivers the occupants of the receive buffer, each exactly once, and
    leaves the buffer empty; with every occupant in the slot of its seqnum,
    no seqnum is delivered twice.  A received packet [p] is delivered, and
    no other packet with the seqnum of [p] is, provided that every packet
    [q] received after [p] went into another slot than [p] (a later copy of
    the seqnum of [p], or a seqnum a multiple of 256 away, goes into the
    slot of [p]) and that neither [p] nor [q] was in the sent buffer of the
    connection when the receiving began: so of a seqnum received in
    duplicate it is the last copy that is delivered, unless a later packet
    took its slot.  When all buffered seqnums lie within half the circle
    of one another, each delivered seqnum is circular-greater than every
    seqnum delivered earlier in the drain. *)
Theorem dispatch_delivers_each_once (fuel0 fuel : nat) (ps : list PacketPtr)
    (st st1 : St) :
  run (ActReceive fuel0 <$> ps) st = Some st1 ->
  wf_recv (heap st1.2) (m_recvPackets st1.1) ->
  (size (RecvBuffer.slots (m_recvPackets st1.1)) <= fuel)%nat ->
  exists st2 D,
    dispatchReceivedPackets fuel st1 = Some st2 /\
    dispatchedIn (trace st2.2) = dispatchedIn (trace st1.2) ++ D /\
    RecvBuffer.empty (m_recvPackets st2.1) = true /\
    D ≡ₚ (map_to_list (RecvBuffer.slots (m_recvPackets st1.1))).*2 /\
    NoDup D /\
    NoDup (seqOf (heap st1.2) <$> D) /\
    (forall before p after,
       ps = before ++ p :: after ->
       (forall q, q ∈ after ->
          notHeld p st /\ notHeld q st /\
          RecvBuffer.slotOf (seqOf (heap st1.2) q)
          <> RecvBuffer.slotOf (seqOf (heap st1.2) p)) ->
       p ∈ D /\
       forall q, q <> p -> seqOf (heap st1.2) q = seqOf (heap st1.2) p ->
                 q ∉ D) /\
    (forall base,
       recvWithin base (heap st1.2) (m_recvPackets st1.1) ->
       StronglySorted
         (fun a b => moreRecentSeqNum (seqOf (heap st1.2) b) (seqOf (heap st1.2) a)
                     = true) D).
Proof.
  intros Hrecv Hwf Hfuel.
  assert (Hkept : forall before p after,
            ps = before ++ p :: after ->
            (forall q, q ∈ after ->
               notHeld p st /\ notHeld q st /\
               RecvBuffer.slotOf (seqOf (heap st1.2) q)
               <> RecvBuffer.slotOf (seqOf (heap st1.2) p)) ->
            RecvBuffer.slots (m_recvPackets st1.1)
              !! RecvBuffer.slotOf (seqOf (heap st1.2) p) = Some p).
  { intros before p after -> Hafter.
    rewrite fmap_app, fmap_cons, run_app in Hrecv.
    destruct (run (ActReceive fuel0 <$> before) st) as [sa|] eqn:Hbefore;
      [|discriminate].
    simpl in Hrecv.
    destruct (handleReceive fuel0 p sa) as [sb|] eqn:Hp; [|discriminate].
    pose proof (handleReceive_buffers _ _ _ _ Hp) as Hslot.
    destruct after as [|q0 after0].
    - simpl in Hrecv. injection Hrecv as <-. exact Hslot.
    - assert (Hp0 : notHeld p st)
        by (destruct (Hafter q0) as [H _]; [left|exact H]).
      remember (q0 :: after0) as after eqn:Hafter0. clear Hafter0.
      assert (Hheld : forall q, q = p \/ q ∈ after -> notHeld q sb).
      { intros q Hq.
        assert (Hq0 : notHeld q st).
        { destruct Hq as [->|Hq]; [exact Hp0|].
          now destruct (Hafter q Hq) as (_ & H & _). }
        destruct (receives_frame _ q _ _ _ Hbefore Hq0) as [_ Hqa].
        now destruct (handleReceive_frame _ _ q _ _ Hp Hqa). }
      destruct (receives_frame _ p _ _ _ Hrecv (Hheld p ltac:(now left)))
        as [Hh _].
      assert (Hseq : seqOf (heap st1.2) p = seqOf (heap sb.2) p)
        by (unfold seqOf; now rewrite Hh).
      rewrite Hseq. apply (receives_keep fuel0 _ p after sb st1 Hrecv Hslot).
      intros q Hq. split; [apply Hheld; now right|].
      destruct (Hafter q Hq) as (_ & _ & Hne). now rewrite <- Hseq. }
  destruct st1 as [c env]. cbn [fst snd] in *.
  destruct (dispatchReceivedPackets_spec
              (size (RecvBuffer.slots (m_recvPackets c))) c env fuel
              ltac:(lia) Hfuel) as (D & Hrun & Hperm & Hsorted).
  assert (Hseqs : NoDup (seqOf (heap env) <$> D)).
  { rewrite Hperm. now apply NoDup_buffered_seqnums. }
  eexists _, D. split; [exact Hrun|]. cbn [fst snd trace].
  split; [|split; [reflexivity|split; [exact Hperm|split; [|split; [exact Hseqs|
    split]]]]].
  - unfold dispatchedIn. rewrite omap_app. f_equal.
    clear. induction D as [|q D IH]; [reflexivity|].
    simpl. f_equal. exact IH.
  - now apply NoDup_fmap_1 in Hseqs.
  - intros before p after Hps Hafter.
    assert (HpD : p ∈ D).
    { rewrite Hperm. apply list_elem_of_fmap.
      exists (RecvBuffer.slotOf (seqOf (heap env) p), p). split; [reflexivity|].
      apply elem_of_map_to_list. exact (Hkept before p after Hps Hafter). }
    split; [exact HpD|].
    intros q Hne Hseq HqD. apply Hne.
    eapply (NoDup_fmap_eq (seqOf (heap env))); eauto.
  - intros base Hwin. now apply (Hsorted base).
Qed.

Lemma dispatch_delivers_each_once_witness :
  exists st2 D,
    dispatchReceivedPackets 2 receivedAllSt = Some st2 /\
    dispatchedIn (trace st2.2) = dispatchedIn (trace receivedAllSt.2) ++ D /\
    2%positive ∈ D /\ 1%positive ∉ D.
Proof.
  destruct (dispatch_delivers_each_once 0 2 [1%positive; 2%positive; 3%positive]
              duplicateSt receivedAllSt)
    as (st2 & D & Hrun & Htr & _ & _ & _ & _ & Hlast & _).
  - vm_compute. reflexivity.
  - apply wf_recvb_sound. vm_compute. reflexivity.
  - vm_compute. lia.
  - exists st2, D. split; [exact Hrun|]. split; [exact Htr|].
    destruct (Hlast [1%positive] 2%positive [3%positive] eq_refl) as [Hin Hother].
    + intros q ->%list_elem_of_singleton.
      assert (Hempty : forall p, notHeld p duplicateSt).
      { intros p k e Hk. cbn in Hk. now rewrite lookup_empty in Hk. }
      split; [apply Hempty|]. split; [apply Hempty|].
      apply Z.eqb_neq. vm_compute. reflexivity.
    + split; [exact Hin|]. apply Hother; [discriminate|].
      vm_compute. reflexivity.
Defined.

(** X5.  [handleReceive] on a connection with a well-formed sent buffer
    returns (its loss loop ends within [attempts] removals), and then: the
    packet is in the receive buffer, in the slot of its seqnum;
    [m_recvCount] is one up, [m_recvTime] is the current time, [m_ack] has
    taken in the packet's seqnum; peer and liveness flag are as before;
    neither an observer nor the dispatcher was called; and [m_sentCount]
    went up once for each datagram loss detection sent again. *)
Theorem handleReceive_bookkeeping (fuel : nat) (p : PacketPtr) (st : St) :
  wf_sent (heap st.2) (m_sentPackets st.1) ->
  (attempts (m_sentPackets st.1) <= fuel)%nat ->
  exists st',
    handleReceive fuel p st = Some st' /\
    RecvBuffer.slots (m_recvPackets st'.1)
      !! RecvBuffer.slotOf (seqOf (heap st'.2) p) = Some p /\
    m_recvCount st'.1 = uint64 (m_recvCount st.1 + 1) /\
    m_recvTime st'.1 = clock st.2 /\
    m_ack st'.1 = AckField.updateForSeqNum (seqOf (heap st.2) p) (m_ack st.1) /\
    m_peer st'.1 = m_peer st.1 /\
    m_isDead st'.1 = m_isDead st.1 /\
    notifiedIn (trace st'.2) = notifiedIn (trace st.2) /\
    dispatchedIn (trace st'.2) = dispatchedIn (trace st.2) /\
    exists sent : list PacketPtr,
      transmittedIn (trace st'.2) = transmittedIn (trace st.2) ++ sent /\
      m_sentCount st'.1
      = Nat.iter (length sent) (fun n => uint64 (n + 1)) (m_sentCount st.1).
Proof.
  intros Hwf Hfuel.
  assert (Hsome : is_Some (handleReceive fuel p st)).
  { destruct st as [c env]. unfold handleReceive.
    match goal with
    | |- context [processPeerAcks fuel ?a (?c1, ?e1)] =>
        destruct (processPeerAcks_returns fuel a c1 e1) as [[c2 env2] ->];
          [exact Hwf|exact Hfuel|]
    end.
    destruct (RecvBuffer.insert _ _ _). eauto. }
  destruct Hsome as [st' Hrun]. exists st'. split; [exact Hrun|].
  split; [eapply handleReceive_buffers; eauto|].
  destruct (handleReceive_effects _ _ _ _ Hrun)
    as (H1 & H2 & H3 & H4 & H5 & _ & H7 & H8 & _ & H10).
  repeat (split; [assumption|]). exact H10.
Qed.

Lemma handleReceive_bookkeeping_witness :
  exists st',
    handleReceive 3 9%positive staleReceiveSt = Some st' /\
    RecvBuffer.slots (m_recvPackets st'.1) !! RecvBuffer.slotOf 3 = Some 9%positive /\
    m_recvCount st'.1 = 1 /\
    m_recvTime st'.1 = 4000.
Proof.
  destruct (handleReceive_bookkeeping 3 9%positive staleReceiveSt)
    as (st' & Hrun & Hbuf & Hcount & Htime & _).
  - apply wf_sentb_sound. vm_compute. reflexivity.
  - vm_compute. lia.
  - exists st'. split; [exact Hrun|].
    assert (Hseq : seqOf (heap st'.2) 9%positive = 3).
    { assert (Hev : (fun st : St => seqOf (heap st.2) 9%positive)
                      <$> handleReceive 3 9%positive staleReceiveSt = Some 3)
        by (vm_compute; reflexivity).
      rewrite Hrun in Hev. now injection Hev. }
    rewrite Hseq in Hbuf. split; [exact Hbuf|].
    split; [rewrite Hcount|rewrite Htime]; vm_compute; reflexivity.
Defined.

(** X6.  The ack field a connection sends is the one [handleReceive] keeps:
    [handleReceive] applies [updateForSeqNum] with the seqnum of the packet
    to [m_ack], and the datagram of a [doSend] that follows goes to the
    peer, under the allocator's seqnum, with that ack field in its header.
    (Which seqnums the field then covers is the matter of
    [updateForSeqNum].) *)
Theorem next_send_carries_updated_ack (fuel : nat) (p q : PacketPtr) (r : N)
    (st st1 : St) :
  handleReceive fuel p st = Some st1 ->
  datagramsIn (trace (doSend q r st1).2)
  = datagramsIn (trace st1.2)
    ++ [(m_peer st.1, q,
         stampHeader (SentBuffer.nextSeqNum (m_sentPackets st1.1))
           (AckField.updateForSeqNum (seqOf (heap st.2) p) (m_ack st.1))
           (heap st1.2 q))].
Proof.
  intros Hrun.
  destruct (handleReceive_effects _ _ _ _ Hrun) as (_ & _ & Hack & Hpeer & _).
  destruct st1 as [c1 env1]. cbn [fst snd] in *.
  rewrite doSend_datagram, Hack, Hpeer. reflexivity.
Qed.

Lemma next_send_carries_updated_ack_witness :
  (fun d : endpoint * PacketPtr * Packet =>
     (seqNum (header d.2),
      AckField.latest (ack (header d.2)), AckField.bits (ack (header d.2))))
    <$> last (datagramsIn (trace (doSend 3%positive 0 ackingReceivedSt).2))
  = Some (0, 101, 1).
Proof.
  pose proof (next_send_carries_updated_ack 0 1%positive 3%positive 0
                ackingSt ackingReceivedSt) as H.
  rewrite H by (vm_compute; reflexivity).
  rewrite last_snoc. vm_compute. reflexivity.
Defined.

(** ** The books of the send side *)

Lemma iter_uint64 n : forall x, 0 <= x < 2 ^ 64 ->
  Nat.iter n (fun z => uint64 (z + 1)) x = uint64 (x + Z.of_nat n).
Proof.
  induction n as [|n IH]; intros x Hx.
  - simpl. euclid.
  - rewrite Nat.iter_succ, IH by exact Hx. rewrite Nat2Z.inj_succ. euclid.
Qed.

Lemma books_refl st : books 0 st st.
Proof. split; [lia|]. exists 0%nat. split; [reflexivity|lia]. Qed.

Lemma books_trans k1 k2 st1 st2 st3 :
  books k1 st1 st2 -> books k2 st2 st3 -> books (k1 + k2) st1 st3.
Proof.
  intros (Hb1 & a1 & Ha1 & Hs1) (Hb2 & a2 & Ha2 & Hs2). split; [lia|].
  exists (a2 + a1)%nat. split; [|lia].
  rewrite Ha2, Ha1. symmetry. apply Nat.iter_add.
Qed.

(** A step that neither hands a datagram to the socket, nor marks a
    resend, nor touches queue, sent buffer or [m_ackdCount]. *)
Lemma books_quiet c env c' env' evs :
  m_ackdCount c' = m_ackdCount c -> m_sentPackets c' = m_sentPackets c ->
  posted env' = posted env -> trace env' = trace env ++ evs ->
  transmittedIn evs = [] -> resendsIn evs = [] ->
  books 0 (c, env) (c', env').
Proof.
  intros Ha Hb Hq Htr Ht Hr. unfold books, sendBalance. cbn [fst snd].
  rewrite Htr, transmittedIn_app, resendsIn_app, Ht, Hr, !app_nil_r, Hq, Hb.
  split; [lia|]. exists 0%nat. split; [exact Ha|lia].
Qed.

Lemma doSend_books q r st : books 1 st (doSend q r st).
Proof.
  destruct st as [c env]. unfold books, sendBalance.
  pose proof (map_size_insert
                (SentBuffer.slotOf (SentBuffer.nextSeqNum (m_sentPackets c)))
                (mkExt q r (clock env)) (SentBuffer.slots (m_sentPackets c)))
    as Hsize.
  doSend_cases c;
    rewrite !transmittedIn_app, !resendsIn_app, ?length_app;
    cbn [transmittedIn resendsIn omap list_omap length];
    (split; [lia|]); exists 0%nat; (split; [reflexivity|]);
    simpl in Hsize; lia.
Qed.

Lemma size_delete_present {A} (m : gmap Z A) k e :
  m !! k = Some e -> size m = S (size (delete k m)).
Proof.
  intros Hk. rewrite <- (insert_id m k e Hk) at 1.
  rewrite <- insert_delete_eq. apply map_size_insert_None, lookup_delete_eq.
Qed.

Lemma books_trans0 st1 st2 st3 :
  books 0 st1 st2 -> books 0 st2 st3 -> books 0 st1 st3.
Proof. intros H1 H2. exact (books_trans 0 0 _ _ _ H1 H2). Qed.

Lemma removeUndeliveredPacket_books s st :
  books 0 st (removeUndeliveredPacket s st).
Proof.
  destruct st as [c env].
  destruct (SentBuffer.contains (heap env) (m_sentPackets c) s) eqn:Hc.
  - destruct (removeUndeliveredPacket_present _ _ _ Hc) as (e & Hk & _ & ->).
    apply size_delete_present in Hk.
    cbv zeta. destruct (0 <? resendLimit e)%N.
    + eapply (books_trans (-1) 1); [|apply doSend_books].
      unfold books, sendBalance. cbn [fst snd emit trace posted].
      rewrite transmittedIn_app, resendsIn_app, !length_app.
      cbn [transmittedIn resendsIn omap list_omap length].
      split; [lia|]. exists 0%nat. split; [reflexivity|].
      simpl. lia.
    + unfold books, sendBalance. cbn [fst snd].
      split; [lia|]. exists 0%nat. split; [reflexivity|]. simpl. lia.
  - unfold removeUndeliveredPacket. rewrite Hc. apply books_refl.
Qed.

Lemma confirmPacketDelivery_books s st :
  books 0 st (confirmPacketDelivery s st).
Proof.
  destruct st as [c env].
  destruct (SentBuffer.contains (heap env) (m_sentPackets c) s) eqn:Hc.
  - destruct (confirmPacketDelivery_present _ _ _ Hc) as (e & Hk & _ & ->).
    apply size_delete_present in Hk.
    unfold books, sendBalance. cbn [fst snd log emit trace posted].
    rewrite transmittedIn_app, resendsIn_app, !length_app.
    cbn [transmittedIn resendsIn omap list_omap length].
    split; [lia|]. exists 1%nat. split; [reflexivity|].
    simpl. lia.
  - unfold confirmPacketDelivery. rewrite Hc. apply books_refl.
Qed.

Lemma lossLoop_books minSeqNum minTime fuel : forall st st',
  lossLoop fuel minSeqNum minTime st = Some st' -> books 0 st st'.
Proof.
  induction fuel as [|fuel IH]; intros st st'; rewrite lossLoop_unfold.
  - destruct (SentBuffer.empty _); [intros [= <-]; apply books_refl|].
    destruct (_ || _); [discriminate|intros [= <-]; apply books_refl].
  - destruct (SentBuffer.empty _); [intros [= <-]; apply books_refl|].
    destruct (_ || _); [|intros [= <-]; apply books_refl].
    intros Hrun. eapply books_trans0; [|apply IH; exact Hrun].
    apply removeUndeliveredPacket_books.
Qed.

Lemma confirm_phase_books l : forall st,
  books 0 st (fold_left (fun st' s => confirmPacketDelivery s st') l st).
Proof.
  induction l as [|s l IH]; intros st; simpl; [apply books_refl|].
  eapply books_trans0; [apply confirmPacketDelivery_books|apply IH].
Qed.

Lemma processPeerAcks_books fuel peerAck st st' :
  processPeerAcks fuel peerAck st = Some st' -> books 0 st st'.
Proof.
  unfold processPeerAcks. intros Hrun.
  eapply books_trans0; [apply confirm_phase_books|].
  eapply lossLoop_books; eauto.
Qed.

Lemma handleReceive_books fuel p st st' :
  handleReceive fuel p st = Some st' -> books 0 st st'.
Proof.
  destruct st as [c env]. unfold handleReceive.
  destruct (processPeerAcks fuel _ _) as [[c2 env2]|] eqn:Hacks; [|discriminate].
  apply processPeerAcks_books in Hacks.
  intros Hst'.
  eapply books_trans0; [|eapply books_trans0; [exact Hacks|]].
  { apply (books_quiet c env _ _ [EvLog LogTrace "[+] Connection::handleReceive"]);
      reflexivity. }
  clear Hacks. revert Hst'. unfold RecvBuffer.insert.
  destruct (RecvBuffer.slots (m_recvPackets c2)
            !! RecvBuffer.slotOf (seqOf (heap env2) p)) as [o|];
    [destruct (seqOf (heap env2) o =? seqOf (heap env2) p)|];
    intros [= <-].
  - apply (books_quiet c2 env2 _ _
             [EvLog LogDebug "received packet duplicate from";
              EvLog LogTrace "[-] Connection::handleReceive"]);
      try reflexivity. simpl. now rewrite <- app_assoc.
  - apply (books_quiet c2 env2 _ _
             [EvLog LogError "recv buffer seems full, discarding old packet from";
              EvLog LogTrace "[-] Connection::handleReceive"]);
      try reflexivity. simpl. now rewrite <- app_assoc.
  - apply (books_quiet c2 env2 _ _
             [EvLog LogTrace "[-] Connection::handleReceive"]); reflexivity.
Qed.

Lemma handleSend_books q error st : books 0 st (handleSend q error st).
Proof.
  destruct st as [c env]. unfold handleSend.
  destruct (bool_decide (error <> 0)).
  - match goal with
    | |- context [removeUndeliveredPacket ?s ?st1] =>
        pose proof (removeUndeliveredPacket_books s st1) as Hrem;
          destruct (removeUndeliveredPacket s st1) as [c2 env2]
    end.
    eapply books_trans0; [|eapply books_trans0; [exact Hrem|]].
    { apply (books_quiet c env _ _
               [EvLog LogTrace "[+] Connection::handleSend";
                EvNotify (onError (m_peer c) error)]);
        try reflexivity. simpl. now rewrite <- app_assoc. }
    apply (books_quiet c2 env2 _ _ [EvLog LogTrace "[-] Connection::handleSend"]);
      reflexivity.
  - apply (books_quiet c env _ _
             [EvLog LogTrace "[+] Connection::handleSend";
              EvLog LogTrace "[-] Connection::handleSend"]);
      try reflexivity. simpl. now rewrite <- app_assoc.
Qed.

Lemma dispatchReceivedPackets_books fuel : forall st st',
  dispatchReceivedPackets fuel st = Some st' -> books 0 st st'.
Proof.
  induction fuel as [|fuel IH]; intros [c env] st';
    rewrite dispatchReceivedPackets_unfold; cbn [fst snd].
  - destruct (RecvBuffer.empty _); [intros [= <-]; apply books_refl|discriminate].
  - destruct (RecvBuffer.empty _); [intros [= <-]; apply books_refl|].
    destruct (RecvBuffer.removeLast (heap env) (m_recvPackets c)) as [[q|] rb];
      intros Hrun; apply IH in Hrun;
      (eapply books_trans0; [|exact Hrun]).
    + apply (books_quiet c env _ _ [EvDispatch (m_peer c) q]); reflexivity.
    + apply (books_quiet c env _ _ []); try reflexivity.
      simpl. now rewrite app_nil_r.
Qed.

Lemma step_books a st st' :
  step a st = Some st' ->
  books (if isAsyncSend a then 1 else 0) st st'.
Proof.
  destruct st as [c env].
  destruct a as [q r| |q error|fuel q|fuel|v|dt]; cbn [step isAsyncSend fst snd].
  - intros [= <-]. unfold asyncSend, books, sendBalance.
    cbn [fst snd post trace posted]. rewrite length_app. simpl length.
    split; [lia|]. exists 0%nat. split; [reflexivity|lia].
  - destruct (posted env) as [|t rest] eqn:Hq; intros [= <-];
      [apply books_refl|].
    eapply (books_trans (-1) 1); [|apply doSend_books].
    unfold books, sendBalance. cbn [fst snd trace posted]. rewrite Hq.
    simpl length. split; [lia|]. exists 0%nat. split; [reflexivity|lia].
  - intros [= <-]. apply handleSend_books.
  - apply handleReceive_books.
  - apply dispatchReceivedPackets_books.
  - intros [= <-]. apply (books_quiet c env _ _ []); try reflexivity.
    simpl. now rewrite app_nil_r.
  - intros [= <-]. apply (books_quiet c env _ _ []); try reflexivity.
    simpl. now rewrite app_nil_r.
Qed.

Lemma run_books acts : forall st st',
  run acts st = Some st' ->
  books (Z.of_nat (length (filter (fun a => isAsyncSend a = true) acts))) st st'.
Proof.
  induction acts as [|a acts IH]; intros st st'; simpl.
  - intros [= <-]. apply books_refl.
  - destruct (step a st) as [st1|] eqn:Hstep; [|discriminate].
    intros Hrun. apply step_books in Hstep. apply IH in Hrun.
    pose proof (books_trans _ _ _ _ _ Hstep Hrun) as Hb.
    rewrite filter_cons.
    destruct (isAsyncSend a); simpl.
    + destruct (decide (true = true)); [|congruence].
      simpl length. rewrite Nat2Z.inj_succ.
      replace (Z.succ (Z.of_nat (length (filter (fun a => isAsyncSend a = true) acts))))
        with (1 + Z.of_nat (length (filter (fun a => isAsyncSend a = true) acts)))
        by lia.
      exact Hb.
    + destruct (decide (false = true)); [congruence|]. exact Hb.
Qed.

(** ** What a run shows *)

Lemma dispatchReceivedPackets_quiet fuel : forall st st',
  dispatchReceivedPackets fuel st = Some st' ->
  m_peer st'.1 = m_peer st.1 /\ m_isDead st'.1 = m_isDead st.1 /\
  m_recvCount st'.1 = m_recvCount st.1 /\ m_sentCount st'.1 = m_sentCount st.1 /\
  notifiedIn (trace st'.2) = notifiedIn (trace st.2) /\
  transmittedIn (trace st'.2) = transmittedIn (trace st.2).
Proof.
  induction fuel as [|fuel IH]; intros [c env] st';
    rewrite dispatchReceivedPackets_unfold; cbn [fst snd].
  - destruct (RecvBuffer.empty _); [intros [= <-]; now repeat split|discriminate].
  - destruct (RecvBuffer.empty _); [intros [= <-]; now repeat split|].
    destruct (RecvBuffer.removeLast (heap env) (m_recvPackets c)) as [[q|] rb];
      intros Hrun; apply IH in Hrun; cbn [fst snd emit trace] in Hrun;
      destruct Hrun as (H1 & H2 & H3 & H4 & H5 & H6);
      rewrite ?notifiedIn_app, ?transmittedIn_app in *;
      (split; [exact H1|split; [exact H2|split; [exact H3|split; [exact H4|]]]]);
      (split; [rewrite H5|rewrite H6]); try reflexivity; apply app_nil_r.
Qed.

Lemma handleSend_observe q error st :
  m_peer (handleSend q error st).1 = m_peer st.1 /\
  m_isDead (handleSend q error st).1 = m_isDead st.1 /\
  m_recvCount (handleSend q error st).1 = m_recvCount st.1 /\
  notifiedIn (trace (handleSend q error st).2)
  = notifiedIn (trace st.2)
    ++ (if bool_decide (error <> 0) then [onError (m_peer st.1) error] else []) /\
  exists sent : list PacketPtr,
    transmittedIn (trace (handleSend q error st).2)
    = transmittedIn (trace st.2) ++ sent /\
    m_sentCount (handleSend q error st).1
    = Nat.iter (length sent) (fun n => uint64 (n + 1)) (m_sentCount st.1).
Proof.
  destruct st as [c env]. unfold handleSend.
  destruct (bool_decide (error <> 0)).
  - match goal with
    | |- context [removeUndeliveredPacket ?s ?st1] =>
        pose proof (removeUndeliveredPacket_sendSide s st1) as Hrem;
          destruct (removeUndeliveredPacket s st1) as [c2 env2]
    end.
    destruct Hrem as (H1 & H2 & H3 & _ & _ & _ & _ & H8 & _ & sent & Ht & Hc).
    cbn [fst snd log emit notifyObservers trace] in *.
    rewrite !notifiedIn_app in *. rewrite !transmittedIn_app in *.
    repeat (split; [assumption|]).
    split.
    + rewrite H8. cbn [notifiedIn omap list_omap]. simpl.
      now rewrite !app_nil_r.
    + exists sent. split; [|exact Hc]. rewrite Ht. simpl. now rewrite !app_nil_r.
  - cbn [fst snd log emit trace]. repeat (split; [reflexivity|]).
    rewrite !notifiedIn_app, !transmittedIn_app. simpl.
    split; [now rewrite !app_nil_r|].
    exists []. split; [now rewrite !app_nil_r|reflexivity].
Qed.

Lemma step_observe a st st' :
  step a st = Some st' ->
  m_peer st'.1 = m_peer st.1 /\
  m_isDead st'.1
  = match a with ActMarkDead v => v | _ => m_isDead st.1 end /\
  m_recvCount st'.1
  = (if isReceive a then uint64 (m_recvCount st.1 + 1) else m_recvCount st.1) /\
  notifiedIn (trace st'.2)
  = notifiedIn (trace st.2) ++ failedSends (m_peer st.1) [a] /\
  exists sent : list PacketPtr,
    transmittedIn (trace st'.2) = transmittedIn (trace st.2) ++ sent /\
    m_sentCount st'.1
    = Nat.iter (length sent) (fun n => uint64 (n + 1)) (m_sentCount st.1).
Proof.
  destruct st as [c env].
  destruct a as [q r| |q error|fuel q|fuel|v|dt];
    cbn [step isReceive failedSends omap list_omap fst snd].
  - intros [= <-]. cbn. rewrite app_nil_r. repeat (split; [reflexivity|]).
    exists []. split; [now rewrite app_nil_r|reflexivity].
  - destruct (posted env) as [|t rest]; intros [= <-].
    + cbn. rewrite app_nil_r. repeat (split; [reflexivity|]).
      exists []. split; [now rewrite app_nil_r|reflexivity].
    + match goal with
      | |- context [doSend ?q ?r ?st1] =>
          destruct (doSend_sendSide q r st1)
            as (H1 & H2 & H3 & _ & _ & _ & _ & H8 & _ & Hsent)
      end.
      cbn [fst snd trace] in *. rewrite app_nil_r.
      repeat (split; [assumption|]). exact Hsent.
  - intros [= <-].
    destruct (handleSend_observe q error (c, env)) as (H1 & H2 & H3 & H4 & Hsent).
    cbn [fst snd] in *. repeat (split; [assumption|]).
    split; [|exact Hsent]. rewrite H4.
    destruct (bool_decide (error <> 0)); reflexivity.
  - intros Hrun.
    destruct (handleReceive_effects _ _ _ _ Hrun)
      as (H1 & _ & _ & H4 & H5 & _ & H7 & _ & _ & Hsent).
    cbn [fst snd] in *. rewrite app_nil_r.
    repeat (split; [assumption|]). exact Hsent.
  - intros Hrun.
    destruct (dispatchReceivedPackets_quiet _ _ _ Hrun)
      as (H1 & H2 & H3 & H4 & H5 & H6).
    cbn [fst snd] in *. rewrite app_nil_r.
    repeat (split; [assumption|]).
    exists []. split; [now rewrite app_nil_r|exact H4].
  - intros [= <-]. cbn. rewrite app_nil_r. repeat (split; [reflexivity|]).
    exists []. split; [now rewrite app_nil_r|reflexivity].
  - intros [= <-]. cbn. rewrite app_nil_r. repeat (split; [reflexivity|]).
    exists []. split; [now rewrite app_nil_r|reflexivity].
Qed.

Lemma failedSends_cons peer a acts :
  failedSends peer (a :: acts) = failedSends peer [a] ++ failedSends peer acts.
Proof.
  unfold failedSends. simpl.
  destruct a as [q r| |q error|fuel q|fuel|v|dt]; try reflexivity.
  destruct (bool_decide (error <> 0)); reflexivity.
Qed.

Lemma run_observe acts : forall st st',
  run acts st = Some st' ->
  m_peer st'.1 = m_peer st.1 /\
  (forallb (fun a => negb (isMarkDead a)) acts = true ->
   m_isDead st'.1 = m_isDead st.1) /\
  m_recvCount st'.1
  = Nat.iter (length (filter (fun a => isReceive a = true) acts))
      (fun n => uint64 (n + 1)) (m_recvCount st.1) /\
  notifiedIn (trace st'.2)
  = notifiedIn (trace st.2) ++ failedSends (m_peer st.1) acts /\
  exists sent : list PacketPtr,
    transmittedIn (trace st'.2) = transmittedIn (trace st.2) ++ sent /\
    m_sentCount st'.1
    = Nat.iter (length sent) (fun n => uint64 (n + 1)) (m_sentCount st.1).
Proof.
  induction acts as [|a acts IH]; intros st st'; simpl run.
  - intros [= <-]. split; [reflexivity|]. split; [reflexivity|].
    split; [reflexivity|]. split; [symmetry; apply app_nil_r|].
    exists []. split; [symmetry; apply app_nil_r|reflexivity].
  - destruct (step a st) as [st1|] eqn:Hstep; [|discriminate].
    intros Hrun.
    destruct (step_observe _ _ _ Hstep) as (H1 & H2 & H3 & H4 & l1 & Ht1 & Hc1).
    destruct (IH _ _ Hrun) as (K1 & K2 & K3 & K4 & l2 & Ht2 & Hc2).
    split; [congruence|]. split; [|split; [|split]].
    + simpl. intros [Ha Hacts]%andb_true_iff. rewrite K2, H2 by exact Hacts.
      destruct a; try reflexivity. discriminate.
    + rewrite K3, H3, filter_cons.
      destruct (isReceive a).
      * destruct (decide (true = true)); [|congruence].
        simpl length. now rewrite Nat.iter_succ_r.
      * destruct (decide (false = true)); [congruence|]. reflexivity.
    + rewrite K4, H4, H1, (failedSends_cons _ a acts). now rewrite app_assoc.
    + exists (l1 ++ l2). split.
      * rewrite Ht2, Ht1. now rewrite app_assoc.
      * rewrite Hc2, Hc1, length_app, Nat.add_comm. symmetry. apply Nat.iter_add.
Qed.

Lemma freshRunb_sound acts : forall st,
  freshRunb acts st = true -> freshRun acts st.
Proof.
  induction acts as [|a acts IH]; intros st; simpl; [done|].
  intros [Ha Hrest]%andb_true_iff. split.
  - destruct a; simpl in *; try exact I. now apply Nat.eqb_eq.
  - destruct (step a st) as [st1|]; [now apply IH|exact I].
Qed.

(** X7.  Along any run of the connection, the observers are called for
    failed sends and for nothing else: the notifications made are, in
    order, one [onError] with the peer and the error code for each send
    that completed with an error. *)
Theorem observers_hear_failed_sends (acts : list Action) (st st' : St) :
  run acts st = Some st' ->
  notifiedIn (trace st'.2)
  = notifiedIn (trace st.2) ++ failedSends (m_peer st.1) acts.
Proof.
  intros Hrun. destruct (run_observe _ _ _ Hrun) as (_ & _ & _ & H & _).
  exact H.
Qed.

Lemma observers_hear_failed_sends_witness :
  run sessionActs sessionSt = Some sessionEnd /\
  notifiedIn (trace sessionEnd.2) = [onError samplePeer 5].
Proof.
  assert (Hrun : run sessionActs sessionSt = Some sessionEnd)
    by (vm_compute; reflexivity).
  split; [exact Hrun|].
  rewrite (observers_hear_failed_sends sessionActs sessionSt sessionEnd Hrun).
  vm_compute. reflexivity.
Defined.

(** X8.  The connection does not mark itself dead, and does not change its
    peer: whatever happens in a run (failed sends, detected losses, a full
    sent buffer), [isDead] answers as before unless [markDead] was
    called. *)
Theorem only_markDead_changes_isDead (acts : list Action) (st st' : St) :
  run acts st = Some st' ->
  forallb (fun a => negb (isMarkDead a)) acts = true ->
  isDead st'.1 = isDead st.1 /\ m_peer st'.1 = m_peer st.1.
Proof.
  intros Hrun Hacts. destruct (run_observe _ _ _ Hrun) as (Hp & Hd & _).
  split; [exact (Hd Hacts)|exact Hp].
Qed.

Lemma only_markDead_changes_isDead_witness :
  exists st',
    run resendActs (doSend 1%positive 2 freshSt) = Some st' /\
    isDead st'.1 = false.
Proof.
  destruct (run resendActs (doSend 1%positive 2 freshSt)) as [st'|] eqn:Hrun.
  - exists st'. split; [reflexivity|].
    destruct (only_markDead_changes_isDead resendActs _ st' Hrun) as [Hd _].
    + reflexivity.
    + rewrite Hd. vm_compute. reflexivity.
  - assert (Hsome : match run resendActs (doSend 1%positive 2 freshSt) with
                    | Some _ => true
                    | None => false
                    end = true) by (vm_compute; reflexivity).
    rewrite Hrun in Hsome. discriminate.
Defined.

(** X9.  The counters count: along any run, [m_recvCount] goes up by the
    number of packets received and [m_sentCount] by the number of datagrams
    handed to the socket, resends included (both mod 2^64). *)
Theorem counters_count (acts : list Action) (st st' : St) :
  0 <= m_recvCount st.1 < 2 ^ 64 ->
  0 <= m_sentCount st.1 < 2 ^ 64 ->
  run acts st = Some st' ->
  m_recvCount st'.1
  = uint64 (m_recvCount st.1
            + Z.of_nat (length (filter (fun a => isReceive a = true) acts))) /\
  exists sent : list PacketPtr,
    transmittedIn (trace st'.2) = transmittedIn (trace st.2) ++ sent /\
    m_sentCount st'.1 = uint64 (m_sentCount st.1 + Z.of_nat (length sent)).
Proof.
  intros Hr Hs Hrun.
  destruct (run_observe _ _ _ Hrun) as (_ & _ & Hrecv & _ & sent & Ht & Hc).
  split; [rewrite Hrecv; now apply iter_uint64|].
  exists sent. split; [exact Ht|]. rewrite Hc. now apply iter_uint64.
Qed.

Lemma counters_count_witness :
  run sessionActs sessionSt = Some sessionEnd /\
  m_recvCount sessionEnd.1 = 1 /\
  exists sent : list PacketPtr,
    transmittedIn (trace sessionEnd.2) = transmittedIn (trace sessionSt.2) ++ sent /\
    m_sentCount sessionEnd.1 = uint64 (0 + Z.of_nat (length sent)).
Proof.
  assert (Hrun : run sessionActs sessionSt = Some sessionEnd)
    by (vm_compute; reflexivity).
  split; [exact Hrun|].
  destruct (counters_count sessionActs sessionSt sessionEnd) as [Hrecv Hsent].
  - vm_compute. split; [discriminate|reflexivity].
  - vm_compute. split; [discriminate|reflexivity].
  - exact Hrun.
  - split; [rewrite Hrecv; vm_compute; reflexivity|exact Hsent].
Defined.

(** X10.  No more is acknowledged than was sent: [m_ackdCount] plus the
    number of packets still held in the sent buffer never exceeds
    [m_sentCount], as long as [m_sentCount] does not wrap around.  Each
    acknowledgement counted takes its packet out of the buffer, so no
    packet is counted twice. *)
Theorem acknowledged_at_most_sent (acts : list Action) (st st' : St) :
  run acts st = Some st' ->
  0 <= m_ackdCount st.1 ->
  m_ackdCount st.1 + Z.of_nat (size (SentBuffer.slots (m_sentPackets st.1)))
    <= m_sentCount st.1 ->
  m_sentCount st.1
  + (Z.of_nat (length (transmittedIn (trace st'.2)))
     - Z.of_nat (length (transmittedIn (trace st.2)))) < 2 ^ 64 ->
  0 <= m_ackdCount st'.1 /\
  m_ackdCount st'.1 + Z.of_nat (size (SentBuffer.slots (m_sentPackets st'.1)))
    <= m_sentCount st'.1.
Proof.
  intros Hrun Ha Hinv Hroom.
  destruct (run_observe _ _ _ Hrun) as (_ & _ & _ & _ & sent & Ht & Hc).
  destruct (run_books _ _ _ Hrun) as (_ & acked & Hack & Hsize).
  rewrite Ht, length_app in Hroom, Hsize.
  rewrite iter_uint64 in Hc by lia. rewrite iter_uint64 in Hack by lia.
  rewrite Hc, Hack. clear Hc Hack Ht Hrun.
  set (held := size (SentBuffer.slots (m_sentPackets st.1))) in *.
  set (held' := size (SentBuffer.slots (m_sentPackets st'.1))) in *.
  set (T := length (transmittedIn (trace st.2))) in *.
  clearbody held held' T.
  assert (0 <= m_ackdCount st.1 + Z.of_nat acked < 2 ^ 64) by lia.
  assert (0 <= m_sentCount st.1 + Z.of_nat (length sent) < 2 ^ 64) by lia.
  unfold uint64. rewrite !Z.mod_small by assumption. lia.
Qed.

Lemma acknowledged_at_most_sent_witness :
  run sessionActs sessionSt = Some sessionEnd /\
  m_ackdCount sessionEnd.1 = 2 /\
  m_ackdCount sessionEnd.1
  + Z.of_nat (size (SentBuffer.slots (m_sentPackets sessionEnd.1)))
    <= m_sentCount sessionEnd.1.
Proof.
  assert (Hrun : run sessionActs sessionSt = Some sessionEnd)
    by (vm_compute; reflexivity).
  split; [exact Hrun|]. split; [vm_compute; reflexivity|].
  apply (acknowledged_at_most_sent sessionActs sessionSt sessionEnd Hrun).
  - vm_compute. discriminate.
  - vm_compute. discriminate.
  - vm_compute. reflexivity.
Defined.

(** X11.  Every datagram is accounted for: along any run, the datagrams
    handed to the socket plus the jobs still waiting grow by exactly the
    number of [asyncSend] calls of the application plus the number of
    resends; no job is dropped and none runs twice. *)
Theorem every_datagram_is_accounted_for (acts : list Action) (st st' : St) :
  run acts st = Some st' ->
  Z.of_nat (length (transmittedIn (trace st'.2)))
  + Z.of_nat (length (posted st'.2))
  - Z.of_nat (length (resendsIn (trace st'.2)))
  = Z.of_nat (length (transmittedIn (trace st.2)))
    + Z.of_nat (length (posted st.2))
    - Z.of_nat (length (resendsIn (trace st.2)))
    + Z.of_nat (length (filter (fun a => isAsyncSend a = true) acts)).
Proof.
  intros Hrun. destruct (run_books _ _ _ Hrun) as (Hb & _). exact Hb.
Qed.

Lemma every_datagram_is_accounted_for_witness :
  run sessionActs sessionSt = Some sessionEnd /\
  length (transmittedIn (trace sessionEnd.2)) = 3%nat /\
  length (posted sessionEnd.2) = 0%nat /\
  length (resendsIn (trace sessionEnd.2)) = 1%nat.
Proof.
  assert (Hrun : run sessionActs sessionSt = Some sessionEnd)
    by (vm_compute; reflexivity).
  split; [exact Hrun|].
  pose proof (every_datagram_is_accounted_for sessionActs sessionSt sessionEnd Hrun)
    as Hbal.
  assert (Hq : length (posted sessionEnd.2) = 0%nat) by (vm_compute; reflexivity).
  assert (Hr : length (resendsIn (trace sessionEnd.2)) = 1%nat)
    by (vm_compute; reflexivity).
  rewrite Hq, Hr in Hbal.
  evaluate_in (length (filter (fun a => isAsyncSend a = true) sessionActs)) Hbal.
  evaluate_in (length (transmittedIn (trace sessionSt.2))) Hbal.
  evaluate_in (length (posted sessionSt.2)) Hbal.
  evaluate_in (length (resendsIn (trace sessionSt.2))) Hbal.
  split; [lia|]. split; [exact Hq|exact Hr].
Defined.

(** X12.  In every state a fresh connection reaches, as long as the
    application does not hand [asyncSend] a packet the connection still
    holds, every packet in the sent buffer is found under the seqnum its
    header carries, that seqnum is one of the last 256 allocated, and no
    other slot holds the same packet. *)
Theorem held_packets_answer_to_their_seqnum (peer : endpoint) (env : Env)
    (acts : list Action) (st : St) :
  posted env = [] ->
  freshRun acts (newConnection peer, env) ->
  run acts (newConnection peer, env) = Some st ->
  forall k e, SentBuffer.slots (m_sentPackets st.1) !! k = Some e ->
    SentBuffer.contains (heap st.2) (m_sentPackets st.1)
      (seqOf (heap st.2) (packet e)) = true /\
    uint16 (SentBuffer.nextSeqNum (m_sentPackets st.1) - 1
            - seqOf (heap st.2) (packet e)) < 256 /\
    forall k' e', SentBuffer.slots (m_sentPackets st.1) !! k' = Some e' ->
                  packet e' = packet e -> k' = k.
Proof.
  intros Hq Hfresh Hrun k e Hk.
  pose proof (reachable_wf_sent peer env acts st Hq Hfresh Hrun) as Hwf.
  split; [eapply wf_contains; eauto|].
  destruct Hwf as [_ Hwf]. destruct (Hwf k e Hk) as (_ & -> & Hwin).
  split; [exact Hwin|].
  intros k' e' Hk' Heq. destruct (Hwf k' e' Hk') as (_ & -> & _).
  now rewrite Heq.
Qed.

Lemma held_packets_answer_to_their_seqnum_witness :
  exists st,
    run (firstn 5 sessionActs) sessionSt = Some st /\
    forall k e, SentBuffer.slots (m_sentPackets st.1) !! k = Some e ->
      SentBuffer.contains (heap st.2) (m_sentPackets st.1)
        (seqOf (heap st.2) (packet e)) = true.
Proof.
  destruct (run (firstn 5 sessionActs) sessionSt) as [st|] eqn:Hrun.
  - exists st. split; [reflexivity|]. intros k e Hk.
    destruct (held_packets_answer_to_their_seqnum samplePeer (sessionSt.2)
                (firstn 5 sessionActs) st) with (k := k) (e := e) as [Hc _].
    + reflexivity.
    + apply freshRunb_sound. vm_compute. reflexivity.
    + exact Hrun.
    + exact Hk.
    + exact Hc.
  - assert (Hsome : match run (firstn 5 sessionActs) sessionSt with
                    | Some _ => true
                    | None => false
                    end = true) by (vm_compute; reflexivity).
    rewrite Hrun in Hsome. discriminate.
Defined.

(** X13.  The seqnum lives in the packet, not in the buffer: when the same
    packet is sent a second time while the first send is still held, the
    second [doSend] stamps the packet anew, the entry of the first send
    stays in its slot but is no longer found under its seqnum, and only the
    second seqnum can be acknowledged. *)
Theorem doSend_same_packet_twice (q : PacketPtr) (r r' : N) (st : St) :
  0 <= SentBuffer.nextSeqNum (m_sentPackets st.1) < 2 ^ 16 ->
  let n := SentBuffer.nextSeqNum (m_sentPackets st.1) in
  let st2 := doSend q r' (doSend q r st) in
  SentBuffer.slots (m_sentPackets st2.1) !! SentBuffer.slotOf n
  = Some (mkExt q r (clock st.2)) /\
  SentBuffer.contains (heap st2.2) (m_sentPackets st2.1) n = false /\
  SentBuffer.contains (heap st2.2) (m_sentPackets st2.1) (uint16 (n + 1)) = true.
Proof.
  destruct st as [c env]. intros Hn n st2. subst n st2. cbn [fst snd] in *.
  destruct (doSend q r (c, env)) as [c1 env1] eqn:Hfirst.
  pose proof (doSend_sentPackets q r c env) as Hb1.
  pose proof (doSend_clock q r c env) as Hc1.
  rewrite Hfirst in Hb1, Hc1. cbn [fst snd] in Hb1, Hc1.
  rewrite doSend_sentPackets, doSend_heap, Hb1, Hc1.
  set (n := SentBuffer.nextSeqNum (m_sentPackets c)) in *.
  cbn [SentBuffer.slots SentBuffer.nextSeqNum].
  assert (Hne : SentBuffer.slotOf (uint16 (n + 1)) <> SentBuffer.slotOf n).
  { unfold SentBuffer.slotOf, SentBuffer.capacity. clear - Hn. euclid. }
  assert (Hslot : <[SentBuffer.slotOf (uint16 (n + 1)) := mkExt q r' (clock env)]>
                    (<[SentBuffer.slotOf n := mkExt q r (clock env)]>
                       (SentBuffer.slots (m_sentPackets c)))
                  !! SentBuffer.slotOf n = Some (mkExt q r (clock env))).
  { rewrite lookup_insert_ne by exact Hne. apply lookup_insert_eq. }
  split; [exact Hslot|]. split.
  - unfold SentBuffer.contains. cbn [SentBuffer.slots]. rewrite Hslot.
    cbn [packet]. rewrite seqOf_heapSet.
    destruct (decide (q = q)) as [_|Hqq]; [|congruence].
    apply Z.eqb_neq. simpl. clear - Hn. euclid.
  - unfold SentBuffer.contains. cbn [SentBuffer.slots].
    rewrite lookup_insert_eq. cbn [packet]. rewrite seqOf_heapSet.
    destruct (decide (q = q)) as [_|Hqq]; [|congruence].
    apply Z.eqb_eq. reflexivity.
Qed.

Lemma doSend_same_packet_twice_witness :
  SentBuffer.contains (heap (doSend 3%positive 0 (doSend 3%positive 0 sentTwoSt)).2)
    (m_sentPackets (doSend 3%positive 0 (doSend 3%positive 0 sentTwoSt)).1) 2
  = false.
Proof.
  destruct (doSend_same_packet_twice 3%positive 0 0 sentTwoSt) as (_ & H & _).
  - vm_compute. split; [discriminate|reflexivity].
  - exact H.
Defined.
